(** * Plan requirement computation: a shallow embedding of
      [PlanComputationUtils] and proofs of its properties.

    Numbers are modelled as [Z] (all quantities, levels and ids of the source
    are integers).  JavaScript objects used as maps keyed by a number are
    [gmap Z _]; the [previousPlans] bucket map, keyed by the plan's [_id], is a
    [gmap string _].  Functions returning [void] that update their first
    argument in place return the updated argument. *)

From stdpp Require Import gmap strings list fin_maps.
From Stdlib Require Import ZArith.

Local Open Scope Z_scope.

(** ** JavaScript optional booleans *)

(** An optional boolean field is [undefined], [false] or [true]. *)
Definition truthy (b : option bool) : bool := default false b.

(** [a && b] on optional booleans: [a] when [a] is falsy, [b] otherwise. *)
Definition js_and (a b : option bool) : option bool :=
  if truthy a then b else a.

(** [x || 0] on a nullable number. *)
Definition orZero (x : option Z) : Z := default 0 x.

(** ** Constants of [InstantiatedServantConstants] *)

(** Modelled from the spec: [InstantiatedServantConstants.MaxSkillLevel] is
    declared in the data-core package; the spec gives skill levels the range
    1..10. *)
Definition MaxSkillLevel : Z := 10.

(** Modelled from the spec: [InstantiatedServantConstants.MaxAscensionLevel]
    is declared in the data-core package; the spec gives ascension levels the
    range 0..4. *)
Definition MaxAscensionLevel : Z := 4.

(** ** Data model *)

Record ComputationOptions := mkOptions {
  includeAscensions : option bool;
  includeSkills : option bool;
  includeAppendSkills : option bool;
  includeCostumes : option bool;
  excludeLores : option bool
}.

Record SkillEnhancements := mkSkills {
  skill1 : option Z;
  skill2 : option Z;
  skill3 : option Z
}.

Record ServantEnhancements := mkEnh {
  ascension : option Z;
  skills : SkillEnhancements;
  appendSkills : SkillEnhancements
}.

(** [GameServantEnhancement]: the cost of one upgrade step. *)
Record GameServantEnhancement := mkCost {
  materials : gmap Z Z;
  cost_qp : Z
}.

Record GameServantCostume := mkCostume {
  costume_materials : GameServantEnhancement
}.

(** [GameServant]: the cost tables, keyed by level or by costume id, as the
    type of the source declares them: [ascensionMaterials] is optional, the
    source tests it before use; the three other tables are passed on and
    iterated without a test.  An object that lacks one of them, on which
    the source throws, is a [Runtime.GameServant] further down. *)
Record GameServant := mkGameServant {
  skillMaterials : gmap Z GameServantEnhancement;
  appendSkillMaterials : gmap Z GameServantEnhancement;
  ascensionMaterials : option (gmap Z GameServantEnhancement);
  gs_costumes : gmap Z GameServantCostume
}.

(** [ImmutableMasterServant]: the fields the computation reads; the
    enhancement fields of the source record ([ascension], [skills],
    [appendSkills]) are grouped in one field. *)
Record MasterServant := mkMasterServant {
  ms_instanceId : Z;
  ms_gameId : Z;
  ms_enhancements : ServantEnhancements
}.

(** [ImmutableMasterAccount]: [ma_items] and [ma_qp] are [resources.items]
    and [resources.qp]. *)
Record MasterAccount := mkMasterAccount {
  ma_servants : list MasterServant;
  ma_items : gmap Z Z;
  ma_qp : Z;
  ma_costumes : list Z
}.

(** The internal [MasterAccountData]. *)
Record MasterAccountData := mkMasterAccountData {
  mad_items : gmap Z Z;
  mad_servants : gmap Z MasterServant;
  mad_costumes : gset Z;
  mad_qp : Z
}.

(** The four axis flags shared by [Plan.enabled] and [PlanServant.enabled]. *)
Record EnabledAxes := mkEnabled {
  en_ascensions : bool;
  en_skills : bool;
  en_appendSkills : bool;
  en_costumes : bool
}.

(** [PlanServant]: [ps_enabled_servant] is [enabled.servant], [ps_enabled]
    holds the four axis flags of [enabled], and the target enhancement fields
    are grouped in one field. *)
Record PlanServant := mkPlanServant {
  ps_instanceId : Z;
  ps_enabled_servant : bool;
  ps_enabled : EnabledAxes;
  ps_enhancements : ServantEnhancements
}.

(** [Plan]: [plan_id] is [_id], [plan_costumes] the targeted costume ids. *)
Record Plan := mkPlan {
  plan_id : string;
  plan_enabled : EnabledAxes;
  plan_servants : list PlanServant;
  plan_costumes : list Z
}.

(** [PlanEnhancementItemRequirements] *)
Record EnhancementItemRequirements := mkItemReq {
  ir_ascensions : Z;
  ir_skills : Z;
  ir_appendSkills : Z;
  ir_costumes : Z;
  ir_total : Z
}.

(** The keys of [EnhancementItemRequirements]. *)
Inductive ItemReqKey := KAscensions | KSkills | KAppendSkills | KCostumes | KTotal.

(** The type ['skills' | 'appendSkills'] of the [skillType] parameter, and the
    key each of its values is. *)
Inductive SkillType := Skills | AppendSkills.

Definition skillKey (skillType : SkillType) : ItemReqKey :=
  match skillType with
  | Skills => KSkills
  | AppendSkills => KAppendSkills
  end.

Record Embers := mkEmbers {
  ember1 : Z;
  ember2 : Z;
  ember3 : Z;
  ember4 : Z;
  ember5 : Z
}.

(** [PlanEnhancementRequirements] *)
Record EnhancementRequirements := mkReq {
  embers : Embers;
  items : gmap Z EnhancementItemRequirements;
  qp : Z
}.

Record PlanServantRequirements := mkPSR {
  psr_instanceId : Z;
  current : ServantEnhancements;
  target : ServantEnhancements;
  requirements : EnhancementRequirements
}.

Record PlanRequirements := mkPlanReq {
  servants : gmap Z PlanServantRequirements;
  targetPlan : EnhancementRequirements;
  previousPlans : gmap string EnhancementRequirements;
  group : EnhancementRequirements;
  itemDebt : gmap Z Z
}.

(** ** Helpers of the common-core and data-core packages *)

(** Modelled from the spec: [ObjectUtils.getOrDefault] (common-core) returns
    the entry stored under the key, storing a freshly instantiated one first
    when the key is missing (auto-vivification).  The updated object and the
    entry are both returned. *)
Definition getOrDefault `{Countable K} {V} (obj : gmap K V) (key : K)
    (instantiate : V) : gmap K V * V :=
  match obj !! key with
  | Some v => (obj, v)
  | None => (<[key := instantiate]> obj, instantiate)
  end.

(** Modelled from the spec: [CollectionUtils.toReadonlySet] (common-core)
    collects an iterable of ids into a set. *)
Definition toReadonlySet (ids : list Z) : gset Z := list_to_set ids.

(** Modelled from the spec: [CollectionUtils.mapIterableToObject]
    (common-core) converts the elements into a mapping from key to element,
    for lookups by key.  The spec gives every unit instance its own
    instance id and does not say what becomes of a key that occurs twice;
    the fold keeps the later element then, and no proof below uses that. *)
Definition mapIterableToObject {V} (elems : list V) (keyOf : V → Z) : gmap Z V :=
  foldl (λ obj e, <[keyOf e := e]> obj) ∅ elems.

(** Types that carry the enhancement fields ([MasterServant], [PlanServant]
    and the enhancement records themselves). *)
Class HasEnhancements (A : Type) := enhancementsOf : A → ServantEnhancements.
Global Instance enh_has_enh : HasEnhancements ServantEnhancements := id.
Global Instance master_has_enh : HasEnhancements MasterServant := ms_enhancements.
Global Instance plan_servant_has_enh : HasEnhancements PlanServant := ps_enhancements.

(** Modelled from the spec: [InstantiatedServantUtils.instantiateEnhancements]
    (data-core) allocates an enhancement record; every use in this module
    overwrites it with [updateEnhancements] right away. *)
Definition instantiateEnhancements : ServantEnhancements :=
  mkEnh None (mkSkills None None None) (mkSkills None None None).

(** Modelled from the spec: [InstantiatedServantUtils.updateEnhancements]
    (data-core) overwrites the enhancement fields of its first argument with
    those of the second, by value. *)
Definition updateEnhancements `{HasEnhancements A}
    (tgt : ServantEnhancements) (source : A) : ServantEnhancements :=
  let s := enhancementsOf source in
  mkEnh (ascension s)
        (mkSkills (skill1 (skills s)) (skill2 (skills s)) (skill3 (skills s)))
        (mkSkills (skill1 (appendSkills s)) (skill2 (appendSkills s))
                  (skill3 (appendSkills s))).

(** Modelled from the spec: [InstantiatedServantUtils.cloneEnhancements]
    (data-core) returns an independent copy of the enhancement fields. *)
Definition cloneEnhancements `{HasEnhancements A} (source : A) : ServantEnhancements :=
  updateEnhancements instantiateEnhancements source.

(** ** Instantiation methods *)

Definition _instantiateEnhancementItemRequirements : EnhancementItemRequirements :=
  mkItemReq 0 0 0 0 0.

Definition _instantiateEnhancementRequirements : EnhancementRequirements :=
  mkReq (mkEmbers 0 0 0 0 0) ∅ 0.

Definition _instantiatePlanServantRequirements (planServant : PlanServant)
    (masterServant : MasterServant) : PlanServantRequirements :=
  let current := instantiateEnhancements in
  let current := updateEnhancements current masterServant in
  let target := cloneEnhancements planServant in
  mkPSR (ps_instanceId planServant) current target
        _instantiateEnhancementRequirements.

Definition _instantiatePlanRequirements : PlanRequirements :=
  mkPlanReq ∅ _instantiateEnhancementRequirements ∅
            _instantiateEnhancementRequirements ∅.

(** ** Requirement aggregation *)

Definition _addEnhancementItemRequirements
    (tgt source : EnhancementItemRequirements) : EnhancementItemRequirements :=
  mkItemReq (ir_ascensions tgt + ir_ascensions source)
            (ir_skills tgt + ir_skills source)
            (ir_appendSkills tgt + ir_appendSkills source)
            (ir_costumes tgt + ir_costumes source)
            (ir_total tgt + ir_total source).

(** The loop over [Object.entries(source.embers)]: the five rarities. *)
Definition addEmbers (targetEmbers sourceEmbers : Embers) : Embers :=
  mkEmbers (ember1 targetEmbers + ember1 sourceEmbers)
           (ember2 targetEmbers + ember2 sourceEmbers)
           (ember3 targetEmbers + ember3 sourceEmbers)
           (ember4 targetEmbers + ember4 sourceEmbers)
           (ember5 targetEmbers + ember5 sourceEmbers).

(** One iteration of the loop over [Object.entries(source.items)]. *)
Definition addItemEntry (itemId : Z) (value : EnhancementItemRequirements)
    (targetItems : gmap Z EnhancementItemRequirements)
    : gmap Z EnhancementItemRequirements :=
  match targetItems !! itemId with
  | None => <[itemId := value]> targetItems
  | Some t => <[itemId := _addEnhancementItemRequirements t value]> targetItems
  end.

Definition addEnhancementRequirements
    (tgt source : EnhancementRequirements) : EnhancementRequirements :=
  let targetEmbers := addEmbers (embers tgt) (embers source) in
  let targetItems := map_fold addItemEntry (items tgt) (items source) in
  mkReq targetEmbers targetItems (qp tgt + qp source).

Definition sumEnhancementRequirements
    (arr : list EnhancementRequirements) : EnhancementRequirements :=
  foldl addEnhancementRequirements _instantiateEnhancementRequirements arr.

(** ** Options *)

Definition _defaultOptions : ComputationOptions :=
  mkOptions (Some true) (Some true) (Some true) (Some true) None.

Definition _defaultTargetEnhancements : ServantEnhancements :=
  mkEnh (Some MaxAscensionLevel)
        (mkSkills (Some MaxSkillLevel) (Some MaxSkillLevel) (Some MaxSkillLevel))
        (mkSkills (Some MaxSkillLevel) (Some MaxSkillLevel) (Some MaxSkillLevel)).

(** [_parseComputationOptions] reads the four axis flags of [data.enabled];
    the result has no [excludeLores] field. *)
Definition _parseComputationOptions (enabled : EnabledAxes) : ComputationOptions :=
  mkOptions (Some (en_ascensions enabled)) (Some (en_skills enabled))
            (Some (en_appendSkills enabled)) (Some (en_costumes enabled)) None.

Definition _mergeComputationOptions (a b : ComputationOptions) : ComputationOptions :=
  mkOptions (js_and (includeAscensions a) (includeAscensions a))
            (js_and (includeSkills a) (includeSkills b))
            (js_and (includeAppendSkills a) (includeAppendSkills b))
            (js_and (includeCostumes a) (includeCostumes b))
            (js_and (excludeLores a) (excludeLores b)).

(** ** Requirements of one servant *)

(** [itemCount[propertyKey] += total] *)
Definition addToKey (propertyKey : ItemReqKey) (total : Z)
    (itemCount : EnhancementItemRequirements) : EnhancementItemRequirements :=
  match propertyKey with
  | KAscensions =>
      mkItemReq (ir_ascensions itemCount + total) (ir_skills itemCount)
                (ir_appendSkills itemCount) (ir_costumes itemCount) (ir_total itemCount)
  | KSkills =>
      mkItemReq (ir_ascensions itemCount) (ir_skills itemCount + total)
                (ir_appendSkills itemCount) (ir_costumes itemCount) (ir_total itemCount)
  | KAppendSkills =>
      mkItemReq (ir_ascensions itemCount) (ir_skills itemCount)
                (ir_appendSkills itemCount + total) (ir_costumes itemCount) (ir_total itemCount)
  | KCostumes =>
      mkItemReq (ir_ascensions itemCount) (ir_skills itemCount)
                (ir_appendSkills itemCount) (ir_costumes itemCount + total) (ir_total itemCount)
  | KTotal =>
      mkItemReq (ir_ascensions itemCount) (ir_skills itemCount)
                (ir_appendSkills itemCount) (ir_costumes itemCount) (ir_total itemCount + total)
  end.

(** One iteration of the loop over [Object.entries(enhancement.materials)]. *)
Definition updateItemCount (propertyKey : ItemReqKey) (enhancementCount : Z)
    (itemId quantity : Z) (resultItems : gmap Z EnhancementItemRequirements)
    : gmap Z EnhancementItemRequirements :=
  let '(resultItems, itemCount) :=
    getOrDefault resultItems itemId _instantiateEnhancementItemRequirements in
  let total := quantity * enhancementCount in
  let itemCount := addToKey propertyKey total itemCount in
  let itemCount := addToKey KTotal total itemCount in
  <[itemId := itemCount]> resultItems.

Definition _updateEnhancementRequirementResult (result : EnhancementRequirements)
    (enhancement : GameServantEnhancement) (propertyKey : ItemReqKey)
    (enhancementCount : Z) : EnhancementRequirements :=
  let resultItems :=
    map_fold (updateItemCount propertyKey enhancementCount)
             (items result) (materials enhancement) in
  mkReq (embers result) resultItems (qp result + cost_qp enhancement * enhancementCount).

(** The number of the three skills that need the upgrade at [skillLevel]. *)
Definition skillUpgradeCount (currentSkill1 currentSkill2 currentSkill3
    targetSkill1 targetSkill2 targetSkill3 skillLevel : Z) : Z :=
  (if (currentSkill1 >? skillLevel) || (skillLevel >=? targetSkill1) then 0 else 1) +
  (if (currentSkill2 >? skillLevel) || (skillLevel >=? targetSkill2) then 0 else 1) +
  (if (currentSkill3 >? skillLevel) || (skillLevel >=? targetSkill3) then 0 else 1).

(** One iteration of the loop over [Object.entries(skillMaterials)]. *)
Definition updateForSkillLevel (currentSkills targetSkills : SkillEnhancements)
    (skillType : SkillType) (excludeLores : option bool)
    (skillLevel : Z) (skill : GameServantEnhancement)
    (result : EnhancementRequirements) : EnhancementRequirements :=
  let currentSkill1 := orZero (skill1 currentSkills) in
  let currentSkill2 := orZero (skill2 currentSkills) in
  let currentSkill3 := orZero (skill3 currentSkills) in
  let targetSkill1 := orZero (skill1 targetSkills) in
  let targetSkill2 := orZero (skill2 targetSkills) in
  let targetSkill3 := orZero (skill3 targetSkills) in
  if truthy excludeLores && (skillLevel =? MaxSkillLevel - 1) then result
  else
    let count := skillUpgradeCount currentSkill1 currentSkill2 currentSkill3
                   targetSkill1 targetSkill2 targetSkill3 skillLevel in
    if count =? 0 then result
    else _updateEnhancementRequirementResult result skill (skillKey skillType) count.

Definition _updateResultForSkills (result : EnhancementRequirements)
    (skillMaterials : gmap Z GameServantEnhancement)
    (currentSkills targetSkills : SkillEnhancements)
    (skillType : SkillType) (excludeLores : option bool) : EnhancementRequirements :=
  map_fold (updateForSkillLevel currentSkills targetSkills skillType excludeLores)
           result skillMaterials.

(** One iteration of the loop over [Object.entries(gameServant.ascensionMaterials)]. *)
Definition updateForAscension (currentEnhancements : ServantEnhancements)
    (targetAscension : Z) (ascensionLevel : Z) (asc : GameServantEnhancement)
    (result : EnhancementRequirements) : EnhancementRequirements :=
  let currentAscension := orZero (ascension currentEnhancements) in
  if (currentAscension >=? ascensionLevel) || (ascensionLevel >? targetAscension)
  then result
  else _updateEnhancementRequirementResult result asc KAscensions 1.

(** The test that sends the costume loop to [continue]. *)
Definition costumeSkipped (currentCostumes : gset Z) (targetCostumes : option (gset Z))
    (costumeId : Z) : bool :=
  bool_decide (costumeId ∈ currentCostumes) ||
  match targetCostumes with
  | Some tc => negb (bool_decide (costumeId ∈ tc))
  | None => false
  end.

(** One iteration of the loop over [Object.entries(gameServant.costumes)]. *)
Definition updateForCostume (currentCostumes : gset Z) (targetCostumes : option (gset Z))
    (costumeId : Z) (costume : GameServantCostume)
    (result : EnhancementRequirements) : EnhancementRequirements :=
  if costumeSkipped currentCostumes targetCostumes costumeId then result
  else _updateEnhancementRequirementResult result (costume_materials costume) KCostumes 1.

Definition _computeServantEnhancementRequirements (gameServant : GameServant)
    (currentEnhancements : ServantEnhancements) (currentCostumes : gset Z)
    (targetEnhancements : ServantEnhancements) (targetCostumes : option (gset Z))
    (options : option ComputationOptions) : EnhancementRequirements :=
  let options := default _defaultOptions options in
  let result := _instantiateEnhancementRequirements in
  let result :=
    if truthy (includeSkills options) then
      _updateResultForSkills result (skillMaterials gameServant)
        (skills currentEnhancements) (skills targetEnhancements)
        Skills (excludeLores options)
    else result in
  let result :=
    if truthy (includeAppendSkills options) then
      _updateResultForSkills result (appendSkillMaterials gameServant)
        (appendSkills currentEnhancements) (appendSkills targetEnhancements)
        AppendSkills (excludeLores options)
    else result in
  let result :=
    match truthy (includeAscensions options), ascension targetEnhancements with
    | true, Some targetAscension =>
        match ascensionMaterials gameServant with
        | Some ascensions =>
            map_fold (updateForAscension currentEnhancements targetAscension)
                     result ascensions
        | None => result
        end
    | _, _ => result
    end in
  let result :=
    if truthy (includeCostumes options) then
      map_fold (updateForCostume currentCostumes targetCostumes)
               result (gs_costumes gameServant)
    else result in
  result.

Definition computeServantEnhancementRequirements (gameServant : GameServant)
    (currentEnhancements : ServantEnhancements) (currentCostumes : list Z)
    (options : option ComputationOptions) : EnhancementRequirements :=
  let currentCostumeSet := toReadonlySet currentCostumes in
  _computeServantEnhancementRequirements gameServant currentEnhancements
    currentCostumeSet _defaultTargetEnhancements None options.

(** ** Requirements of a plan and of the plans before it *)

Definition _preProcessMasterAccount (masterAccount : MasterAccount) : MasterAccountData :=
  let servants := mapIterableToObject (ma_servants masterAccount) ms_instanceId in
  let items := ma_items masterAccount in
  let costumes : gset Z := list_to_set (ma_costumes masterAccount) in
  let qp := ma_qp masterAccount in
  mkMasterAccountData items servants costumes qp.

(** Returns the updated [result] with the pair of the source; the first
    component of the pair is the entry now stored in [result.servants] under
    the instance id. *)
Definition _computePlanServantRequirements (result : PlanRequirements)
    (gameServant : GameServant) (masterServant : MasterServant)
    (planServant : PlanServant) (currentCostumes targetCostumes : gset Z)
    (options : ComputationOptions)
    : PlanRequirements * (PlanServantRequirements * EnhancementRequirements) :=
  let instanceId := ps_instanceId planServant in
  let resultServants := servants result in
  let planServantRequirements :=
    match resultServants !! instanceId with
    | None => _instantiatePlanServantRequirements planServant masterServant
    | Some psr =>
        let current' := updateEnhancements (current psr) (target psr) in
        let target' := updateEnhancements (target psr) planServant in
        mkPSR (psr_instanceId psr) current' target' (requirements psr)
    end in
  let resultServants := <[instanceId := planServantRequirements]> resultServants in
  let enhancementRequirements :=
    _computeServantEnhancementRequirements gameServant
      (current planServantRequirements) currentCostumes
      (target planServantRequirements) (Some targetCostumes) (Some options) in
  (mkPlanReq resultServants (targetPlan result) (previousPlans result)
             (group result) (itemDebt result),
   (planServantRequirements, enhancementRequirements)).

(** The body of the loop over [plan.servants]. *)
Definition computePlanServantStep (gameServantMap : gmap Z GameServant)
    (masterAccountData : MasterAccountData) (planId : string)
    (targetCostumes : gset Z) (options : ComputationOptions) (isTargetPlan : bool)
    (result : PlanRequirements) (planServant : PlanServant) : PlanRequirements :=
  if negb (ps_enabled_servant planServant) then result
  else
    match mad_servants masterAccountData !! ps_instanceId planServant with
    | None => result
    | Some masterServant =>
        match gameServantMap !! ms_gameId masterServant with
        | None => result
        | Some gameServant =>
            let servantOptions := _parseComputationOptions (ps_enabled planServant) in
            let mergedOptions := _mergeComputationOptions options servantOptions in
            let '(result, (planServantRequirements, enhancementRequirements)) :=
              _computePlanServantRequirements result gameServant masterServant
                planServant (mad_costumes masterAccountData) targetCostumes
                mergedOptions in
            let result :=
              if isTargetPlan then
                let psr :=
                  mkPSR (psr_instanceId planServantRequirements)
                        (current planServantRequirements)
                        (target planServantRequirements)
                        (addEnhancementRequirements
                           (requirements planServantRequirements)
                           enhancementRequirements) in
                mkPlanReq (<[ps_instanceId planServant := psr]> (servants result))
                          (addEnhancementRequirements (targetPlan result)
                                                      enhancementRequirements)
                          (previousPlans result) (group result) (itemDebt result)
              else
                let '(previousPlans, planEnhancementRequirements) :=
                  getOrDefault (previousPlans result) planId
                               _instantiateEnhancementRequirements in
                mkPlanReq (servants result) (targetPlan result)
                          (<[planId := addEnhancementRequirements
                                         planEnhancementRequirements
                                         enhancementRequirements]> previousPlans)
                          (group result) (itemDebt result) in
            mkPlanReq (servants result) (targetPlan result) (previousPlans result)
                      (addEnhancementRequirements (group result) enhancementRequirements)
                      (itemDebt result)
        end
    end.

Definition _computePlanRequirements (result : PlanRequirements)
    (gameServantMap : gmap Z GameServant) (masterAccountData : MasterAccountData)
    (plan : Plan) (options : ComputationOptions) (isTargetPlan : bool)
    : PlanRequirements :=
  let targetCostumes := toReadonlySet (plan_costumes plan) in
  foldl (computePlanServantStep gameServantMap masterAccountData (plan_id plan)
           targetCostumes options isTargetPlan)
        result (plan_servants plan).

Definition computePlanRequirements (gameServantMap : gmap Z GameServant)
    (masterAccount : MasterAccount) (targetPlan : Plan)
    (previousPlans : option (list Plan)) (optionsOverride : option ComputationOptions)
    : PlanRequirements :=
  let result := _instantiatePlanRequirements in
  let masterAccountData := _preProcessMasterAccount masterAccount in
  let options :=
    match optionsOverride with
    | Some o => o
    | None => _parseComputationOptions (plan_enabled targetPlan)
    end in
  let result :=
    foldl (λ result plan,
             _computePlanRequirements result gameServantMap masterAccountData
               plan options false)
          result (default [] previousPlans) in
  _computePlanRequirements result gameServantMap masterAccountData targetPlan
    options true.

(** ** Reading a result *)

(** What the merged item table holds under an item id present on both sides. *)
Definition mergeItem (x y : EnhancementItemRequirements)
    : option EnhancementItemRequirements :=
  Some (_addEnhancementItemRequirements x y).

(** [itemCount[propertyKey]] *)
Definition itemField (propertyKey : ItemReqKey)
    (itemCount : EnhancementItemRequirements) : Z :=
  match propertyKey with
  | KAscensions => ir_ascensions itemCount
  | KSkills => ir_skills itemCount
  | KAppendSkills => ir_appendSkills itemCount
  | KCostumes => ir_costumes itemCount
  | KTotal => ir_total itemCount
  end.

(** [result.items[itemId]?.[propertyKey] || 0]: the amount of a material
    recorded under a category (a missing entry counts as zero). *)
Definition itemAmount (propertyKey : ItemReqKey) (result : EnhancementRequirements)
    (itemId : Z) : Z :=
  itemField propertyKey
    (default _instantiateEnhancementItemRequirements (items result !! itemId)).

(** [enhancement.materials[itemId] || 0] *)
Definition quantityOf (enhancement : GameServantEnhancement) (itemId : Z) : Z :=
  default 0 (materials enhancement !! itemId).

Global Instance ItemReqKey_eq_dec : EqDecision ItemReqKey.
Proof. solve_decision. Defined.

(** How many times an amount booked under [propertyKey] shows up when the
    entry is read at [readKey]: once in its own category and once in the
    total. *)
Definition keyWeight (propertyKey readKey : ItemReqKey) : Z :=
  (if decide (propertyKey = readKey) then 1 else 0) +
  (if decide (readKey = KTotal) then 1 else 0).

(** The sum of [f key value] over the entries of a table. *)
Definition sumOver {A} (f : Z → A → Z) (table : gmap Z A) : Z :=
  map_fold (λ k v acc, acc + f k v) 0 table.

(** ** The rules in the specification's words *)

(** A slot needs the upgrade at level [L] when its current level is at most
    [L] and its target level is above [L]. *)
Definition slotNeeds (L : Z) (slot : Z * Z) : bool :=
  (slot.1 <=? L) && (L <? slot.2).

(** The number of the three slots that need the upgrade at level [L]; a slot
    without an entry is at level 0. *)
Definition slotsNeeding (currentSkills targetSkills : SkillEnhancements) (L : Z) : Z :=
  Z.of_nat (length (filter (λ slot, slotNeeds L slot = true)
    [ (orZero (skill1 currentSkills), orZero (skill1 targetSkills));
      (orZero (skill2 currentSkills), orZero (skill2 targetSkills));
      (orZero (skill3 currentSkills), orZero (skill3 targetSkills)) ])).

(** The lore step: the upgrade to the maximum skill level, left out when
    [excludeLores] is set. *)
Definition loreSkipped (excludeLores : option bool) (L : Z) : bool :=
  truthy excludeLores && (L =? MaxSkillLevel - 1).

(** A costume is charged when it is not unlocked yet and it is targeted: the
    target set is undefined (all costumes are targeted) or holds its id. *)
Definition costumeCharged (currentCostumes : gset Z) (targetCostumes : option (gset Z))
    (costumeId : Z) : Prop :=
  (costumeId ∉ currentCostumes) ∧
  (targetCostumes = None ∨ ∃ tc, targetCostumes = Some tc ∧ costumeId ∈ tc).

(** An ascension step is charged when its level is above the current level
    and at most the target level. *)
Definition ascensionCharged (currentEnhancements : ServantEnhancements)
    (targetAscension L : Z) : bool :=
  (orZero (ascension currentEnhancements) <? L) && (L <=? targetAscension).

Global Instance costumeCharged_dec currentCostumes targetCostumes costumeId :
  Decision (costumeCharged currentCostumes targetCostumes costumeId).
Proof.
  unfold costumeCharged.
  destruct (decide (costumeId ∈ currentCostumes)) as [Hin|Hnin].
  { right. intros [Hn _]. exact (Hn Hin). }
  destruct targetCostumes as [tc|].
  - destruct (decide (costumeId ∈ tc)) as [Ht|Hnt].
    + left. split; [exact Hnin|]. right. exists tc. split; [reflexivity|exact Ht].
    + right. intros [_ [Heq|[tc' [Heq Ht]]]]; [discriminate|].
      injection Heq as <-. exact (Hnt Ht).
  - left. split; [exact Hnin|]. left. reflexivity.
Defined.

(** The number of upgrades charged at level [L]: the slots that need it,
    unless the level is the lore step and lores are excluded. *)
Definition chargedSteps (excludeLores : option bool)
    (currentSkills targetSkills : SkillEnhancements) (L : Z) : Z :=
  if loreSkipped excludeLores L then 0 else slotsNeeding currentSkills targetSkills L.

(** The cost of an axis, or nothing when its flag is not set. *)
Definition axisOn (flag : option bool) (x : Z) : Z := if truthy flag then x else 0.

(** Material and qp needs of the skill (or append skill) axis. *)
Definition skillsAmount (excludeLores : option bool)
    (currentSkills targetSkills : SkillEnhancements)
    (table : gmap Z GameServantEnhancement) (itemId : Z) : Z :=
  sumOver (λ L e, chargedSteps excludeLores currentSkills targetSkills L * quantityOf e itemId)
          table.

Definition skillsQp (excludeLores : option bool)
    (currentSkills targetSkills : SkillEnhancements)
    (table : gmap Z GameServantEnhancement) : Z :=
  sumOver (λ L e, chargedSteps excludeLores currentSkills targetSkills L * cost_qp e) table.

(** Material and qp needs of the ascension axis. *)
Definition ascensionAmount (currentEnhancements targetEnhancements : ServantEnhancements)
    (table : option (gmap Z GameServantEnhancement)) (itemId : Z) : Z :=
  match ascension targetEnhancements, table with
  | Some targetAscension, Some t =>
      sumOver (λ L e, if ascensionCharged currentEnhancements targetAscension L
                      then quantityOf e itemId else 0) t
  | _, _ => 0
  end.

Definition ascensionQp (currentEnhancements targetEnhancements : ServantEnhancements)
    (table : option (gmap Z GameServantEnhancement)) : Z :=
  match ascension targetEnhancements, table with
  | Some targetAscension, Some t =>
      sumOver (λ L e, if ascensionCharged currentEnhancements targetAscension L
                      then cost_qp e else 0) t
  | _, _ => 0
  end.

(** Material and qp needs of the costume axis. *)
Definition costumesAmount (currentCostumes : gset Z) (targetCostumes : option (gset Z))
    (table : gmap Z GameServantCostume) (itemId : Z) : Z :=
  sumOver (λ costumeId c,
             if decide (costumeCharged currentCostumes targetCostumes costumeId)
             then quantityOf (costume_materials c) itemId else 0) table.

Definition costumesQp (currentCostumes : gset Z) (targetCostumes : option (gset Z))
    (table : gmap Z GameServantCostume) : Z :=
  sumOver (λ costumeId c,
             if decide (costumeCharged currentCostumes targetCostumes costumeId)
             then cost_qp (costume_materials c) else 0) table.

(** The enhancement state the next directive for an instance id starts from:
    the target recorded for the id so far, or the live state of the master
    servant when the walk has not met the id yet. *)
Definition baselineOf (result : PlanRequirements) (instanceId : Z)
    (masterServant : MasterServant) : ServantEnhancements :=
  match servants result !! instanceId with
  | Some planServantRequirements => target planServantRequirements
  | None => ms_enhancements masterServant
  end.

(** The cost the loop body computes for a directive that resolves to
    [masterServant] and [gameServant]. *)
Definition stepCost (masterAccountData : MasterAccountData) (targetCostumes : gset Z)
    (options : ComputationOptions) (result : PlanRequirements)
    (planServant : PlanServant) (masterServant : MasterServant)
    (gameServant : GameServant) : EnhancementRequirements :=
  _computeServantEnhancementRequirements gameServant
    (baselineOf result (ps_instanceId planServant) masterServant)
    (mad_costumes masterAccountData)
    (ps_enhancements planServant) (Some targetCostumes)
    (Some (_mergeComputationOptions options
             (_parseComputationOptions (ps_enabled planServant)))).

(** The game servant without the lore level in its two skill tables. *)
Definition withoutLoreLevel (gameServant : GameServant) : GameServant :=
  mkGameServant (delete (MaxSkillLevel - 1) (skillMaterials gameServant))
                (delete (MaxSkillLevel - 1) (appendSkillMaterials gameServant))
                (ascensionMaterials gameServant) (gs_costumes gameServant).

(** [options] with another [excludeLores]. *)
Definition setExcludeLores (x : option bool) (options : ComputationOptions)
    : ComputationOptions :=
  mkOptions (includeAscensions options) (includeSkills options)
            (includeAppendSkills options) (includeCostumes options) x.

(** A directive with another unit-level ascension flag, and a plan with the
    unit-level ascension flags of its directives replaced. *)
Definition setUnitAscensions (flag : PlanServant → bool) (ps : PlanServant) : PlanServant :=
  mkPlanServant (ps_instanceId ps) (ps_enabled_servant ps)
    (mkEnabled (flag ps) (en_skills (ps_enabled ps)) (en_appendSkills (ps_enabled ps))
               (en_costumes (ps_enabled ps)))
    (ps_enhancements ps).

Definition mapDirectives (f : PlanServant → PlanServant) (plan : Plan) : Plan :=
  mkPlan (plan_id plan) (plan_enabled plan) (f <$> plan_servants plan)
         (plan_costumes plan).

(** [plan] with its plan-level flags replaced. *)
Definition setPlanEnabled (flags : Plan → EnabledAxes) (plan : Plan) : Plan :=
  mkPlan (plan_id plan) (flags plan) (plan_servants plan) (plan_costumes plan).

(** ** Sample data *)

Module Sample.

Definition cost (q : Z) (mats : list (Z * Z)) : GameServantEnhancement :=
  mkCost (list_to_map mats) q.

Definition levels (a b c : Z) : SkillEnhancements :=
  mkSkills (Some a) (Some b) (Some c).

Definition allOn : EnabledAxes := mkEnabled true true true true.
Definition allOff : EnabledAxes := mkEnabled false false false false.

(** A servant of the catalog: two skill levels (8 and the lore level 9),
    four ascension levels and one costume.  The qp of each step is a
    different power of ten, so that a sum tells which steps it holds. *)
Definition gameServant : GameServant :=
  mkGameServant
    (list_to_map [(8, cost 100000 [(6503, 10)]); (9, cost 1000000 [(6999, 1)])])
    ∅
    (Some (list_to_map [(1, cost 1 [(7001, 4)]); (2, cost 10 [(7001, 8)]);
                        (3, cost 100 [(7101, 4)]); (4, cost 1000 [(7101, 8)])]))
    (list_to_map [(55, mkCostume (cost 10000 [(6505, 5)]))]).

Definition catalog : gmap Z GameServant := {[ 100 := gameServant ]}.

(** The live state: ascension 0, every skill at level 9. *)
Definition live : ServantEnhancements :=
  mkEnh (Some 0) (levels 9 9 9) (levels 1 1 1).

Definition masterServant : MasterServant := mkMasterServant 1 100 live.

Definition account : MasterAccount :=
  mkMasterAccount [masterServant] {[ 7001 := 3 ]} 500 [].

(** A directive for instance 1 with the given flags and target ascension
    and skill level. *)
Definition directive (flags : EnabledAxes) (asc skill : Z) : PlanServant :=
  mkPlanServant 1 true flags
    (mkEnh (Some asc) (levels skill skill skill) (levels 1 1 1)).

(** Plan A targets ascension 2, plan B ascension 4; neither targets a
    costume nor a skill upgrade. *)
Definition planA : Plan := mkPlan "A" allOn [directive allOn 2 9] [].
Definition planB : Plan := mkPlan "B" allOn [directive allOn 4 9] [].

(** Two plans that change nothing but target the costume 55. *)
Definition costumePlanA : Plan := mkPlan "A" allOn [directive allOn 0 9] [55].
Definition costumePlanB : Plan := mkPlan "B" allOn [directive allOn 0 9] [55].

(** A plan whose directive switches the ascension axis off. *)
Definition noAscensionFlags : EnabledAxes := mkEnabled false true true true.
Definition unitAscensionOff : Plan :=
  mkPlan "C" allOn [directive noAscensionFlags 2 9] [].

(** A plan whose directive switches the skill axis off. *)
Definition noSkillFlags : EnabledAxes := mkEnabled true false true true.
Definition unitSkillsOff : Plan :=
  mkPlan "D" allOn [directive noSkillFlags 0 10] [].

(** A plan that raises the three skills from 9 to 10: the lore step. *)
Definition lorePlan : Plan := mkPlan "L" allOn [directive allOn 0 10] [].

(** A plan with four directives: two for instance 1, one with its skill axis
    off, and one for an instance the roster does not have. *)
Definition mixedPlan : Plan :=
  mkPlan "M" allOn
    [ directive allOn 2 9; mkPlanServant 2 true allOn live;
      directive noSkillFlags 0 10; directive allOn 0 10 ] [55].

Definition loresExcluded : ComputationOptions :=
  mkOptions (Some true) (Some true) (Some true) (Some true) (Some true).

Definition loresIncluded : ComputationOptions :=
  mkOptions (Some true) (Some true) (Some true) (Some true) (Some false).

End Sample.

(** ** The edit hook of the master account data

    [useMasterAccountDataEditHook] keeps a copy of the account data for
    editing ([editData]), an unmodified copy for comparison
    ([referenceData]) and a record of what has been touched ([dirtyData]).
    The update functions assign to the fields of [editData] and queue an
    update of [dirtyData]; the queued updates are applied in the order of
    the calls, so a call is a transition of the pair of the two.  The
    functions that go through helpers of the data-core package
    ([addServants], [updateServants], [updateCostumes],
    [updateSoundtracks]) are not embedded. *)

Module MasterAccountDataEditHook.

(** [IdNumbers]: an array or a set of ids. *)
Inductive IdNumbers :=
  | IdArray (ids : list Z)
  | IdSet (ids : gset Z).

(** [SetStateAction<number>]: a value, or a function of the previous value. *)
Inductive SetStateAction :=
  | StateValue (value : Z)
  | StateUpdater (f : Z → Z).

Record MasterAccountEditDirtyData := mkDirtyData {
  dirty_bondLevels : bool;
  dirty_costumes : bool;
  dirty_items : gset Z;
  dirty_qp : bool;
  dirty_servants : gset Z;
  dirty_servantOrder : bool;
  dirty_soundtracks : bool
}.

(** [MasterAccountEditReferenceData]; [ref_servants] is the [Map] from
    instance id to servant, as the list of its entries in insertion order. *)
Record MasterAccountEditReferenceData := mkReferenceData {
  ref_bondLevels : gmap Z Z;
  ref_costumes : gset Z;
  ref_items : gmap Z Z;
  ref_lastServantInstanceId : Z;
  ref_qp : Z;
  ref_servants : list (Z * MasterServant);
  ref_soundtracks : gset Z
}.

Record MasterAccountEditData := mkEditData {
  edit_bondLevels : gmap Z Z;
  edit_costumes : gset Z;
  edit_items : gmap Z Z;
  edit_lastServantInstanceId : Z;
  edit_qp : Z;
  edit_servants : list MasterServant;
  edit_soundtracks : gset Z
}.

(** The state the update functions act on. *)
Record HookState := mkHookState {
  editData : MasterAccountEditData;
  dirtyData : MasterAccountEditDirtyData
}.

(** Iterating a set visits each of its elements once; the embedding lists
    them with [elements]. *)
Definition toArray (idNumbers : IdNumbers) : list Z :=
  match idNumbers with
  | IdArray ids => ids
  | IdSet ids => elements ids
  end.

Definition toSet (idNumbers : IdNumbers) : gset Z :=
  match idNumbers with
  | IdSet ids => ids
  | IdArray ids => list_to_set ids
  end.

Definition getUpdatedValue (action : SetStateAction) (previousValue : Z) : Z :=
  match action with
  | StateUpdater f => f previousValue
  | StateValue value => value
  end.

Definition getDefaultMasterAccountEditDirtyData : MasterAccountEditDirtyData :=
  mkDirtyData false false ∅ false ∅ false false.

(** [items.size] and [servants.size] are truthy when the set is not empty. *)
Definition hasDirtyData (dirtyData : MasterAccountEditDirtyData) : bool :=
  dirty_bondLevels dirtyData ||
  dirty_costumes dirtyData ||
  negb (bool_decide (dirty_items dirtyData = ∅)) ||
  dirty_qp dirtyData ||
  negb (bool_decide (dirty_servants dirtyData = ∅)) ||
  dirty_servantOrder dirtyData ||
  dirty_soundtracks dirtyData.

(** The loop of [isServantsOrderChanged] over [reference.keys()].  Reading
    [instanceId] of [servants[index]] throws when the index is out of
    range: [None]. *)
Fixpoint orderChangedFrom (referenceInstanceIds : list Z)
    (servants : list MasterServant) (index : nat) : option bool :=
  match referenceInstanceIds with
  | [] => Some false
  | referenceInstanceId :: rest =>
      match servants !! index with
      | None => None
      | Some servant =>
          if negb (referenceInstanceId =? ms_instanceId servant) then Some true
          else orderChangedFrom rest servants (S index)
      end
  end.

Definition isServantsOrderChanged (reference : list (Z * MasterServant))
    (servants : list MasterServant) : option bool :=
  if negb (length reference =? length servants)%nat then Some true
  else orderChangedFrom reference.*1 servants 0.

(** The loop of [deleteServants] that steps [lastServantInstanceId] down;
    it runs at most [lastServantInstanceId - reference] times, which is the
    fuel [deleteServants] gives it. *)
Fixpoint lastInstanceIdAfterDelete (fuel : nat) (instanceIdSet : gset Z)
    (referenceLast lastServantInstanceId : Z) : Z :=
  match fuel with
  | O => lastServantInstanceId
  | S fuel =>
      if lastServantInstanceId >? referenceLast then
        if negb (bool_decide (lastServantInstanceId ∈ instanceIdSet))
        then lastServantInstanceId
        else lastInstanceIdAfterDelete fuel instanceIdSet referenceLast
               (lastServantInstanceId - 1)
      else lastServantInstanceId
  end.

Section Hook.

(** The options of the hook, the id of the qp item
    ([GameItemConstants.QpItemId], declared in the data-core package) and
    the reference data, which the update functions only read. *)
Variables (includeItems includeServants : option bool).
Variable QpItemId : Z.
Variable referenceData : MasterAccountEditReferenceData.

Definition updateQp (action : SetStateAction) (state : HookState) : HookState :=
  if negb (truthy includeItems) then state
  else
    let edit := editData state in
    let amount := getUpdatedValue action (edit_qp edit) in
    if edit_qp edit =? amount then state
    else
      let edit :=
        mkEditData (edit_bondLevels edit) (edit_costumes edit) (edit_items edit)
                   (edit_lastServantInstanceId edit) amount (edit_servants edit)
                   (edit_soundtracks edit) in
      let isDirty := negb (amount =? ref_qp referenceData) in
      let dirty := dirtyData state in
      mkHookState edit
        (mkDirtyData (dirty_bondLevels dirty) (dirty_costumes dirty) (dirty_items dirty)
                     isDirty (dirty_servants dirty) (dirty_servantOrder dirty)
                     (dirty_soundtracks dirty)).

(** [editData] with another item table. *)
Definition withItems (items : gmap Z Z) (edit : MasterAccountEditData)
    : MasterAccountEditData :=
  mkEditData (edit_bondLevels edit) (edit_costumes edit) items
             (edit_lastServantInstanceId edit) (edit_qp edit) (edit_servants edit)
             (edit_soundtracks edit).

Definition updateItem (itemId : Z) (action : SetStateAction) (state : HookState)
    : HookState :=
  if negb (truthy includeItems) then state
  else if itemId =? QpItemId then updateQp action state
  else
    let edit := editData state in
    let '(edit, currentQuantity) :=
      match edit_items edit !! itemId with
      | None => (withItems (<[itemId := 0]> (edit_items edit)) edit, 0)
      | Some currentQuantity => (edit, currentQuantity)
      end in
    let quantity := getUpdatedValue action currentQuantity in
    if currentQuantity =? quantity then mkHookState edit (dirtyData state)
    else
      let edit := withItems (<[itemId := quantity]> (edit_items edit)) edit in
      let isDirty := negb (quantity =? orZero (ref_items referenceData !! itemId)) in
      let dirty := dirtyData state in
      let dirtyItems :=
        if isDirty then {[itemId]} ∪ dirty_items dirty
        else dirty_items dirty ∖ {[itemId]} in
      mkHookState edit
        (mkDirtyData (dirty_bondLevels dirty) (dirty_costumes dirty) dirtyItems
                     (dirty_qp dirty) (dirty_servants dirty) (dirty_servantOrder dirty)
                     (dirty_soundtracks dirty)).

(** [editData] with another servant array and another last instance id. *)
Definition withServants (servants : list MasterServant) (lastServantInstanceId : Z)
    (edit : MasterAccountEditData) : MasterAccountEditData :=
  mkEditData (edit_bondLevels edit) (edit_costumes edit) (edit_items edit)
             lastServantInstanceId (edit_qp edit) servants (edit_soundtracks edit).

(** One iteration of the loop of [updateServantOrder] over [instanceIds]:
    [findIndex] gives the first servant with the instance id, or -1. *)
Definition pushServantWithId (currentServants : list MasterServant)
    (servants : list MasterServant) (instanceId : Z) : list MasterServant :=
  match list_find (λ servant, ms_instanceId servant = instanceId) currentServants with
  | Some (index, servant) => servants ++ [servant]
  | None => servants
  end.

(** [None] when [isServantsOrderChanged] throws. *)
Definition updateServantOrder (instanceIds : list Z) (state : HookState)
    : option HookState :=
  if negb (truthy includeServants) then Some state
  else
    let edit := editData state in
    let currentServants := edit_servants edit in
    let servants := foldl (pushServantWithId currentServants) [] instanceIds in
    let edit := withServants servants (edit_lastServantInstanceId edit) edit in
    match isServantsOrderChanged (ref_servants referenceData) servants with
    | None => None
    | Some isOrderDirty =>
        let dirty := dirtyData state in
        Some (mkHookState edit
                (mkDirtyData (dirty_bondLevels dirty) (dirty_costumes dirty)
                             (dirty_items dirty) (dirty_qp dirty) (dirty_servants dirty)
                             isOrderDirty (dirty_soundtracks dirty)))
    end.

(** One iteration of the loop over [instanceIds] in the queued update of
    [deleteServants]. *)
Definition markDeleted (dirtyServants : gset Z) (instanceId : Z) : gset Z :=
  if negb (bool_decide (instanceId ∈ (ref_servants referenceData).*1))
  then dirtyServants ∖ {[instanceId]}
  else {[instanceId]} ∪ dirtyServants.

Definition deleteServants (instanceIds : IdNumbers) (state : HookState)
    : option HookState :=
  if negb (truthy includeServants) then Some state
  else
    let edit := editData state in
    let currentServants := edit_servants edit in
    let instanceIdSet := toSet instanceIds in
    let servants :=
      filter (λ servant, ms_instanceId servant ∉ instanceIdSet) currentServants in
    let lastServantInstanceId :=
      lastInstanceIdAfterDelete
        (Z.to_nat (edit_lastServantInstanceId edit -
                   ref_lastServantInstanceId referenceData))
        instanceIdSet (ref_lastServantInstanceId referenceData)
        (edit_lastServantInstanceId edit) in
    let edit := withServants servants lastServantInstanceId edit in
    let referenceServants := ref_servants referenceData in
    match isServantsOrderChanged referenceServants servants with
    | None => None
    | Some isOrderDirty =>
        let dirty := dirtyData state in
        let dirtyServants :=
          foldl markDeleted (dirty_servants dirty) (toArray instanceIds) in
        Some (mkHookState edit
                (mkDirtyData (dirty_bondLevels dirty) (dirty_costumes dirty)
                             (dirty_items dirty) (dirty_qp dirty) dirtyServants
                             isOrderDirty (dirty_soundtracks dirty)))
    end.

(** A call of [updateItem] or of [updateQp]. *)
Inductive ItemEdit :=
  | EditItem (itemId : Z) (action : SetStateAction)
  | EditQp (action : SetStateAction).

Definition applyItemEdit (state : HookState) (edit : ItemEdit) : HookState :=
  match edit with
  | EditItem itemId action => updateItem itemId action state
  | EditQp action => updateQp action state
  end.

(** The dirty record tracks the items and the qp: an item is marked exactly
    when its quantity differs from the reference, a missing entry counting
    as 0, and so is the qp. *)
Definition itemsTracked (state : HookState) : Prop :=
  (∀ itemId, itemId ∈ dirty_items (dirtyData state) ↔
             orZero (edit_items (editData state) !! itemId) ≠
             orZero (ref_items referenceData !! itemId)) ∧
  (dirty_qp (dirtyData state) = true ↔ edit_qp (editData state) ≠ ref_qp referenceData).

End Hook.

(** Sample data: an account with two servants, three pieces of the item
    7001 and 500 qp, as the hook holds it after loading. *)
Module Sample.

Definition second : MasterServant := mkMasterServant 2 100 Sample.live.

Definition reference : MasterAccountEditReferenceData :=
  mkReferenceData ∅ ∅ {[ 7001 := 3 ]} 2 500
    [(1, Sample.masterServant); (2, second)] ∅.

Definition loaded : HookState :=
  mkHookState (mkEditData ∅ ∅ {[ 7001 := 3 ]} 2 500 [Sample.masterServant; second] ∅)
              getDefaultMasterAccountEditDirtyData.

(** The state after a third servant has been added in the session. *)
Definition third : MasterServant := mkMasterServant 3 100 Sample.live.

Definition withThird : HookState :=
  mkHookState
    (mkEditData ∅ ∅ {[ 7001 := 3 ]} 3 500 [Sample.masterServant; second; third] ∅)
    (mkDirtyData false false ∅ false {[ 3 ]} true false).

End Sample.

End MasterAccountDataEditHook.

(** ** The catalog as it arrives at run time

    [GameServant] above is the catalog entry as its type declares it: the
    skill, append skill and costume tables are there, the ascension table
    may be absent.  The catalog is data read from a service, though, and an
    entry may arrive without a table.  Here every table may be absent.  The
    source tests [gameServant.ascensionMaterials] before it loops over it;
    it passes the three other tables to [Object.entries] as they are, and
    [Object.entries(undefined)] throws a [TypeError].  A call that throws
    has no result: [None].  The entries of a table that is there are taken
    to be well formed. *)

Module Runtime.

Record GameServant := mkGameServant {
  skillMaterials : option (gmap Z GameServantEnhancement);
  appendSkillMaterials : option (gmap Z GameServantEnhancement);
  ascensionMaterials : option (gmap Z GameServantEnhancement);
  costumes : option (gmap Z GameServantCostume)
}.

(** [Object.entries(skillMaterials)] throws when the table is absent. *)
Definition _updateResultForSkills (result : EnhancementRequirements)
    (skillMaterials : option (gmap Z GameServantEnhancement))
    (currentSkills targetSkills : SkillEnhancements)
    (skillType : SkillType) (excludeLores : option bool)
    : option EnhancementRequirements :=
  match skillMaterials with
  | None => None
  | Some table =>
      Some (map_fold (updateForSkillLevel currentSkills targetSkills skillType
                        excludeLores) result table)
  end.

Definition _computeServantEnhancementRequirements (gameServant : GameServant)
    (currentEnhancements : ServantEnhancements) (currentCostumes : gset Z)
    (targetEnhancements : ServantEnhancements) (targetCostumes : option (gset Z))
    (options : option ComputationOptions) : option EnhancementRequirements :=
  let options := default _defaultOptions options in
  let result := _instantiateEnhancementRequirements in
  result ←
    (if truthy (includeSkills options) then
       _updateResultForSkills result (skillMaterials gameServant)
         (skills currentEnhancements) (skills targetEnhancements)
         Skills (excludeLores options)
     else Some result);
  result ←
    (if truthy (includeAppendSkills options) then
       _updateResultForSkills result (appendSkillMaterials gameServant)
         (appendSkills currentEnhancements) (appendSkills targetEnhancements)
         AppendSkills (excludeLores options)
     else Some result);
  let result :=
    match truthy (includeAscensions options), ascension targetEnhancements with
    | true, Some targetAscension =>
        match ascensionMaterials gameServant with
        | Some ascensions =>
            map_fold (updateForAscension currentEnhancements targetAscension)
                     result ascensions
        | None => result
        end
    | _, _ => result
    end in
  if truthy (includeCostumes options) then
    (* [Object.entries(gameServant.costumes)] throws when the table is absent *)
    match costumes gameServant with
    | None => None
    | Some table =>
        Some (map_fold (updateForCostume currentCostumes targetCostumes) result table)
    end
  else Some result.

Definition computeServantEnhancementRequirements (gameServant : GameServant)
    (currentEnhancements : ServantEnhancements) (currentCostumes : list Z)
    (options : option ComputationOptions) : option EnhancementRequirements :=
  let currentCostumeSet := toReadonlySet currentCostumes in
  _computeServantEnhancementRequirements gameServant currentEnhancements
    currentCostumeSet _defaultTargetEnhancements None options.

Definition _computePlanServantRequirements (result : PlanRequirements)
    (gameServant : GameServant) (masterServant : MasterServant)
    (planServant : PlanServant) (currentCostumes targetCostumes : gset Z)
    (options : ComputationOptions)
    : option (PlanRequirements * (PlanServantRequirements * EnhancementRequirements)) :=
  let instanceId := ps_instanceId planServant in
  let resultServants := servants result in
  let planServantRequirements :=
    match resultServants !! instanceId with
    | None => _instantiatePlanServantRequirements planServant masterServant
    | Some psr =>
        let current' := updateEnhancements (current psr) (target psr) in
        let target' := updateEnhancements (target psr) planServant in
        mkPSR (psr_instanceId psr) current' target' (requirements psr)
    end in
  let resultServants := <[instanceId := planServantRequirements]> resultServants in
  enhancementRequirements ←
    _computeServantEnhancementRequirements gameServant
      (current planServantRequirements) currentCostumes
      (target planServantRequirements) (Some targetCostumes) (Some options);
  Some (mkPlanReq resultServants (targetPlan result) (previousPlans result)
                  (group result) (itemDebt result),
        (planServantRequirements, enhancementRequirements)).

(** The body of the loop over [plan.servants]; [None] when it throws. *)
Definition computePlanServantStep (gameServantMap : gmap Z GameServant)
    (masterAccountData : MasterAccountData) (planId : string)
    (targetCostumes : gset Z) (options : ComputationOptions) (isTargetPlan : bool)
    (result : PlanRequirements) (planServant : PlanServant)
    : option PlanRequirements :=
  if negb (ps_enabled_servant planServant) then Some result
  else
    match mad_servants masterAccountData !! ps_instanceId planServant with
    | None => Some result
    | Some masterServant =>
        match gameServantMap !! ms_gameId masterServant with
        | None => Some result
        | Some gameServant =>
            let servantOptions := _parseComputationOptions (ps_enabled planServant) in
            let mergedOptions := _mergeComputationOptions options servantOptions in
            '(result, (planServantRequirements, enhancementRequirements)) ←
              _computePlanServantRequirements result gameServant masterServant
                planServant (mad_costumes masterAccountData) targetCostumes
                mergedOptions;
            let result :=
              if isTargetPlan then
                let psr :=
                  mkPSR (psr_instanceId planServantRequirements)
                        (current planServantRequirements)
                        (target planServantRequirements)
                        (addEnhancementRequirements
                           (requirements planServantRequirements)
                           enhancementRequirements) in
                mkPlanReq (<[ps_instanceId planServant := psr]> (servants result))
                          (addEnhancementRequirements (targetPlan result)
                                                      enhancementRequirements)
                          (previousPlans result) (group result) (itemDebt result)
              else
                let '(previousPlans, planEnhancementRequirements) :=
                  getOrDefault (previousPlans result) planId
                               _instantiateEnhancementRequirements in
                mkPlanReq (servants result) (targetPlan result)
                          (<[planId := addEnhancementRequirements
                                         planEnhancementRequirements
                                         enhancementRequirements]> previousPlans)
                          (group result) (itemDebt result) in
            Some (mkPlanReq (servants result) (targetPlan result)
                            (previousPlans result)
                            (addEnhancementRequirements (group result)
                                                        enhancementRequirements)
                            (itemDebt result))
        end
    end.

(** A loop whose body may throw: the first throw ends it. *)
Definition forEach {A S} (body : S → A → option S) (start : option S) (l : list A)
    : option S :=
  foldl (λ state x, state ← state; body state x) start l.

Definition _computePlanRequirements (result : PlanRequirements)
    (gameServantMap : gmap Z GameServant) (masterAccountData : MasterAccountData)
    (plan : Plan) (options : ComputationOptions) (isTargetPlan : bool)
    : option PlanRequirements :=
  let targetCostumes := toReadonlySet (plan_costumes plan) in
  forEach (computePlanServantStep gameServantMap masterAccountData (plan_id plan)
             targetCostumes options isTargetPlan)
          (Some result) (plan_servants plan).

Definition computePlanRequirements (gameServantMap : gmap Z GameServant)
    (masterAccount : MasterAccount) (targetPlan : Plan)
    (previousPlans : option (list Plan)) (optionsOverride : option ComputationOptions)
    : option PlanRequirements :=
  let result := _instantiatePlanRequirements in
  let masterAccountData := _preProcessMasterAccount masterAccount in
  let options :=
    match optionsOverride with
    | Some o => o
    | None => _parseComputationOptions (plan_enabled targetPlan)
    end in
  result ←
    forEach (λ result plan,
               _computePlanRequirements result gameServantMap masterAccountData
                 plan options false)
            (Some result) (default [] previousPlans);
  _computePlanRequirements result gameServantMap masterAccountData targetPlan
    options true.

(** The entry has the three tables that the source does not test for. *)
Definition hasTables (gameServant : GameServant) : Prop :=
  is_Some (skillMaterials gameServant) ∧
  is_Some (appendSkillMaterials gameServant) ∧
  is_Some (costumes gameServant).

Global Instance hasTables_dec gameServant : Decision (hasTables gameServant).
Proof. unfold hasTables. apply _. Defined.

End Runtime.

(** A catalog entry of the declared type, as the object it is at run time:
    the three tables of the type are there. *)
Definition loaded (gameServant : GameServant) : Runtime.GameServant :=
  Runtime.mkGameServant (Some (skillMaterials gameServant))
                        (Some (appendSkillMaterials gameServant))
                        (ascensionMaterials gameServant)
                        (Some (gs_costumes gameServant)).

(** Sample data: the game servant of [Sample] with one table missing. *)
Module RuntimeSample.




Definition withoutCostumes : Runtime.GameServant :=
  Runtime.mkGameServant (Some (skillMaterials Sample.gameServant))
                        (Some (appendSkillMaterials Sample.gameServant))
                        (ascensionMaterials Sample.gameServant)
                        None.

End RuntimeSample.

(** ** Properties of requirement records and of results *)

(** [Object.values(obj)] *)
Definition values `{Countable K} {V} (obj : gmap K V) : list V :=
  (map_to_list obj).*2.

(** The total of every item entry is the sum of its four categories. *)
Definition totalsConsistent (r : EnhancementRequirements) : Prop :=
  ∀ itemId e, items r !! itemId = Some e →
    ir_total e = ir_ascensions e + ir_skills e + ir_appendSkills e + ir_costumes e.

(** No counter of the record is negative. *)
Definition requirementsNonNeg (r : EnhancementRequirements) : Prop :=
  0 ≤ qp r ∧ ∀ itemId e K, items r !! itemId = Some e → 0 ≤ itemField K e.

(** A property of every requirement record a result holds: the target
    plan's, the group's, one per preceding plan and one per servant. *)
Definition everyRecord (P : EnhancementRequirements → Prop)
    (result : PlanRequirements) : Prop :=
  P (targetPlan result) ∧ P (group result) ∧
  (∀ planId r, previousPlans result !! planId = Some r → P r) ∧
  (∀ instanceId psr, servants result !! instanceId = Some psr → P (requirements psr)).

(** Catalog data without negative quantities and costs. *)
Definition enhancementNonNeg (e : GameServantEnhancement) : Prop :=
  0 ≤ cost_qp e ∧ map_Forall (λ _ quantity, 0 ≤ quantity) (materials e).

Definition tableNonNeg (table : gmap Z GameServantEnhancement) : Prop :=
  map_Forall (λ _ e, enhancementNonNeg e) table.

Definition gameServantNonNeg (gameServant : GameServant) : Prop :=
  tableNonNeg (skillMaterials gameServant) ∧
  tableNonNeg (appendSkillMaterials gameServant) ∧
  tableNonNeg (default ∅ (ascensionMaterials gameServant)) ∧
  map_Forall (λ _ c, enhancementNonNeg (costume_materials c)) (gs_costumes gameServant).

Definition catalogNonNeg (gameServantMap : gmap Z GameServant) : Prop :=
  map_Forall (λ _ gameServant, gameServantNonNeg gameServant) gameServantMap.

Global Instance enhancementNonNeg_dec e : Decision (enhancementNonNeg e).
Proof. unfold enhancementNonNeg. apply _. Defined.

Global Instance tableNonNeg_dec table : Decision (tableNonNeg table).
Proof. unfold tableNonNeg. apply _. Defined.

Global Instance gameServantNonNeg_dec gameServant : Decision (gameServantNonNeg gameServant).
Proof. unfold gameServantNonNeg. apply _. Defined.

Global Instance catalogNonNeg_dec gameServantMap : Decision (catalogNonNeg gameServantMap).
Proof. unfold catalogNonNeg. apply _. Defined.

(** The directive passes the three tests at the head of the loop body: it
    is enabled, the roster index has its instance id, and the catalog has
    the game servant of that master servant. *)
Definition resolved (gameServantMap : gmap Z GameServant)
    (masterAccountData : MasterAccountData) (planServant : PlanServant) : bool :=
  ps_enabled_servant planServant &&
  match mad_servants masterAccountData !! ps_instanceId planServant with
  | Some masterServant =>
      bool_decide (is_Some (gameServantMap !! ms_gameId masterServant))
  | None => false
  end.

(** Level by level, [a] is at or below [b]; a missing level counts as 0. *)
Definition skillsLe (a b : SkillEnhancements) : Prop :=
  orZero (skill1 a) ≤ orZero (skill1 b) ∧
  orZero (skill2 a) ≤ orZero (skill2 b) ∧
  orZero (skill3 a) ≤ orZero (skill3 b).

Definition enhancementsLe (a b : ServantEnhancements) : Prop :=
  orZero (ascension a) ≤ orZero (ascension b) ∧
  skillsLe (skills a) (skills b) ∧
  skillsLe (appendSkills a) (appendSkills b).

Global Instance skillsLe_dec a b : Decision (skillsLe a b).
Proof. unfold skillsLe. apply _. Defined.

Global Instance enhancementsLe_dec a b : Decision (enhancementsLe a b).
Proof. unfold enhancementsLe. apply _. Defined.

(** The directives of a walk, in the order in which they are visited: those
    of the preceding plans, then those of the target plan. *)
Definition directivesOfWalk (plan : Plan) (precedingPlans : option (list Plan))
    : list PlanServant :=
  concat (plan_servants <$> (default [] precedingPlans ++ [plan])).

(** Among [directives], those that are booked for an instance id. *)
Definition bookedFor (gameServantMap : gmap Z GameServant)
    (masterAccountData : MasterAccountData) (instanceId : Z)
    (directives : list PlanServant) : list PlanServant :=
  filter (λ ps, resolved gameServantMap masterAccountData ps = true ∧
                ps_instanceId ps = instanceId) directives.

(** [options] with one axis kept and the three others switched off. *)
Definition onlyAscensions (options : ComputationOptions) : ComputationOptions :=
  mkOptions (includeAscensions options) (Some false) (Some false) (Some false)
            (excludeLores options).

Definition onlySkills (options : ComputationOptions) : ComputationOptions :=
  mkOptions (Some false) (includeSkills options) (Some false) (Some false)
            (excludeLores options).

Definition onlyAppendSkills (options : ComputationOptions) : ComputationOptions :=
  mkOptions (Some false) (Some false) (includeAppendSkills options) (Some false)
            (excludeLores options).

Definition onlyCostumes (options : ComputationOptions) : ComputationOptions :=
  mkOptions (Some false) (Some false) (Some false) (includeCostumes options)
            (excludeLores options).

(** ** The footer of the requirements table

    [PlanRequirementsTableFooter] renders three rows under the table, with
    one cell per displayed item: the quantity the group requires, the
    quantity in the inventory and the deficit.  A cell shows a number or
    nothing. *)

Module PlanRequirementsTableFooter.

(** The cell shows [itemRequirements?.total]. *)
Definition renderRequiredItemCell (planRequirements : PlanRequirements)
    (itemId : Z) : option Z :=
  let itemRequirements := items (group planRequirements) !! itemId in
  ir_total <$> itemRequirements.

(** The cell shows [quantity]. *)
Definition renderInventoryItemCell (masterItems : gmap Z Z) (itemId : Z) : option Z :=
  let quantity := orZero (masterItems !! itemId) in
  Some quantity.

(** The cell shows [deficit || '']: nothing when the deficit is 0. *)
Definition renderDeficitItemCell (masterItems : gmap Z Z)
    (planRequirements : PlanRequirements) (itemId : Z) : option Z :=
  let quantity := orZero (masterItems !! itemId) in
  let required := orZero (ir_total <$> items (group planRequirements) !! itemId) in
  let deficit := Z.max (required - quantity) 0 in
  if deficit =? 0 then None else Some deficit.

(** [options.displayedItems.map(render...)] *)
Definition requiredRow (planRequirements : PlanRequirements)
    (displayedItems : list Z) : list (option Z) :=
  renderRequiredItemCell planRequirements <$> displayedItems.

Definition inventoryRow (masterItems : gmap Z Z) (displayedItems : list Z)
    : list (option Z) :=
  renderInventoryItemCell masterItems <$> displayedItems.

Definition deficitRow (masterItems : gmap Z Z) (planRequirements : PlanRequirements)
    (displayedItems : list Z) : list (option Z) :=
  renderDeficitItemCell masterItems planRequirements <$> displayedItems.

End PlanRequirementsTableFooter.

(** ** Objects and references

    The embedding above passes values.  Whether a call changes an object of
    its caller is a question about objects, so this module runs the walk on a
    store of objects: a reference [loc] is the identity of an object, a
    [cell] is what the object holds.  The objects of the caller (the roster
    array and its servants, the inventory, the costume array, the catalog, the
    plan servants) and those the engine allocates live in the same store.
    Requirement records are stored the way the source nests them: the record
    refers to its embers object and its item table, the item table refers to
    one object per material.  The cost of one directive is computed on values
    by [_computeServantEnhancementRequirements], whose result is an object of
    its own, and stored by [allocRequirements].  An operation that meets a
    reference of the wrong kind leaves the store as it is. *)

Module Store.

Abbreviation loc := positive.

Inductive cell :=
| CInventory (quantities : gmap Z Z)
| CIdArray (ids : list Z)
| CIdSet (ids : gset Z)
| CServantArray (refs : list loc)
| CServantIndex (index : gmap Z loc)
| CMasterServant (s : MasterServant)
| CPlanServant (s : PlanServant)
| CCatalog (c : gmap Z GameServant)
| CEnhancements (e : ServantEnhancements)
| CEmbers (e : Embers)
| CItemReq (r : EnhancementItemRequirements)
| CItemTable (entries : gmap Z loc)
| CReq (embersRef itemsRef : loc) (q : Z).

Abbreviation heap := (gmap loc cell).

(** A new object: a reference no object of the store has. *)
Definition alloc (h : heap) (c : cell) : heap * loc :=
  let l := fresh (dom h) in (<[l := c]> h, l).

(** [ImmutableMasterAccount]: the roster array, the inventory object and the
    costume array are objects of the caller. *)
Record MasterAccountRef := mkAccountRef {
  mar_servants : loc;
  mar_items : loc;
  mar_qp : Z;
  mar_costumes : loc
}.

Record MasterAccountDataRef := mkDataRef {
  madr_items : loc;
  madr_servants : loc;
  madr_costumes : loc;
  madr_qp : Z
}.

Record PlanRef := mkPlanRef {
  pr_id : string;
  pr_enabled : EnabledAxes;
  pr_servants : list loc;
  pr_costumes : loc
}.

Record PlanServantRequirementsRef := mkPSRRef {
  psrr_instanceId : Z;
  psrr_current : loc;
  psrr_target : loc;
  psrr_requirements : loc
}.

Record PlanRequirementsRef := mkPlanReqRef {
  prr_servants : gmap Z PlanServantRequirementsRef;
  prr_targetPlan : loc;
  prr_previousPlans : gmap string loc;
  prr_group : loc
}.

(** *** Requirement records *)

(** [_instantiateEnhancementRequirements] *)
Definition instantiateRequirements (h : heap) : heap * loc :=
  let '(h, e) := alloc h (CEmbers (mkEmbers 0 0 0 0 0)) in
  let '(h, i) := alloc h (CItemTable ∅) in
  alloc h (CReq e i 0).

(** One iteration of the loop over [Object.entries(source.items)]:
    [targetItems[itemId] = { ...value }] stores a new object, and
    [_addEnhancementItemRequirements] updates the object of the target. *)
Definition addItemEntryAt (targetItems : loc) (itemId : Z) (value : loc) (h : heap) : heap :=
  match h !! targetItems, h !! value with
  | Some (CItemTable entries), Some (CItemReq v) =>
      match entries !! itemId with
      | None =>
          let '(h, copy) := alloc h (CItemReq v) in
          <[targetItems := CItemTable (<[itemId := copy]> entries)]> h
      | Some entry =>
          match h !! entry with
          | Some (CItemReq t) =>
              <[entry := CItemReq (_addEnhancementItemRequirements t v)]> h
          | _ => h
          end
      end
  | _, _ => h
  end.

(** [addEnhancementRequirements] on the objects [target] and [source]. *)
Definition addEnhancementRequirementsAt (h : heap) (tgt source : loc) : heap :=
  match h !! tgt, h !! source with
  | Some (CReq targetEmbers targetItems _), Some (CReq sourceEmbers sourceItems _) =>
      match h !! targetEmbers, h !! sourceEmbers, h !! sourceItems with
      | Some (CEmbers te), Some (CEmbers se), Some (CItemTable sourceEntries) =>
          let h := <[targetEmbers := CEmbers (addEmbers te se)]> h in
          let h := map_fold (addItemEntryAt targetItems) h sourceEntries in
          match h !! tgt, h !! source with
          | Some (CReq e i tq), Some (CReq _ _ sq) => <[tgt := CReq e i (tq + sq)]> h
          | _, _ => h
          end
      | _, _, _ => h
      end
  | _, _ => h
  end.

(** The objects [addEnhancementRequirements] may write: the target record,
    its embers object, its item table and the entries of that table. *)
Definition footprint (h : heap) (tgt : loc) : gset loc :=
  {[tgt]} ∪
  match h !! tgt with
  | Some (CReq e i _) =>
      {[e; i]} ∪
      match h !! i with
      | Some (CItemTable entries) => map_img entries
      | _ => ∅
      end
  | _ => ∅
  end.

(** Stores a requirement record given by value as new objects. *)
Definition allocItem (itemId : Z) (v : EnhancementItemRequirements)
    (acc : heap * gmap Z loc) : heap * gmap Z loc :=
  let '(h, l) := alloc acc.1 (CItemReq v) in (h, <[itemId := l]> acc.2).

Definition allocRequirements (h : heap) (v : EnhancementRequirements) : heap * loc :=
  let '(h, e) := alloc h (CEmbers (embers v)) in
  let '(h, entries) := map_fold allocItem (h, ∅) (items v) in
  let '(h, i) := alloc h (CItemTable entries) in
  alloc h (CReq e i (qp v)).

(** The value of the requirement record at a reference. *)
Definition readItemReq (h : heap) (l : loc) : option EnhancementItemRequirements :=
  match h !! l with
  | Some (CItemReq v) => Some v
  | _ => None
  end.

Definition readRequirements (h : heap) (l : loc) : option EnhancementRequirements :=
  match h !! l with
  | Some (CReq e i q) =>
      match h !! e, h !! i with
      | Some (CEmbers ev), Some (CItemTable entries) =>
          Some (mkReq ev (omap (readItemReq h) entries) q)
      | _, _ => None
      end
  | _ => None
  end.

(** *** Enhancement records *)

(** The enhancement fields of an object that has them. *)
Definition readEnhancements (h : heap) (l : loc) : option ServantEnhancements :=
  match h !! l with
  | Some (CEnhancements e) => Some e
  | Some (CMasterServant s) => Some (enhancementsOf s)
  | Some (CPlanServant s) => Some (enhancementsOf s)
  | _ => None
  end.

(** [InstantiatedServantUtils.updateEnhancements(target, source)] *)
Definition updateEnhancementsAt (h : heap) (tgt source : loc) : heap :=
  match h !! tgt, readEnhancements h source with
  | Some (CEnhancements t), Some s => <[tgt := CEnhancements (updateEnhancements t s)]> h
  | _, _ => h
  end.

(** [InstantiatedServantUtils.cloneEnhancements(source)] *)
Definition cloneEnhancementsAt (h : heap) (source : loc) : heap * loc :=
  let '(h, l) := alloc h (CEnhancements instantiateEnhancements) in
  (updateEnhancementsAt h l source, l).

(** *** The account *)

(** [CollectionUtils.mapIterableToObject] on the roster array: the index
    refers to the servant objects of the array. *)
Definition indexServants (h : heap) (refs : list loc) : gmap Z loc :=
  foldl (λ index ref,
           match h !! ref with
           | Some (CMasterServant s) => <[ms_instanceId s := ref]> index
           | _ => index
           end) ∅ refs.

(** [_preProcessMasterAccount] *)
Definition preProcessMasterAccountAt (h : heap) (masterAccount : MasterAccountRef)
    : heap * MasterAccountDataRef :=
  let refs := match h !! mar_servants masterAccount with
              | Some (CServantArray refs) => refs
              | _ => []
              end in
  let '(h, servants) := alloc h (CServantIndex (indexServants h refs)) in
  let items := mar_items masterAccount in
  let ids := match h !! mar_costumes masterAccount with
             | Some (CIdArray ids) => ids
             | _ => []
             end in
  let '(h, costumes) := alloc h (CIdSet (list_to_set ids)) in
  let qp := mar_qp masterAccount in
  (h, mkDataRef items servants costumes qp).

(** *** The walk *)

(** [_instantiatePlanServantRequirements] *)
Definition instantiatePlanServantRequirementsAt (h : heap) (instanceId : Z)
    (planServant masterServant : loc) : heap * PlanServantRequirementsRef :=
  let '(h, current) := alloc h (CEnhancements instantiateEnhancements) in
  let h := updateEnhancementsAt h current masterServant in
  let '(h, target) := cloneEnhancementsAt h planServant in
  let '(h, requirements) := instantiateRequirements h in
  (h, mkPSRRef instanceId current target requirements).

(** [_computePlanServantRequirements]; [instanceId] is the instance id read
    from the plan servant. *)
Definition computePlanServantRequirementsAt (h : heap) (result : PlanRequirementsRef)
    (gameServant : GameServant) (masterServant planServant : loc) (instanceId : Z)
    (currentCostumes targetCostumes : gset Z) (options : ComputationOptions)
    : heap * PlanRequirementsRef * (PlanServantRequirementsRef * loc) :=
  let resultServants := prr_servants result in
  let '(h, planServantRequirements) :=
    match resultServants !! instanceId with
    | None => instantiatePlanServantRequirementsAt h instanceId planServant masterServant
    | Some psr =>
        let h := updateEnhancementsAt h (psrr_current psr) (psrr_target psr) in
        let h := updateEnhancementsAt h (psrr_target psr) planServant in
        (h, psr)
    end in
  let resultServants := <[instanceId := planServantRequirements]> resultServants in
  let current := default instantiateEnhancements
                   (readEnhancements h (psrr_current planServantRequirements)) in
  let target := default instantiateEnhancements
                  (readEnhancements h (psrr_target planServantRequirements)) in
  let '(h, enhancementRequirements) :=
    allocRequirements h
      (_computeServantEnhancementRequirements gameServant current currentCostumes
         target (Some targetCostumes) (Some options)) in
  (h,
   mkPlanReqRef resultServants (prr_targetPlan result) (prr_previousPlans result)
                (prr_group result),
   (planServantRequirements, enhancementRequirements)).

(** The body of the loop over [plan.servants], for one resolved directive. *)
Definition bookDirectiveAt (h : heap) (result : PlanRequirementsRef)
    (gameServant : GameServant) (masterServant planServant : loc) (ps : PlanServant)
    (currentCostumes targetCostumes : gset Z) (planId : string)
    (options : ComputationOptions) (isTargetPlan : bool)
    : heap * PlanRequirementsRef :=
  let servantOptions := _parseComputationOptions (ps_enabled ps) in
  let mergedOptions := _mergeComputationOptions options servantOptions in
  let '(h, result, (planServantRequirements, enhancementRequirements)) :=
    computePlanServantRequirementsAt h result gameServant masterServant planServant
      (ps_instanceId ps) currentCostumes targetCostumes mergedOptions in
  let '(h, result, planEnhancementRequirements) :=
    if isTargetPlan then
      let h := addEnhancementRequirementsAt h
                 (psrr_requirements planServantRequirements)
                 enhancementRequirements in
      (h, result, prr_targetPlan result)
    else
      match prr_previousPlans result !! planId with
      | Some bucket => (h, result, bucket)
      | None =>
          let '(h, bucket) := instantiateRequirements h in
          (h,
           mkPlanReqRef (prr_servants result) (prr_targetPlan result)
                        (<[planId := bucket]> (prr_previousPlans result))
                        (prr_group result),
           bucket)
      end in
  let h := addEnhancementRequirementsAt h planEnhancementRequirements
             enhancementRequirements in
  let h := addEnhancementRequirementsAt h (prr_group result) enhancementRequirements in
  (h, result).

Definition computePlanServantStepAt (catalog : loc) (masterAccountData : MasterAccountDataRef)
    (planId : string) (targetCostumes : gset Z) (options : ComputationOptions)
    (isTargetPlan : bool) (state : heap * PlanRequirementsRef) (planServant : loc)
    : heap * PlanRequirementsRef :=
  let '(h, result) := state in
  match h !! planServant, h !! madr_servants masterAccountData,
        h !! madr_costumes masterAccountData, h !! catalog with
  | Some (CPlanServant ps), Some (CServantIndex index), Some (CIdSet currentCostumes),
    Some (CCatalog gameServantMap) =>
      if negb (ps_enabled_servant ps) then state
      else
        match index !! ps_instanceId ps with
        | None => state
        | Some masterServant =>
            match h !! masterServant with
            | Some (CMasterServant ms) =>
                match gameServantMap !! ms_gameId ms with
                | None => state
                | Some gameServant =>
                    bookDirectiveAt h result gameServant masterServant planServant ps
                      currentCostumes targetCostumes planId options isTargetPlan
                end
            | _ => state
            end
        end
  | _, _, _, _ => state
  end.

(** [_computePlanRequirements] *)
Definition computePlanRequirementsOf (state : heap * PlanRequirementsRef)
    (catalog : loc) (masterAccountData : MasterAccountDataRef) (plan : PlanRef)
    (options : ComputationOptions) (isTargetPlan : bool) : heap * PlanRequirementsRef :=
  let targetCostumes :=
    match state.1 !! pr_costumes plan with
    | Some (CIdArray ids) => toReadonlySet ids
    | _ => ∅
    end in
  foldl (computePlanServantStepAt catalog masterAccountData (pr_id plan)
           targetCostumes options isTargetPlan)
        state (pr_servants plan).

(** [_instantiatePlanRequirements] *)
Definition instantiatePlanRequirementsAt (h : heap) : heap * PlanRequirementsRef :=
  let '(h, targetPlan) := instantiateRequirements h in
  let '(h, group) := instantiateRequirements h in
  (h, mkPlanReqRef ∅ targetPlan ∅ group).

(** [computePlanRequirements] *)
Definition computePlanRequirementsAt (h : heap) (catalog : loc)
    (masterAccount : MasterAccountRef) (targetPlan : PlanRef)
    (previousPlans : option (list PlanRef)) (optionsOverride : option ComputationOptions)
    : heap * PlanRequirementsRef :=
  let '(h, result) := instantiatePlanRequirementsAt h in
  let '(h, masterAccountData) := preProcessMasterAccountAt h masterAccount in
  let options :=
    match optionsOverride with
    | Some o => o
    | None => _parseComputationOptions (pr_enabled targetPlan)
    end in
  let state :=
    foldl (λ state plan,
             computePlanRequirementsOf state catalog masterAccountData plan options false)
          (h, result) (default [] previousPlans) in
  computePlanRequirementsOf state catalog masterAccountData targetPlan options true.

(** [computeServantEnhancementRequirements]: the game servant, the current
    enhancements and the current costumes are objects of the caller. *)
Definition computeServantEnhancementRequirementsAt (h : heap)
    (gameServant : GameServant) (currentEnhancements currentCostumes : loc)
    (options : option ComputationOptions) : heap * loc :=
  let ids := match h !! currentCostumes with
             | Some (CIdArray ids) => ids
             | _ => []
             end in
  let current := default instantiateEnhancements
                   (readEnhancements h currentEnhancements) in
  allocRequirements h
    (computeServantEnhancementRequirements gameServant current ids options).

(** The value of the result of the walk. *)
Definition readPlanServantRequirements (h : heap) (psr : PlanServantRequirementsRef)
    : option PlanServantRequirements :=
  c ← readEnhancements h (psrr_current psr);
  t ← readEnhancements h (psrr_target psr);
  r ← readRequirements h (psrr_requirements psr);
  Some (mkPSR (psrr_instanceId psr) c t r).

Definition readPlanRequirements (h : heap) (result : PlanRequirementsRef)
    : option PlanRequirements :=
  tp ← readRequirements h (prr_targetPlan result);
  g ← readRequirements h (prr_group result);
  Some (mkPlanReq (omap (readPlanServantRequirements h) (prr_servants result)) tp
                  (omap (readRequirements h) (prr_previousPlans result)) g ∅).

(** *** What the store keeps *)

(** Every object of [h0] is in [h] with the same content. *)
Definition preserved (h0 h : heap) : Prop :=
  ∀ l c, h0 !! l = Some c → h !! l = Some c.

(** The references a requirement object is written through. *)
Definition refersTo (c : cell) (r : loc) : Prop :=
  match c with
  | CReq e i _ => r = e ∨ r = i
  | CItemTable entries => ∃ itemId, entries !! itemId = Some r
  | _ => False
  end.

(** The objects allocated since [h0] refer to objects allocated since [h0]. *)
Definition closed (h0 h : heap) : Prop :=
  ∀ l c r, h !! l = Some c → h0 !! l = None → refersTo c r → h0 !! r = None.

(** The object at [l] is not one of the objects of [h]: it is a copy that
    shares nothing with them. *)
Definition independentOf (h : heap) (l : loc) : Prop := h !! l = None.

(** The invariant of the walk started in [h0]. *)
Definition keeps (h0 h : heap) : Prop := preserved h0 h ∧ closed h0 h.

(** The objects of the result were allocated since [h0]. *)
Definition resultNew (h0 : heap) (result : PlanRequirementsRef) : Prop :=
  h0 !! prr_targetPlan result = None ∧
  h0 !! prr_group result = None ∧
  (∀ planId l, prr_previousPlans result !! planId = Some l → h0 !! l = None) ∧
  (∀ instanceId psr, prr_servants result !! instanceId = Some psr →
     h0 !! psrr_current psr = None ∧ h0 !! psrr_target psr = None ∧
     h0 !! psrr_requirements psr = None).

(** The value stored for an item id by a table of entry objects. *)
Definition itemValue (h : heap) (entries : gmap Z loc) (itemId : Z)
    : option EnhancementItemRequirements :=
  entries !! itemId ≫= readItemReq h.

(** The entries of an item table are item objects, one per item id. *)
Definition entriesOk (h : heap) (entries : gmap Z loc) : Prop :=
  (∀ k r, entries !! k = Some r → ∃ v, h !! r = Some (CItemReq v)) ∧
  (∀ k1 k2 r, entries !! k1 = Some r → entries !! k2 = Some r → k1 = k2).

(** A requirement record whose objects have the kinds the source gives
    them. *)
Definition wellFormed (h : heap) (l : loc) : Prop :=
  ∃ e i q ev entries,
    h !! l = Some (CReq e i q) ∧ h !! e = Some (CEmbers ev) ∧
    h !! i = Some (CItemTable entries) ∧ entriesOk h entries.

(** *** Sample objects *)

Module Sample.

(** The caller's objects: the catalog (1), the inventory (2), the costume
    array of the account (3), the master servant (4), the roster array (5),
    the directives of the sample plans (6, 7 and 10 to 13) and the costume
    arrays of the plans (8: no costume, 9: the costume 55). *)
Definition objects : heap :=
  list_to_map
    [ (1%positive, CCatalog Sample.catalog);
      (2%positive, CInventory {[ 7001 := 3 ]});
      (3%positive, CIdArray []);
      (4%positive, CMasterServant Sample.masterServant);
      (5%positive, CServantArray [4%positive]);
      (6%positive, CPlanServant (Sample.directive Sample.allOn 2 9));
      (7%positive, CPlanServant (Sample.directive Sample.allOn 4 9));
      (8%positive, CIdArray []);
      (9%positive, CIdArray [55]);
      (10%positive, CPlanServant (Sample.directive Sample.allOn 0 9));
      (11%positive, CPlanServant (Sample.directive Sample.allOn 0 10));
      (12%positive, CPlanServant (Sample.directive Sample.noSkillFlags 0 10));
      (13%positive, CPlanServant (mkPlanServant 2 true Sample.allOn Sample.live)) ].

Definition account : MasterAccountRef := mkAccountRef 5 2 500 3.

(** Two requirement records that share no object, a target (20) and a
    source (30) of [addEnhancementRequirements], next to the caller's
    inventory (2). *)
Definition targetValue : EnhancementRequirements :=
  mkReq (mkEmbers 0 0 0 0 0) {[ 7001 := mkItemReq 12 0 0 0 12 ]} 11.

Definition sourceValue : EnhancementRequirements :=
  mkReq (mkEmbers 0 0 0 0 0) {[ 6505 := mkItemReq 0 0 0 5 5 ]} 10000.

Definition records : heap :=
  list_to_map
    [ (2%positive, CInventory {[ 7001 := 3 ]});
      (20%positive, CReq 21 22 11);
      (21%positive, CEmbers (mkEmbers 0 0 0 0 0));
      (22%positive, CItemTable {[ 7001 := 23%positive ]});
      (23%positive, CItemReq (mkItemReq 12 0 0 0 12));
      (30%positive, CReq 31 32 10000);
      (31%positive, CEmbers (mkEmbers 0 0 0 0 0));
      (32%positive, CItemTable {[ 6505 := 33%positive ]});
      (33%positive, CItemReq (mkItemReq 0 0 0 5 5)) ].

Definition planA : PlanRef := mkPlanRef "A" Sample.allOn [6%positive] 8.
Definition planB : PlanRef := mkPlanRef "B" Sample.allOn [7%positive] 8.
Definition costumePlanA : PlanRef := mkPlanRef "A" Sample.allOn [10%positive] 9.
Definition costumePlanB : PlanRef := mkPlanRef "B" Sample.allOn [10%positive] 9.
Definition lorePlan : PlanRef := mkPlanRef "L" Sample.allOn [11%positive] 8.

(** A plan with four directives: two for instance 1, one with its skill axis
    off, and one for an instance the roster does not have. *)
Definition mixedPlan : PlanRef :=
  mkPlanRef "M" Sample.allOn [6%positive; 13%positive; 12%positive; 11%positive] 9.

End Sample.

End Store.

(** * Properties *)

(** ** Requirement aggregation *)

Section Aggregation.

Implicit Types (A B C X : EnhancementRequirements).
Implicit Types (a b c : EnhancementItemRequirements).

Lemma addItem_comm a b :
  _addEnhancementItemRequirements a b = _addEnhancementItemRequirements b a.
Proof. unfold _addEnhancementItemRequirements. f_equal; lia. Qed.

Lemma addItem_assoc a b c :
  _addEnhancementItemRequirements (_addEnhancementItemRequirements a b) c =
  _addEnhancementItemRequirements a (_addEnhancementItemRequirements b c).
Proof. unfold _addEnhancementItemRequirements. simpl. f_equal; lia. Qed.

Lemma addEmbers_comm (e f : Embers) : addEmbers e f = addEmbers f e.
Proof. unfold addEmbers. f_equal; lia. Qed.

Lemma addEmbers_assoc (e f g : Embers) :
  addEmbers (addEmbers e f) g = addEmbers e (addEmbers f g).
Proof. unfold addEmbers. simpl. f_equal; lia. Qed.

Lemma addEmbers_zero_r (e : Embers) : addEmbers e (mkEmbers 0 0 0 0 0) = e.
Proof. destruct e. unfold addEmbers. simpl. f_equal; lia. Qed.

(** The loop over the source's items computes the pointwise merge of the
    two item tables, whatever the order of the iteration. *)
Lemma addItems_lookup (t s : gmap Z EnhancementItemRequirements) (k : Z) :
  map_fold addItemEntry t s !! k = union_with mergeItem (t !! k) (s !! k).
Proof.
  revert k.
  apply (map_fold_weak_ind
           (λ r m, ∀ k, r !! k = union_with mergeItem (t !! k) (m !! k))).
  - intros k. rewrite lookup_empty. by destruct (t !! k).
  - intros i x m r Hi IH k. unfold addItemEntry.
    destruct (decide (k = i)) as [->|Hne].
    + specialize (IH i). rewrite Hi in IH. rewrite lookup_insert_eq.
      destruct (r !! i) as [ri|] eqn:Hr; rewrite lookup_insert_eq;
        destruct (t !! i); simplify_eq/=; done.
    + rewrite (lookup_insert_ne m) by done. rewrite <- IH.
      destruct (r !! i); by rewrite lookup_insert_ne.
Qed.

Lemma addItems_union_with (t s : gmap Z EnhancementItemRequirements) :
  map_fold addItemEntry t s = union_with mergeItem t s.
Proof. apply map_eq; intros k. by rewrite addItems_lookup, lookup_union_with. Qed.

Lemma items_add A B :
  items (addEnhancementRequirements A B) = union_with mergeItem (items A) (items B).
Proof. apply addItems_union_with. Qed.

Lemma items_add_lookup A B k :
  items (addEnhancementRequirements A B) !! k =
  union_with mergeItem (items A !! k) (items B !! k).
Proof. by rewrite items_add, lookup_union_with. Qed.

Lemma add_comm A B :
  addEnhancementRequirements A B = addEnhancementRequirements B A.
Proof.
  unfold addEnhancementRequirements. rewrite !addItems_union_with. f_equal.
  - apply addEmbers_comm.
  - apply map_eq; intros k. rewrite !lookup_union_with.
    destruct (items A !! k), (items B !! k); simpl; try done.
    unfold mergeItem. by rewrite addItem_comm.
  - lia.
Qed.

Lemma add_assoc A B C :
  addEnhancementRequirements (addEnhancementRequirements A B) C =
  addEnhancementRequirements A (addEnhancementRequirements B C).
Proof.
  unfold addEnhancementRequirements. simpl. rewrite !addItems_union_with. f_equal.
  - apply addEmbers_assoc.
  - apply map_eq; intros k. rewrite !lookup_union_with.
    destruct (items A !! k), (items B !! k), (items C !! k); simpl; try done.
    unfold mergeItem. by rewrite addItem_assoc.
  - lia.
Qed.

Lemma add_zero_r X :
  addEnhancementRequirements X _instantiateEnhancementRequirements = X.
Proof.
  destruct X as [e i q]. unfold addEnhancementRequirements. simpl.
  rewrite map_fold_empty, addEmbers_zero_r. f_equal. lia.
Qed.

Lemma add_zero_l X :
  addEnhancementRequirements _instantiateEnhancementRequirements X = X.
Proof. rewrite add_comm. apply add_zero_r. Qed.

Lemma sum_app (l1 l2 : list EnhancementRequirements) :
  sumEnhancementRequirements (l1 ++ l2) =
  addEnhancementRequirements (sumEnhancementRequirements l1)
                             (sumEnhancementRequirements l2).
Proof.
  unfold sumEnhancementRequirements. rewrite foldl_app.
  generalize (foldl addEnhancementRequirements _instantiateEnhancementRequirements l1).
  induction l2 as [|x l2 IH] using rev_ind; intros acc.
  - simpl. by rewrite add_zero_r.
  - rewrite !foldl_app. simpl. rewrite IH. apply add_assoc.
Qed.

(** C3: [addEnhancementRequirements] and the all-zero record form a
    commutative monoid on requirement records: [add A B] equals [add B A],
    [add] is associative, the sum of [[A; B; C]] is [add (add A B) C], the
    sum of the empty list is the record with every counter 0, no material
    entry and qp 0, and adding that record to [X] leaves [X]. *)
Theorem requirements_commutative_monoid :
  (∀ A B, addEnhancementRequirements A B = addEnhancementRequirements B A) ∧
  (∀ A B C,
      addEnhancementRequirements (addEnhancementRequirements A B) C =
      addEnhancementRequirements A (addEnhancementRequirements B C)) ∧
  (∀ A B C,
      sumEnhancementRequirements [A; B; C] =
      addEnhancementRequirements (addEnhancementRequirements A B) C) ∧
  sumEnhancementRequirements [] = mkReq (mkEmbers 0 0 0 0 0) ∅ 0 ∧
  (∀ X, addEnhancementRequirements X (sumEnhancementRequirements []) = X).
Proof.
  split_and!.
  - apply add_comm.
  - apply add_assoc.
  - intros A B C. unfold sumEnhancementRequirements. simpl. by rewrite add_zero_l.
  - reflexivity.
  - intros X. apply add_zero_r.
Qed.

End Aggregation.

(** ** Folds over tables *)

Section Folds.

Context {A S : Type}.

(** A loop whose every iteration adds [w key value] to a measure of the
    state adds the sum of [w] over the table. *)
Lemma map_fold_measure (mu : S → Z) (step : Z → A → S → S) (w : Z → A → Z) :
  (∀ k v s, mu (step k v s) = mu s + w k v) →
  ∀ (m : gmap Z A) s, mu (map_fold step s m) = mu s + sumOver w m.
Proof.
  intros Hstep m s. unfold sumOver.
  induction m as [|i x m Hi Hfirst IH] using map_first_key_ind.
  - rewrite !map_fold_empty. lia.
  - rewrite !map_fold_insert_first_key by done. rewrite Hstep, IH. lia.
Qed.

(** A loop whose iterations all keep a projection of the state keeps it. *)
Lemma map_fold_preserved {T} (proj : S → T) (step : Z → A → S → S) :
  (∀ k v s, proj (step k v s) = proj s) →
  ∀ (m : gmap Z A) s, proj (map_fold step s m) = proj s.
Proof.
  intros Hstep m s.
  apply (map_fold_weak_ind (λ r _, proj r = proj s)); [done|].
  intros i x m' r _ IH. by rewrite Hstep.
Qed.

Lemma sumOver_empty (w : Z → A → Z) : sumOver w ∅ = 0.
Proof. unfold sumOver. by rewrite map_fold_empty. Qed.

Lemma sumOver_scale (c : Z) (w : Z → A → Z) (m : gmap Z A) :
  sumOver (λ k v, c * w k v) m = c * sumOver w m.
Proof.
  unfold sumOver. induction m as [|i x m Hi Hfirst IH] using map_first_key_ind.
  - rewrite !map_fold_empty. lia.
  - rewrite !map_fold_insert_first_key by done. rewrite IH. lia.
Qed.

Lemma sumOver_insert (w : Z → A → Z) (m : gmap Z A) i x :
  m !! i = None → sumOver w (<[i:=x]> m) = sumOver w m + w i x.
Proof.
  intros Hi. unfold sumOver. rewrite map_fold_insert_L; [done| |done].
  intros. lia.
Qed.

End Folds.

(** ** Booking one enhancement *)

Section Booking.

Implicit Types (result : EnhancementRequirements).
Implicit Types (e : GameServantEnhancement).

Lemma itemField_addToKey key K total ic :
  itemField K (addToKey key total ic) =
  itemField K ic + (if decide (key = K) then total else 0).
Proof. destruct key, K; simpl; lia. Qed.

Lemma updateItems_lookup key cnt (its : gmap Z EnhancementItemRequirements)
    (mats : gmap Z Z) (i : Z) :
  map_fold (updateItemCount key cnt) its mats !! i =
  match mats !! i with
  | None => its !! i
  | Some q =>
      Some (addToKey KTotal (q * cnt) (addToKey key (q * cnt)
              (default _instantiateEnhancementItemRequirements (its !! i))))
  end.
Proof.
  revert i.
  apply (map_fold_weak_ind (λ r m, ∀ i, r !! i =
    match m !! i with
    | None => its !! i
    | Some q =>
        Some (addToKey KTotal (q * cnt) (addToKey key (q * cnt)
                (default _instantiateEnhancementItemRequirements (its !! i))))
    end)).
  - intros i. by rewrite lookup_empty.
  - intros k q m r Hk IH i. unfold updateItemCount, getOrDefault.
    destruct (decide (i = k)) as [->|Hne].
    + specialize (IH k). rewrite Hk in IH. rewrite (lookup_insert_eq m).
      destruct (r !! k) as [rk|] eqn:Hr; rewrite lookup_insert_eq, <- IH; done.
    + rewrite (lookup_insert_ne m) by done. rewrite <- IH.
      destruct (r !! k); rewrite !lookup_insert_ne; done.
Qed.

Lemma qp_update result e key cnt :
  qp (_updateEnhancementRequirementResult result e key cnt) =
  qp result + cost_qp e * cnt.
Proof. reflexivity. Qed.

Lemma embers_update result e key cnt :
  embers (_updateEnhancementRequirementResult result e key cnt) = embers result.
Proof. reflexivity. Qed.

Lemma itemAmount_update K result e key cnt i :
  itemAmount K (_updateEnhancementRequirementResult result e key cnt) i =
  itemAmount K result i + keyWeight key K * (quantityOf e i * cnt).
Proof.
  unfold itemAmount, quantityOf, keyWeight, _updateEnhancementRequirementResult.
  cbn [items]. rewrite updateItems_lookup.
  destruct (materials e !! i) as [q|]; cbn [default from_option id].
  - rewrite !itemField_addToKey.
    destruct (decide (key = K)), (decide (KTotal = K)), (decide (K = KTotal));
      try congruence; lia.
  - lia.
Qed.

End Booking.

(** ** The axes of one servant's computation *)

Section Axes.

Implicit Types (result : EnhancementRequirements).
Implicit Types (cur tgt : SkillEnhancements).

Lemma skillUpgradeCount_slots cur tgt L :
  skillUpgradeCount (orZero (skill1 cur)) (orZero (skill2 cur)) (orZero (skill3 cur))
                    (orZero (skill1 tgt)) (orZero (skill2 tgt)) (orZero (skill3 tgt)) L =
  slotsNeeding cur tgt L.
Proof.
  unfold skillUpgradeCount, slotsNeeding.
  generalize (orZero (skill1 cur)) (orZero (skill2 cur)) (orZero (skill3 cur))
             (orZero (skill1 tgt)) (orZero (skill2 tgt)) (orZero (skill3 tgt)).
  intros c1 c2 c3 t1 t2 t3.
  assert (Hslot : ∀ c t, (c >? L) || (L >=? t) = negb (slotNeeds L (c, t))).
  { intros c t. unfold slotNeeds. simpl.
    destruct (Z.gtb_spec c L), (Z.geb_spec L t), (Z.leb_spec c L), (Z.ltb_spec L t);
      simpl; try reflexivity; lia. }
  rewrite !Hslot. rewrite !filter_cons, filter_nil.
  destruct (slotNeeds L (c1, t1)), (slotNeeds L (c2, t2)), (slotNeeds L (c3, t3));
    repeat case_decide; try congruence; reflexivity.
Qed.

Lemma updateForSkillLevel_qp cur tgt ty excl L e result :
  qp (updateForSkillLevel cur tgt ty excl L e result) =
  qp result + chargedSteps excl cur tgt L * cost_qp e.
Proof.
  unfold updateForSkillLevel, chargedSteps, loreSkipped.
  rewrite skillUpgradeCount_slots.
  destruct (truthy excl && (L =? MaxSkillLevel - 1)); [lia|].
  destruct (Z.eqb_spec (slotsNeeding cur tgt L) 0) as [->|_]; [lia|].
  rewrite qp_update. lia.
Qed.

Lemma updateForSkillLevel_amount K cur tgt ty excl L e result i :
  itemAmount K (updateForSkillLevel cur tgt ty excl L e result) i =
  itemAmount K result i +
  keyWeight (skillKey ty) K * (chargedSteps excl cur tgt L * quantityOf e i).
Proof.
  unfold updateForSkillLevel, chargedSteps, loreSkipped.
  rewrite skillUpgradeCount_slots.
  destruct (truthy excl && (L =? MaxSkillLevel - 1)); [lia|].
  destruct (Z.eqb_spec (slotsNeeding cur tgt L) 0) as [->|_]; [lia|].
  rewrite itemAmount_update. lia.
Qed.

Lemma updateForSkillLevel_embers cur tgt ty excl L e result :
  embers (updateForSkillLevel cur tgt ty excl L e result) = embers result.
Proof.
  unfold updateForSkillLevel.
  repeat match goal with |- context [if ?b then _ else _] => destruct b end; done.
Qed.

Lemma skills_qp result mats cur tgt ty excl :
  qp (_updateResultForSkills result mats cur tgt ty excl) =
  qp result + skillsQp excl cur tgt mats.
Proof.
  unfold _updateResultForSkills, skillsQp.
  apply (map_fold_measure qp). intros. apply updateForSkillLevel_qp.
Qed.

Lemma skills_amount K result mats cur tgt ty excl i :
  itemAmount K (_updateResultForSkills result mats cur tgt ty excl) i =
  itemAmount K result i + keyWeight (skillKey ty) K * skillsAmount excl cur tgt mats i.
Proof.
  unfold _updateResultForSkills, skillsAmount.
  rewrite <- sumOver_scale.
  apply (map_fold_measure (λ r, itemAmount K r i)).
  intros. apply updateForSkillLevel_amount.
Qed.

Lemma skills_embers result mats cur tgt ty excl :
  embers (_updateResultForSkills result mats cur tgt ty excl) = embers result.
Proof.
  unfold _updateResultForSkills. apply (map_fold_preserved embers).
  intros. apply updateForSkillLevel_embers.
Qed.

(** *** Ascensions *)

Lemma ascension_test (cur : ServantEnhancements) ta L :
  (orZero (ascension cur) >=? L) || (L >? ta) = negb (ascensionCharged cur ta L).
Proof.
  unfold ascensionCharged.
  destruct (Z.geb_spec (orZero (ascension cur)) L), (Z.gtb_spec L ta),
    (Z.ltb_spec (orZero (ascension cur)) L), (Z.leb_spec L ta);
    simpl; try reflexivity; lia.
Qed.

Lemma updateForAscension_qp (cur : ServantEnhancements) ta L e result :
  qp (updateForAscension cur ta L e result) =
  qp result + (if ascensionCharged cur ta L then cost_qp e else 0).
Proof.
  unfold updateForAscension. rewrite ascension_test.
  destruct (ascensionCharged cur ta L); simpl negb; cbv iota; [|lia].
  rewrite qp_update. lia.
Qed.

Lemma updateForAscension_amount K (cur : ServantEnhancements) ta L e result i :
  itemAmount K (updateForAscension cur ta L e result) i =
  itemAmount K result i +
  keyWeight KAscensions K * (if ascensionCharged cur ta L then quantityOf e i else 0).
Proof.
  unfold updateForAscension. rewrite ascension_test.
  destruct (ascensionCharged cur ta L); simpl negb; cbv iota; [|lia].
  rewrite itemAmount_update. lia.
Qed.

Lemma updateForAscension_embers (cur : ServantEnhancements) ta L e result :
  embers (updateForAscension cur ta L e result) = embers result.
Proof. unfold updateForAscension. by destruct (_ || _). Qed.

(** *** Costumes *)

Lemma costumeSkipped_charged cc tc id :
  costumeSkipped cc tc id = false ↔ costumeCharged cc tc id.
Proof.
  unfold costumeSkipped, costumeCharged. destruct tc as [tc|].
  - rewrite orb_false_iff, negb_false_iff, bool_decide_eq_false, bool_decide_eq_true.
    split.
    + intros [Hc Ht]. split; [done|]. right. by exists tc.
    + intros [Hc [Heq|[tc' [Heq Ht]]]]; [done|]. by simplify_eq.
  - rewrite orb_false_r, bool_decide_eq_false. split.
    + intros Hc. split; [done|]. by left.
    + by intros [Hc _].
Qed.

Lemma costumeSkipped_decide cc tc id :
  costumeSkipped cc tc id = negb (bool_decide (costumeCharged cc tc id)).
Proof.
  destruct (costumeSkipped cc tc id) eqn:Hs; symmetry.
  - apply negb_true_iff, bool_decide_eq_false.
    rewrite <- costumeSkipped_charged. congruence.
  - apply negb_false_iff, bool_decide_eq_true. by apply costumeSkipped_charged.
Qed.

Lemma updateForCostume_charged cc tc id c result :
  updateForCostume cc tc id c result =
  if decide (costumeCharged cc tc id)
  then _updateEnhancementRequirementResult result (costume_materials c) KCostumes 1
  else result.
Proof.
  unfold updateForCostume. rewrite costumeSkipped_decide.
  destruct (decide (costumeCharged cc tc id)) as [Hc|Hc].
  - by rewrite bool_decide_eq_true_2.
  - by rewrite bool_decide_eq_false_2.
Qed.

Lemma updateForCostume_qp cc tc id c result :
  qp (updateForCostume cc tc id c result) =
  qp result + (if decide (costumeCharged cc tc id)
               then cost_qp (costume_materials c) else 0).
Proof.
  rewrite updateForCostume_charged. case_decide; [|lia].
  rewrite qp_update. lia.
Qed.

Lemma updateForCostume_amount K cc tc id c result i :
  itemAmount K (updateForCostume cc tc id c result) i =
  itemAmount K result i +
  keyWeight KCostumes K * (if decide (costumeCharged cc tc id)
                           then quantityOf (costume_materials c) i else 0).
Proof.
  rewrite updateForCostume_charged. case_decide; [|lia].
  rewrite itemAmount_update. lia.
Qed.

Lemma updateForCostume_embers cc tc id c result :
  embers (updateForCostume cc tc id c result) = embers result.
Proof. rewrite updateForCostume_charged. by case_decide. Qed.

End Axes.

(** ** The requirements of one servant, axis by axis *)

Section Servant.

Variables (gameServant : GameServant) (cur tgt : ServantEnhancements).
Variables (currentCostumes : gset Z) (targetCostumes : option (gset Z)).
Variable options : option ComputationOptions.

Let o := default _defaultOptions options.
Let res := _computeServantEnhancementRequirements gameServant cur currentCostumes
             tgt targetCostumes options.

Lemma ascensions_qp result :
  qp (match truthy (includeAscensions o), ascension tgt with
      | true, Some targetAscension =>
          match ascensionMaterials gameServant with
          | Some ascensions =>
              map_fold (updateForAscension cur targetAscension) result ascensions
          | None => result
          end
      | _, _ => result
      end) =
  qp result + axisOn (includeAscensions o)
                     (ascensionQp cur tgt (ascensionMaterials gameServant)).
Proof.
  unfold axisOn, ascensionQp.
  destruct (truthy (includeAscensions o)); [|lia].
  destruct (ascension tgt) as [ta|]; [|lia].
  destruct (ascensionMaterials gameServant) as [t|]; [|lia].
  apply (map_fold_measure qp). intros. apply updateForAscension_qp.
Qed.

Lemma ascensions_amount K result i :
  itemAmount K
     (match truthy (includeAscensions o), ascension tgt with
      | true, Some targetAscension =>
          match ascensionMaterials gameServant with
          | Some ascensions =>
              map_fold (updateForAscension cur targetAscension) result ascensions
          | None => result
          end
      | _, _ => result
      end) i =
  itemAmount K result i +
  keyWeight KAscensions K *
    axisOn (includeAscensions o)
           (ascensionAmount cur tgt (ascensionMaterials gameServant) i).
Proof.
  unfold axisOn, ascensionAmount.
  destruct (truthy (includeAscensions o)); [|lia].
  destruct (ascension tgt) as [ta|]; [|lia].
  destruct (ascensionMaterials gameServant) as [t|]; [|lia].
  rewrite <- sumOver_scale.
  apply (map_fold_measure (λ r, itemAmount K r i)).
  intros. apply updateForAscension_amount.
Qed.

Lemma costumes_qp result :
  qp (map_fold (updateForCostume currentCostumes targetCostumes) result
               (gs_costumes gameServant)) =
  qp result + costumesQp currentCostumes targetCostumes (gs_costumes gameServant).
Proof. apply (map_fold_measure qp). intros. apply updateForCostume_qp. Qed.

Lemma costumes_amount K result i :
  itemAmount K (map_fold (updateForCostume currentCostumes targetCostumes) result
                         (gs_costumes gameServant)) i =
  itemAmount K result i +
  keyWeight KCostumes K *
    costumesAmount currentCostumes targetCostumes (gs_costumes gameServant) i.
Proof.
  unfold costumesAmount. rewrite <- sumOver_scale.
  apply (map_fold_measure (λ r, itemAmount K r i)).
  intros. apply updateForCostume_amount.
Qed.

(** The qp of the result is the sum of the qp of the enabled axes. *)
Lemma servant_qp :
  qp res =
  axisOn (includeSkills o)
    (skillsQp (excludeLores o) (skills cur) (skills tgt) (skillMaterials gameServant)) +
  axisOn (includeAppendSkills o)
    (skillsQp (excludeLores o) (appendSkills cur) (appendSkills tgt)
              (appendSkillMaterials gameServant)) +
  axisOn (includeAscensions o) (ascensionQp cur tgt (ascensionMaterials gameServant)) +
  axisOn (includeCostumes o)
    (costumesQp currentCostumes targetCostumes (gs_costumes gameServant)).
Proof.
  unfold res, _computeServantEnhancementRequirements. fold o. cbv zeta.
  destruct (truthy (includeCostumes o)) eqn:Hc;
    [rewrite costumes_qp|]; rewrite ascensions_qp;
    destruct (truthy (includeAppendSkills o)) eqn:Ha,
             (truthy (includeSkills o)) eqn:Hs;
    rewrite ?skills_qp; unfold axisOn; rewrite ?Hc, ?Ha, ?Hs; simpl; lia.
Qed.

(** The amount of a material under each category is the amount of the
    enabled axis of that category; the total is the sum over the axes. *)
Lemma servant_amount K i :
  itemAmount K res i =
  keyWeight KSkills K *
    axisOn (includeSkills o)
      (skillsAmount (excludeLores o) (skills cur) (skills tgt)
                    (skillMaterials gameServant) i) +
  keyWeight KAppendSkills K *
    axisOn (includeAppendSkills o)
      (skillsAmount (excludeLores o) (appendSkills cur) (appendSkills tgt)
                    (appendSkillMaterials gameServant) i) +
  keyWeight KAscensions K *
    axisOn (includeAscensions o)
      (ascensionAmount cur tgt (ascensionMaterials gameServant) i) +
  keyWeight KCostumes K *
    axisOn (includeCostumes o)
      (costumesAmount currentCostumes targetCostumes (gs_costumes gameServant) i).
Proof.
  unfold res, _computeServantEnhancementRequirements. fold o. cbv zeta.
  destruct (truthy (includeCostumes o)) eqn:Hc;
    [rewrite costumes_amount|]; rewrite ascensions_amount;
    destruct (truthy (includeAppendSkills o)) eqn:Ha,
             (truthy (includeSkills o)) eqn:Hs;
    rewrite ?skills_amount; unfold axisOn; rewrite ?Hc, ?Ha, ?Hs;
    change (itemAmount K _instantiateEnhancementRequirements i) with (itemField K _instantiateEnhancementItemRequirements);
    destruct K; simpl; lia.
Qed.

Lemma servant_embers : embers res = mkEmbers 0 0 0 0 0.
Proof.
  unfold res, _computeServantEnhancementRequirements. cbv zeta.
  repeat match goal with
  | |- embers (if ?b then _ else _) = _ => destruct b
  | |- embers (map_fold (updateForCostume _ _) _ _) = _ =>
      rewrite (map_fold_preserved embers)
        by (intros; apply updateForCostume_embers)
  | |- embers (match ?b with true => _ | false => _ end) = _ => destruct b
  | |- embers (match ?x with Some _ => _ | None => _ end) = _ => destruct x
  | |- embers (map_fold (updateForAscension _ _) _ _) = _ =>
      rewrite (map_fold_preserved embers)
        by (intros; apply updateForAscension_embers)
  | |- embers (_updateResultForSkills _ _ _ _ _ _) = _ => rewrite skills_embers
  end; reflexivity.
Qed.

End Servant.

(** ** The order of the iteration

    The loops of the source visit the entries of an object in the order of
    [Object.entries]; the embedding folds over the table with [map_fold].
    Each loop body commutes with itself on distinct keys, so the result does
    not depend on the order in which the entries are visited. *)

Section Order.

Lemma foldl_as_foldr {A S} (f : A → S → S) (b : S) (l : list A) :
  foldl (λ s x, f x s) b l = foldr f b (reverse l).
Proof.
  revert b. induction l as [|x l IH]; intros b; [done|].
  cbn [foldl]. rewrite IH, reverse_cons, foldr_app. done.
Qed.

Lemma foldr_uncurry {A S} (f : Z → A → S → S) (b : S) (l : list (Z * A)) :
  foldr (uncurry f) b l = foldr (λ kv, f kv.1 kv.2) b l.
Proof. induction l as [|[k v] l IH]; [done|]. cbn. by rewrite IH. Qed.

(** A loop over the entries, visited in the order of the list [l]. *)
Lemma loop_any_order {A S} (f : Z → A → S → S) (b : S) (m : gmap Z A)
    (l : list (Z * A)) :
  (∀ k1 v1 k2 v2 s, k1 ≠ k2 → f k1 v1 (f k2 v2 s) = f k2 v2 (f k1 v1 s)) →
  l ≡ₚ map_to_list m →
  foldl (λ s kv, f kv.1 kv.2 s) b l = map_fold f b m.
Proof.
  intros Hcomm Hperm. rewrite map_fold_foldr.
  rewrite (foldl_as_foldr (λ kv, f kv.1 kv.2)).
  symmetry. rewrite foldr_uncurry.
  apply (foldr_permutation eq (λ kv, f kv.1 kv.2)).
  - intros x ? ? ->. done.
  - intros j1 [k1 v1] j2 [k2 v2] s Hj H1 H2. cbn [fst snd]. apply Hcomm.
    intros ->. apply Hj.
    apply (NoDup_lookup _ _ _ k2 (NoDup_fst_map_to_list m));
      rewrite list_lookup_fmap; [by rewrite H1|by rewrite H2].
  - by rewrite reverse_Permutation.
Qed.

Lemma addToKey_comm k1 t1 k2 t2 ic :
  addToKey k1 t1 (addToKey k2 t2 ic) = addToKey k2 t2 (addToKey k1 t1 ic).
Proof. destruct ic, k1, k2; unfold addToKey; cbn; f_equal; lia. Qed.

Lemma update_comm result e1 key1 cnt1 e2 key2 cnt2 :
  _updateEnhancementRequirementResult
    (_updateEnhancementRequirementResult result e1 key1 cnt1) e2 key2 cnt2 =
  _updateEnhancementRequirementResult
    (_updateEnhancementRequirementResult result e2 key2 cnt2) e1 key1 cnt1.
Proof.
  unfold _updateEnhancementRequirementResult. cbn [items qp embers]. f_equal; [|lia].
  apply map_eq; intros i. rewrite !updateItems_lookup.
  destruct (materials e1 !! i) as [q1|], (materials e2 !! i) as [q2|];
    cbn [default from_option id]; try done.
  f_equal.
  generalize (default _instantiateEnhancementItemRequirements (items result !! i)).
  intros ic. cbn [from_option id].
  rewrite (addToKey_comm key2 (q2 * cnt2) KTotal).
  rewrite (addToKey_comm key2 (q2 * cnt2) key1).
  rewrite (addToKey_comm KTotal (q2 * cnt2) KTotal).
  rewrite (addToKey_comm KTotal (q2 * cnt2) key1).
  by rewrite (addToKey_comm key1 (q1 * cnt1) KTotal).
Qed.

Lemma updateForSkillLevel_comm cur tgt ty excl L1 e1 L2 e2 result :
  updateForSkillLevel cur tgt ty excl L1 e1
    (updateForSkillLevel cur tgt ty excl L2 e2 result) =
  updateForSkillLevel cur tgt ty excl L2 e2
    (updateForSkillLevel cur tgt ty excl L1 e1 result).
Proof.
  unfold updateForSkillLevel.
  repeat match goal with |- context [if ?b then _ else _] => destruct b end;
    try done. apply update_comm.
Qed.

Lemma updateForAscension_comm cur ta L1 e1 L2 e2 result :
  updateForAscension cur ta L1 e1 (updateForAscension cur ta L2 e2 result) =
  updateForAscension cur ta L2 e2 (updateForAscension cur ta L1 e1 result).
Proof.
  unfold updateForAscension.
  repeat match goal with |- context [if ?b then _ else _] => destruct b end;
    try done. apply update_comm.
Qed.

Lemma updateForCostume_comm cc tc id1 c1 id2 c2 result :
  updateForCostume cc tc id1 c1 (updateForCostume cc tc id2 c2 result) =
  updateForCostume cc tc id2 c2 (updateForCostume cc tc id1 c1 result).
Proof.
  unfold updateForCostume.
  repeat match goal with |- context [if ?b then _ else _] => destruct b end;
    try done. apply update_comm.
Qed.

Lemma updateItemCount_lookup key cnt k q its i :
  updateItemCount key cnt k q its !! i =
  if decide (i = k)
  then Some (addToKey KTotal (q * cnt) (addToKey key (q * cnt)
               (default _instantiateEnhancementItemRequirements (its !! k))))
  else its !! i.
Proof.
  unfold updateItemCount, getOrDefault.
  destruct (its !! k) eqn:Hk; case_decide as Hi; subst;
    rewrite ?lookup_insert_eq, ?lookup_insert_ne by done; done.
Qed.

Lemma updateItemCount_comm key cnt k1 q1 k2 q2 its :
  k1 ≠ k2 →
  updateItemCount key cnt k1 q1 (updateItemCount key cnt k2 q2 its) =
  updateItemCount key cnt k2 q2 (updateItemCount key cnt k1 q1 its).
Proof.
  intros Hne. apply map_eq; intros i. rewrite !updateItemCount_lookup.
  repeat case_decide; subst; try done; congruence.
Qed.

Lemma addItemEntry_lookup k v its i :
  addItemEntry k v its !! i =
  if decide (i = k)
  then Some (from_option (λ t, _addEnhancementItemRequirements t v) v (its !! k))
  else its !! i.
Proof.
  unfold addItemEntry.
  destruct (its !! k) eqn:Hk; case_decide as Hi; subst;
    rewrite ?lookup_insert_eq, ?lookup_insert_ne by done; done.
Qed.

Lemma addItemEntry_comm k1 v1 k2 v2 its :
  k1 ≠ k2 →
  addItemEntry k1 v1 (addItemEntry k2 v2 its) =
  addItemEntry k2 v2 (addItemEntry k1 v1 its).
Proof.
  intros Hne. apply map_eq; intros i. rewrite !addItemEntry_lookup.
  repeat case_decide; subst; try done; congruence.
Qed.

(** Every loop over the entries of an object gives the result of the
    embedding when the entries are visited in any order [l]. *)
Theorem loops_any_order :
  (∀ its (source : gmap Z EnhancementItemRequirements) l,
      l ≡ₚ map_to_list source →
      foldl (λ t kv, addItemEntry kv.1 kv.2 t) its l = map_fold addItemEntry its source) ∧
  (∀ result e key cnt l,
      l ≡ₚ map_to_list (materials e) →
      mkReq (embers result)
            (foldl (λ t kv, updateItemCount key cnt kv.1 kv.2 t) (items result) l)
            (qp result + cost_qp e * cnt) =
      _updateEnhancementRequirementResult result e key cnt) ∧
  (∀ result table cur tgt ty excl l,
      l ≡ₚ map_to_list table →
      foldl (λ r kv, updateForSkillLevel cur tgt ty excl kv.1 kv.2 r) result l =
      _updateResultForSkills result table cur tgt ty excl) ∧
  (∀ result (table : gmap Z GameServantEnhancement) cur ta l,
      l ≡ₚ map_to_list table →
      foldl (λ r kv, updateForAscension cur ta kv.1 kv.2 r) result l =
      map_fold (updateForAscension cur ta) result table) ∧
  (∀ result (table : gmap Z GameServantCostume) cc tc l,
      l ≡ₚ map_to_list table →
      foldl (λ r kv, updateForCostume cc tc kv.1 kv.2 r) result l =
      map_fold (updateForCostume cc tc) result table).
Proof.
  split_and!.
  - intros. apply loop_any_order; [|done]. intros. by apply addItemEntry_comm.
  - intros result e key cnt l Hl. unfold _updateEnhancementRequirementResult.
    f_equal. apply loop_any_order; [|done]. intros. by apply updateItemCount_comm.
  - intros. apply loop_any_order; [|done]. intros. apply updateForSkillLevel_comm.
  - intros. apply loop_any_order; [|done]. intros. apply updateForAscension_comm.
  - intros. apply loop_any_order; [|done]. intros. apply updateForCostume_comm.
Qed.

End Order.

(** ** Skill upgrade counting and costume charging *)

Lemma keyWeight_skill_self ty : keyWeight (skillKey ty) (skillKey ty) = 1.
Proof. by destruct ty. Qed.

Lemma keyWeight_skill_total ty : keyWeight (skillKey ty) KTotal = 1.
Proof. by destruct ty. Qed.

(** C4: at every catalog level L the upgrade count of the source is the
    number of the three slots whose current level is at most L and whose
    target level is above L, a slot without an entry being at level 0; the
    loop over the catalog adds the level's qp and material quantities times
    that count to the result, under the skills or appendSkills category and
    the total (the lore level is left out when lores are excluded).  With
    current levels (3,5,7) and targets (10,10,10) the count at level 6 is 2. *)
Theorem skill_upgrade_counting :
  (∀ currentSkills targetSkills L,
      skillUpgradeCount
        (orZero (skill1 currentSkills)) (orZero (skill2 currentSkills))
        (orZero (skill3 currentSkills))
        (orZero (skill1 targetSkills)) (orZero (skill2 targetSkills))
        (orZero (skill3 targetSkills)) L =
      slotsNeeding currentSkills targetSkills L) ∧
  (∀ result skillMaterials currentSkills targetSkills skillType excludeLores,
      let result' := _updateResultForSkills result skillMaterials currentSkills
                       targetSkills skillType excludeLores in
      let count L := if loreSkipped excludeLores L then 0
                     else slotsNeeding currentSkills targetSkills L in
      qp result' = qp result + sumOver (λ L skill, count L * cost_qp skill) skillMaterials ∧
      ∀ itemId,
        itemAmount (skillKey skillType) result' itemId =
          itemAmount (skillKey skillType) result itemId +
          sumOver (λ L skill, count L * quantityOf skill itemId) skillMaterials ∧
        itemAmount KTotal result' itemId =
          itemAmount KTotal result itemId +
          sumOver (λ L skill, count L * quantityOf skill itemId) skillMaterials) ∧
  skillUpgradeCount 3 5 7 10 10 10 6 = 2 ∧
  slotsNeeding (mkSkills (Some 3) (Some 5) (Some 7))
               (mkSkills (Some 10) (Some 10) (Some 10)) 6 = 2.
Proof.
  split_and!.
  - apply skillUpgradeCount_slots.
  - intros result mats cur tgt ty excl result' count. split.
    + apply skills_qp.
    + intros i. unfold result'. rewrite !skills_amount.
      rewrite keyWeight_skill_self, keyWeight_skill_total.
      unfold skillsAmount, chargedSteps, count. lia.
  - reflexivity.
  - reflexivity.
Qed.

(** C5: a costume of the catalog is charged exactly when it is not among the
    current costumes and the target set is undefined or holds its id: the
    loop body books the costume's cost under the costumes category in that
    case and leaves the result alone otherwise, so the costumes subtotal of
    every material is the sum of its quantities over the charged costumes and
    the total and the qp grow by the same costumes.  A costume among the
    current costumes is never charged, whatever the target set. *)
Theorem costume_contribution_condition :
  (∀ currentCostumes targetCostumes costumeId costume result,
      updateForCostume currentCostumes targetCostumes costumeId costume result =
      if decide (costumeCharged currentCostumes targetCostumes costumeId)
      then _updateEnhancementRequirementResult result (costume_materials costume)
             KCostumes 1
      else result) ∧
  (∀ gameServant cur currentCostumes tgt targetCostumes options itemId,
      let o := default _defaultOptions options in
      let withCostumes :=
        _computeServantEnhancementRequirements gameServant cur currentCostumes tgt
          targetCostumes
          (Some (mkOptions (includeAscensions o) (includeSkills o)
                           (includeAppendSkills o) (Some true) (excludeLores o))) in
      let withoutCostumes :=
        _computeServantEnhancementRequirements gameServant cur currentCostumes tgt
          targetCostumes
          (Some (mkOptions (includeAscensions o) (includeSkills o)
                           (includeAppendSkills o) (Some false) (excludeLores o))) in
      itemAmount KCostumes withCostumes itemId =
        costumesAmount currentCostumes targetCostumes (gs_costumes gameServant) itemId ∧
      itemAmount KTotal withCostumes itemId =
        itemAmount KTotal withoutCostumes itemId +
        costumesAmount currentCostumes targetCostumes (gs_costumes gameServant) itemId ∧
      qp withCostumes =
        qp withoutCostumes +
        costumesQp currentCostumes targetCostumes (gs_costumes gameServant)) ∧
  (∀ currentCostumes targetCostumes costumeId costume result,
      updateForCostume ({[costumeId]} ∪ currentCostumes) targetCostumes
        costumeId costume result = result).
Proof.
  split_and!.
  - apply updateForCostume_charged.
  - intros gs cur cc tgt tc options i o withC withoutC.
    unfold withC, withoutC. rewrite !servant_amount, !servant_qp.
    cbn [default from_option id includeAscensions includeSkills includeAppendSkills
         includeCostumes excludeLores].
    change (axisOn (Some true) ?x) with x.
    change (axisOn (Some false) ?x) with 0.
    change (keyWeight KSkills KCostumes) with 0.
    change (keyWeight KAppendSkills KCostumes) with 0.
    change (keyWeight KAscensions KCostumes) with 0.
    change (keyWeight KCostumes KCostumes) with 1.
    change (keyWeight KCostumes KTotal) with 1.
    lia.
  - intros cc tc id c result. rewrite updateForCostume_charged.
    case_decide as Hc; [|done]. destruct Hc as [Hn _]. set_solver.
Qed.

(** ** Walking the plans *)

Section Walk.

Lemma updateEnhancements_source `{HasEnhancements A} (t : ServantEnhancements) (s : A) :
  updateEnhancements t s = enhancementsOf s.
Proof.
  unfold updateEnhancements. destruct (enhancementsOf s) as [a [s1 s2 s3] [p1 p2 p3]].
  reflexivity.
Qed.

Lemma cloneEnhancements_source `{HasEnhancements A} (s : A) :
  cloneEnhancements s = enhancementsOf s.
Proof. apply updateEnhancements_source. Qed.

Variables (gameServantMap : gmap Z GameServant) (masterAccountData : MasterAccountData).
Variables (planId : string) (targetCostumes : gset Z).
Variables (options : ComputationOptions) (isTargetPlan : bool).

Let step := computePlanServantStep gameServantMap masterAccountData planId
              targetCostumes options isTargetPlan.

Lemma step_disabled result planServant :
  ps_enabled_servant planServant = false → step result planServant = result.
Proof. intros He. unfold step, computePlanServantStep. by rewrite He. Qed.

Lemma step_no_master result planServant :
  mad_servants masterAccountData !! ps_instanceId planServant = None →
  step result planServant = result.
Proof.
  intros Hm. unfold step, computePlanServantStep. rewrite Hm.
  by destruct (negb _).
Qed.

Lemma step_no_game result planServant masterServant :
  mad_servants masterAccountData !! ps_instanceId planServant = Some masterServant →
  gameServantMap !! ms_gameId masterServant = None →
  step result planServant = result.
Proof.
  intros Hm Hg. unfold step, computePlanServantStep. rewrite Hm, Hg.
  by destruct (negb _).
Qed.

Lemma step_resolved result planServant masterServant gameServant :
  ps_enabled_servant planServant = true →
  mad_servants masterAccountData !! ps_instanceId planServant = Some masterServant →
  gameServantMap !! ms_gameId masterServant = Some gameServant →
  let cost := stepCost masterAccountData targetCostumes options result planServant
                masterServant gameServant in
  let entry :=
    mkPSR (match servants result !! ps_instanceId planServant with
           | Some psr => psr_instanceId psr
           | None => ps_instanceId planServant
           end)
          (baselineOf result (ps_instanceId planServant) masterServant)
          (ps_enhancements planServant)
          (let previous :=
             match servants result !! ps_instanceId planServant with
             | Some psr => requirements psr
             | None => _instantiateEnhancementRequirements
             end in
           if isTargetPlan then addEnhancementRequirements previous cost
           else previous) in
  step result planServant =
  mkPlanReq (<[ps_instanceId planServant := entry]> (servants result))
            (if isTargetPlan
             then addEnhancementRequirements (targetPlan result) cost
             else targetPlan result)
            (if isTargetPlan then previousPlans result
             else <[planId := addEnhancementRequirements
                                (default _instantiateEnhancementRequirements
                                         (previousPlans result !! planId))
                                cost]> (previousPlans result))
            (addEnhancementRequirements (group result) cost)
            (itemDebt result).
Proof.
  intros He Hm Hg cost entry. subst cost entry.
  unfold step, computePlanServantStep. rewrite He, Hm, Hg. cbn [negb].
  unfold _computePlanServantRequirements, stepCost, baselineOf, getOrDefault,
    _instantiatePlanServantRequirements.
  destruct (servants result !! ps_instanceId planServant) as [psr|] eqn:Hs;
    destruct isTargetPlan;
    rewrite ?updateEnhancements_source, ?cloneEnhancements_source;
    unfold enhancementsOf, enh_has_enh, master_has_enh, plan_servant_has_enh;
    cbn [current target requirements psr_instanceId servants targetPlan
         previousPlans group itemDebt default from_option id];
    try destruct (previousPlans result !! planId) as [pp|] eqn:Hp;
    cbn [current target requirements psr_instanceId servants targetPlan
         previousPlans group itemDebt default from_option id];
    rewrite ?insert_insert_eq; reflexivity.
Qed.

End Walk.

(** The walk over two plans of one directive each, for the same instance:
    plan A is charged from the live state to its target, plan B from the
    target of plan A to its own, both against the costumes of the account,
    and the group holds the two costs. *)
Lemma two_plan_chain gameServantMap masterAccount masterServant gameServant
    optionsOverride idA flagsA costumesA directiveA idB flagsB costumesB directiveB :
  let planA := mkPlan idA flagsA [directiveA] costumesA in
  let planB := mkPlan idB flagsB [directiveB] costumesB in
  let options := match optionsOverride with
                 | Some o => o
                 | None => _parseComputationOptions flagsB
                 end in
  let unlocked := toReadonlySet (ma_costumes masterAccount) in
  let costA :=
    _computeServantEnhancementRequirements gameServant
      (ms_enhancements masterServant) unlocked
      (ps_enhancements directiveA) (Some (toReadonlySet costumesA))
      (Some (_mergeComputationOptions options
               (_parseComputationOptions (ps_enabled directiveA)))) in
  let costB :=
    _computeServantEnhancementRequirements gameServant
      (ps_enhancements directiveA) unlocked
      (ps_enhancements directiveB) (Some (toReadonlySet costumesB))
      (Some (_mergeComputationOptions options
               (_parseComputationOptions (ps_enabled directiveB)))) in
  ps_enabled_servant directiveA = true →
  ps_enabled_servant directiveB = true →
  ps_instanceId directiveB = ps_instanceId directiveA →
  mad_servants (_preProcessMasterAccount masterAccount) !! ps_instanceId directiveA
    = Some masterServant →
  gameServantMap !! ms_gameId masterServant = Some gameServant →
  let result := computePlanRequirements gameServantMap masterAccount planB
                  (Some [planA]) optionsOverride in
  previousPlans result = {[ idA := costA ]} ∧
  targetPlan result = costB ∧
  group result = addEnhancementRequirements costA costB.
Proof.
  intros planA planB options unlocked costA costB HeA HeB Hid Hm Hg.
  subst planA planB options unlocked costA costB.
  unfold computePlanRequirements. cbv zeta.
  cbn [default from_option id foldl]. unfold _computePlanRequirements.
  cbn [plan_servants plan_id plan_costumes plan_enabled foldl].
  set (options := match optionsOverride with Some o => o | None => _ end).
  rewrite (step_resolved gameServantMap _ idA _ options false _ directiveA
             masterServant gameServant HeA Hm Hg).
  rewrite <- Hid in Hm.
  rewrite (step_resolved gameServantMap _ idB _ options true _ directiveB
             masterServant gameServant HeB Hm Hg).
  cbn [targetPlan previousPlans group servants].
  unfold stepCost, baselineOf. cbn [servants].
  rewrite Hid, lookup_insert_eq.
  unfold _instantiatePlanRequirements.
  cbn [servants target targetPlan previousPlans group default from_option id].
  rewrite !lookup_empty. cbn [default from_option id].
  rewrite !add_zero_l. split_and!; reflexivity.
Qed.

Lemma itemAmount_add K (A B : EnhancementRequirements) i :
  itemAmount K (addEnhancementRequirements A B) i = itemAmount K A i + itemAmount K B i.
Proof.
  unfold itemAmount. rewrite items_add_lookup.
  destruct (items A !! i) as [a|], (items B !! i) as [b|]; cbn;
    destruct K; cbn; lia.
Qed.

(** ** Chain baseline promotion *)

(** C1: when the walk reaches a directive that resolves, the current state
    it computes from is the baseline of the instance id: the live state of
    the master servant on the first encounter, the target recorded by the
    previous encounter afterwards.  The entry stored under the id then holds
    that baseline as current and the directive's state as target, which makes
    the directive's target the baseline of the next plan, and the cost added
    to the group and to the plan's bucket is the cost from that baseline to
    the new target.  In a chain of two plans with one directive each for the
    same instance, the bucket of the target plan is the cost from the target
    of plan A to the target of plan B; and the ascension subtotal of a cost
    holds the catalog levels above the baseline's ascension and up to the
    target's.  For live ascension 0, plan A to ascension 2 and plan B to
    ascension 4, plan B is charged the ascension levels 3 and 4 only. *)
Theorem chain_baseline_promotion :
  (∀ gameServantMap masterAccountData planId targetCostumes options isTargetPlan
     result planServant masterServant gameServant,
      ps_enabled_servant planServant = true →
      mad_servants masterAccountData !! ps_instanceId planServant = Some masterServant →
      gameServantMap !! ms_gameId masterServant = Some gameServant →
      let instanceId := ps_instanceId planServant in
      let result' :=
        computePlanServantStep gameServantMap masterAccountData planId
          targetCostumes options isTargetPlan result planServant in
      let baseline :=
        match servants result !! instanceId with
        | None => ms_enhancements masterServant
        | Some previous => target previous
        end in
      let cost :=
        _computeServantEnhancementRequirements gameServant baseline
          (mad_costumes masterAccountData) (ps_enhancements planServant)
          (Some targetCostumes)
          (Some (_mergeComputationOptions options
                   (_parseComputationOptions (ps_enabled planServant)))) in
      (∃ entry, servants result' !! instanceId = Some entry ∧
                current entry = baseline ∧
                target entry = ps_enhancements planServant) ∧
      group result' = addEnhancementRequirements (group result) cost ∧
      (if isTargetPlan
       then targetPlan result' = addEnhancementRequirements (targetPlan result) cost
       else previousPlans result' !! planId =
            Some (addEnhancementRequirements
                    (default _instantiateEnhancementRequirements
                             (previousPlans result !! planId)) cost))) ∧
  (∀ gameServantMap masterAccount masterServant gameServant optionsOverride
     idA flagsA costumesA directiveA idB flagsB costumesB directiveB,
      let planA := mkPlan idA flagsA [directiveA] costumesA in
      let planB := mkPlan idB flagsB [directiveB] costumesB in
      let options := match optionsOverride with
                     | Some o => o
                     | None => _parseComputationOptions flagsB
                     end in
      ps_enabled_servant directiveA = true →
      ps_enabled_servant directiveB = true →
      ps_instanceId directiveB = ps_instanceId directiveA →
      mad_servants (_preProcessMasterAccount masterAccount) !! ps_instanceId directiveA
        = Some masterServant →
      gameServantMap !! ms_gameId masterServant = Some gameServant →
      targetPlan (computePlanRequirements gameServantMap masterAccount planB
                    (Some [planA]) optionsOverride) =
      _computeServantEnhancementRequirements gameServant
        (ps_enhancements directiveA) (toReadonlySet (ma_costumes masterAccount))
        (ps_enhancements directiveB) (Some (toReadonlySet costumesB))
        (Some (_mergeComputationOptions options
                 (_parseComputationOptions (ps_enabled directiveB))))) ∧
  (∀ gameServant baseline currentCostumes tgt targetCostumes options itemId,
      itemAmount KAscensions
        (_computeServantEnhancementRequirements gameServant baseline currentCostumes
           tgt targetCostumes (Some options)) itemId =
      if truthy (includeAscensions options) then
        match ascension tgt, ascensionMaterials gameServant with
        | Some targetAscension, Some table =>
            sumOver (λ L step,
                       if (orZero (ascension baseline) <? L) && (L <=? targetAscension)
                       then quantityOf step itemId else 0) table
        | _, _ => 0
        end
      else 0) ∧
  (let result := computePlanRequirements Sample.catalog Sample.account Sample.planB
                   (Some [Sample.planA]) None in
   qp <$> previousPlans result !! "A"%string = Some 11 ∧
   qp (targetPlan result) = 1100 ∧
   qp (group result) = 1111 ∧
   (∀ itemId, itemAmount KAscensions (targetPlan result) itemId =
              if decide (itemId = 7101) then 12 else 0) ∧
   (current <$> servants result !! 1) = Some (ps_enhancements (Sample.directive Sample.allOn 2 9))).
Proof.
  split_and!.
  - intros g mad pid tc o isT result ps ms gs He Hm Hg id result' baseline cost.
    subst result'. rewrite (step_resolved g mad pid tc o isT result ps ms gs He Hm Hg).
    cbn [servants group targetPlan previousPlans].
    split_and!.
    + eexists. rewrite lookup_insert_eq. split; [reflexivity|]. split; reflexivity.
    + reflexivity.
    + destruct isT; [reflexivity|]. by rewrite lookup_insert_eq.
  - intros g acct ms gs oo idA fA cA psA idB fB cB psB planA planB options
           HeA HeB Hid Hm Hg.
    by destruct (two_plan_chain g acct ms gs oo idA fA cA psA idB fB cB psB
                   HeA HeB Hid Hm Hg) as (_ & Htarget & _).
  - intros gs baseline cc tgt tc o i. rewrite servant_amount.
    cbn [default from_option id].
    change (keyWeight KSkills KAscensions) with 0.
    change (keyWeight KAppendSkills KAscensions) with 0.
    change (keyWeight KAscensions KAscensions) with 1.
    change (keyWeight KCostumes KAscensions) with 0.
    unfold axisOn at 3. unfold ascensionAmount, ascensionCharged.
    destruct (truthy (includeAscensions o)); lia.
  - cbv zeta. split_and!; try (vm_compute; reflexivity).
    intros itemId. unfold itemAmount.
    assert (Hitems : items (targetPlan (computePlanRequirements Sample.catalog
               Sample.account Sample.planB (Some [Sample.planA]) None)) =
             {[ 7101 := mkItemReq 12 0 0 0 12 ]}) by (vm_compute; reflexivity).
    rewrite Hitems. case_decide as Hid.
    + subst. by rewrite lookup_singleton_eq.
    + by rewrite lookup_singleton_ne.
Qed.

Lemma chain_baseline_promotion_witness :
  let result :=
    computePlanRequirements Sample.catalog Sample.account Sample.planA None None in
  let result' :=
    computePlanServantStep Sample.catalog (_preProcessMasterAccount Sample.account)
      "B" ∅ (_parseComputationOptions Sample.allOn) true result
      (Sample.directive Sample.allOn 4 9) in
  (∃ entry, servants result' !! 1 = Some entry ∧
            current entry = ps_enhancements (Sample.directive Sample.allOn 2 9) ∧
            target entry = ps_enhancements (Sample.directive Sample.allOn 4 9)) ∧
  qp (group result') = 1111 ∧
  targetPlan (computePlanRequirements Sample.catalog Sample.account Sample.planB
                (Some [Sample.planA]) None) =
  _computeServantEnhancementRequirements Sample.gameServant
    (ps_enhancements (Sample.directive Sample.allOn 2 9)) ∅
    (ps_enhancements (Sample.directive Sample.allOn 4 9)) (Some ∅)
    (Some (_mergeComputationOptions (_parseComputationOptions Sample.allOn)
             (_parseComputationOptions Sample.allOn))).
Proof.
  cbv zeta.
  assert (Htwo := proj1 (proj2 chain_baseline_promotion) Sample.catalog Sample.account
            Sample.masterServant Sample.gameServant None
            "A"%string Sample.allOn [] (Sample.directive Sample.allOn 2 9)
            "B"%string Sample.allOn [] (Sample.directive Sample.allOn 4 9)
            eq_refl eq_refl eq_refl eq_refl eq_refl).
  destruct (proj1 chain_baseline_promotion Sample.catalog
              (_preProcessMasterAccount Sample.account) "B"%string ∅
              (_parseComputationOptions Sample.allOn) true
              (computePlanRequirements Sample.catalog Sample.account Sample.planA
                 None None)
              (Sample.directive Sample.allOn 4 9) Sample.masterServant
              Sample.gameServant eq_refl eq_refl eq_refl) as (Hentry & Hgroup & _).
  split_and!.
  - exact Hentry.
  - vm_compute. reflexivity.
  - exact Htwo.
Defined.

(** ** Missing reference data *)

Section Missing.


End Missing.

(** ** Missing reference data at run time

    The catalog as it arrives ([Runtime]): a game servant may lack a
    table. *)

Section RuntimeCatalog.

Implicit Types (gameServant : Runtime.GameServant).




Lemma forEach_None {A S} (body : S → A → option S) (l : list A) :
  Runtime.forEach body None l = None.
Proof. unfold Runtime.forEach. induction l as [|x l IH]; [done|]. simpl. apply IH. Qed.










End RuntimeCatalog.




(** ** The source of the plan-level options *)

Lemma computePlanRequirements_setPlanEnabled flags result gameServantMap
    masterAccountData plan options isTargetPlan :
  _computePlanRequirements result gameServantMap masterAccountData
    (setPlanEnabled flags plan) options isTargetPlan =
  _computePlanRequirements result gameServantMap masterAccountData plan options
    isTargetPlan.
Proof. reflexivity. Qed.

(** C10: without an options override the plan-level options are those parsed
    from the target plan's flags, for the preceding plans as for the target
    plan; the plan-level flags of a preceding plan are never read, so that
    replacing them by any others gives the same result. *)
Theorem plan_level_options_from_target :
  ∀ gameServantMap masterAccount targetPlan precedingPlans,
    (let options := _parseComputationOptions (plan_enabled targetPlan) in
     let masterAccountData := _preProcessMasterAccount masterAccount in
     computePlanRequirements gameServantMap masterAccount targetPlan
       precedingPlans None =
     _computePlanRequirements
       (foldl (λ result plan,
                 _computePlanRequirements result gameServantMap masterAccountData
                   plan options false)
              _instantiatePlanRequirements (default [] precedingPlans))
       gameServantMap masterAccountData targetPlan options true) ∧
    (∀ flags : Plan → EnabledAxes,
        computePlanRequirements gameServantMap masterAccount targetPlan
          (map (setPlanEnabled flags) <$> precedingPlans) None =
        computePlanRequirements gameServantMap masterAccount targetPlan
          precedingPlans None) ∧
    (let bucket (target preceding : Plan) :=
       qp <$> previousPlans
                (computePlanRequirements Sample.catalog Sample.account target
                   (Some [preceding]) None) !! plan_id preceding in
     bucket Sample.planB Sample.lorePlan = Some 3000000 ∧
     bucket Sample.planB (setPlanEnabled (λ _, Sample.allOff) Sample.lorePlan) =
       Some 3000000 ∧
     bucket (setPlanEnabled (λ _, Sample.allOff) Sample.planB) Sample.lorePlan =
       Some 0 ∧
     bucket Sample.planB Sample.unitSkillsOff = Some 0).
Proof.
  intros g acct tp prev. split; [reflexivity|]. split;
    [|cbv zeta; split_and!; vm_compute; reflexivity].
  intros flags. unfold computePlanRequirements. cbv zeta. f_equal.
  destruct prev as [prev|]; [|reflexivity]. cbn [fmap option_fmap option_map default from_option id].
  generalize _instantiatePlanRequirements.
  induction prev as [|p l IH]; intros r; [reflexivity|].
  cbn [map foldl]. rewrite computePlanRequirements_setPlanEnabled. apply IH.
Qed.

(** ** Merging the options *)

Section Merge.

Implicit Types (a b : ComputationOptions).

Lemma truthy_js_and x y : truthy (js_and x y) = truthy x && truthy y.
Proof. unfold js_and. destruct x as [[]|], y as [[]|]; reflexivity. Qed.

(** The skill, append skill and costume axes are on after the merge
    exactly when they are on in both sources. *)
Lemma merge_and_axes a b :
  truthy (includeSkills (_mergeComputationOptions a b)) =
    truthy (includeSkills a) && truthy (includeSkills b) ∧
  truthy (includeAppendSkills (_mergeComputationOptions a b)) =
    truthy (includeAppendSkills a) && truthy (includeAppendSkills b) ∧
  truthy (includeCostumes (_mergeComputationOptions a b)) =
    truthy (includeCostumes a) && truthy (includeCostumes b).
Proof. split_and!; apply truthy_js_and. Qed.

(** The ascension axis after the merge is that of the first source. *)
Lemma merge_ascensions_first a b :
  truthy (includeAscensions (_mergeComputationOptions a b)) =
  truthy (includeAscensions a).
Proof.
  unfold _mergeComputationOptions. cbn [includeAscensions].
  rewrite truthy_js_and. apply andb_diag.
Qed.

(** Merged with options parsed from a directive, [excludeLores] is never
    set. *)
Lemma merge_parsed_excludeLores a enabled :
  truthy (excludeLores (_mergeComputationOptions a (_parseComputationOptions enabled)))
  = false.
Proof.
  unfold _mergeComputationOptions. cbn [excludeLores _parseComputationOptions].
  rewrite truthy_js_and. apply andb_false_r.
Qed.

(** Merged with the same plan-level options, a directive gets the same
    options whatever its own ascension flag. *)
Lemma merge_unit_ascension_irrelevant a flag ps :
  _mergeComputationOptions a (_parseComputationOptions (ps_enabled (setUnitAscensions flag ps))) =
  _mergeComputationOptions a (_parseComputationOptions (ps_enabled ps)).
Proof. reflexivity. Qed.

End Merge.

Section Irrelevant.

Lemma foldl_pointwise {A B} (f g : A → B → A) (a : A) (l : list B) :
  (∀ a x, f a x = g a x) → foldl f a l = foldl g a l.
Proof.
  intros Hfg. revert a. induction l as [|x l IH]; intros a; [done|].
  cbn. by rewrite Hfg, IH.
Qed.

Lemma step_unit_ascension_irrelevant g mad planId tc o isTargetPlan result flag ps :
  computePlanServantStep g mad planId tc o isTargetPlan result (setUnitAscensions flag ps) =
  computePlanServantStep g mad planId tc o isTargetPlan result ps.
Proof. reflexivity. Qed.

Lemma walk_unit_ascensions_irrelevant g masterAccount targetPlan previousPlans
    optionsOverride flag :
  computePlanRequirements g masterAccount
    (mapDirectives (setUnitAscensions flag) targetPlan)
    (map (mapDirectives (setUnitAscensions flag)) <$> previousPlans) optionsOverride =
  computePlanRequirements g masterAccount targetPlan previousPlans optionsOverride.
Proof.
  unfold computePlanRequirements. cbv zeta.
  assert (Hplan : ∀ r plan o isT,
    _computePlanRequirements r g (_preProcessMasterAccount masterAccount)
      (mapDirectives (setUnitAscensions flag) plan) o isT =
    _computePlanRequirements r g (_preProcessMasterAccount masterAccount) plan o isT).
  { intros r plan o isT. unfold _computePlanRequirements, mapDirectives.
    cbn [plan_servants plan_id plan_costumes]. rewrite foldl_fmap.
    apply foldl_pointwise. intros. apply step_unit_ascension_irrelevant. }
  cbn [plan_enabled mapDirectives]. rewrite Hplan. f_equal.
  destruct previousPlans as [plans|]; [|done].
  cbn [fmap option_fmap option_map default from_option id].
  rewrite foldl_fmap. apply foldl_pointwise. intros. apply Hplan.
Qed.

(** The cost of a servant depends on [excludeLores] through its truth value
    only. *)
Lemma servant_excludeLores_truthy gs cur cc tgt tc o x :
  truthy x = truthy (excludeLores o) →
  _computeServantEnhancementRequirements gs cur cc tgt tc (Some (setExcludeLores x o)) =
  _computeServantEnhancementRequirements gs cur cc tgt tc (Some o).
Proof.
  intros Hx. unfold _computeServantEnhancementRequirements, _updateResultForSkills.
  cbn [default from_option id setExcludeLores includeAscensions includeSkills
       includeAppendSkills includeCostumes excludeLores].
  assert (Hstep : ∀ c t ty L e r,
    updateForSkillLevel c t ty x L e r = updateForSkillLevel c t ty (excludeLores o) L e r).
  { intros. unfold updateForSkillLevel. by rewrite Hx. }
  assert (Hloop : ∀ c t ty r (m : gmap Z GameServantEnhancement),
    map_fold (updateForSkillLevel c t ty x) r m =
    map_fold (updateForSkillLevel c t ty (excludeLores o)) r m).
  { intros. rewrite !map_fold_foldr. apply foldr_ext; [|done..].
    intros [k v] r'. apply Hstep. }
  by rewrite !Hloop.
Qed.

Lemma step_override_excludeLores_irrelevant g mad planId tc o isTargetPlan result ps x :
  computePlanServantStep g mad planId tc (setExcludeLores x o) isTargetPlan result ps =
  computePlanServantStep g mad planId tc o isTargetPlan result ps.
Proof.
  unfold computePlanServantStep, _computePlanServantRequirements.
  destruct (negb _); [done|]. destruct (_ !! _) as [ms|]; [|done].
  destruct (_ !! _) as [gs|]; [|done].
  set (so := _parseComputationOptions (ps_enabled ps)).
  assert (Hm : _mergeComputationOptions (setExcludeLores x o) so =
               setExcludeLores (js_and x None) (_mergeComputationOptions o so)) by done.
  rewrite Hm. cbv zeta.
  rewrite servant_excludeLores_truthy; [done|].
  unfold so. rewrite merge_parsed_excludeLores, truthy_js_and. apply andb_false_r.
Qed.

Lemma walk_override_excludeLores_irrelevant g masterAccount targetPlan previousPlans o x :
  computePlanRequirements g masterAccount targetPlan previousPlans
    (Some (setExcludeLores x o)) =
  computePlanRequirements g masterAccount targetPlan previousPlans (Some o).
Proof.
  unfold computePlanRequirements. cbv zeta.
  assert (Hplan : ∀ r plan isT,
    _computePlanRequirements r g (_preProcessMasterAccount masterAccount) plan
      (setExcludeLores x o) isT =
    _computePlanRequirements r g (_preProcessMasterAccount masterAccount) plan o isT).
  { intros r plan isT. unfold _computePlanRequirements.
    apply foldl_pointwise. intros. apply step_override_excludeLores_irrelevant. }
  rewrite Hplan. f_equal. apply foldl_pointwise. intros. apply Hplan.
Qed.

End Irrelevant.

(** C2, at the failing input: the plan enables every axis and the directive
    of instance 1 disables its ascension axis, with live ascension 0 and
    target ascension 2.  The merged options keep the ascension axis on (the
    merge reads the plan-level flag twice and the unit-level flag never), and
    the ascension levels 1 and 2 are charged, while the skill, append skill
    and costume axes are merged by a logical and.  In general the unit-level
    ascension flags have no effect: replacing them in every directive of
    every plan gives the same result.  The skill axis disabled on the
    directive in the same way is not charged. *)
Theorem unit_ascension_flag_not_merged :
  (∀ a b, truthy (includeAscensions (_mergeComputationOptions a b)) =
          truthy (includeAscensions a)) ∧
  (∀ a b,
      truthy (includeSkills (_mergeComputationOptions a b)) =
        truthy (includeSkills a) && truthy (includeSkills b) ∧
      truthy (includeAppendSkills (_mergeComputationOptions a b)) =
        truthy (includeAppendSkills a) && truthy (includeAppendSkills b) ∧
      truthy (includeCostumes (_mergeComputationOptions a b)) =
        truthy (includeCostumes a) && truthy (includeCostumes b)) ∧
  (∀ gameServantMap masterAccount targetPlan precedingPlans optionsOverride
     (flag : PlanServant → bool),
      computePlanRequirements gameServantMap masterAccount
        (mapDirectives (setUnitAscensions flag) targetPlan)
        (map (mapDirectives (setUnitAscensions flag)) <$> precedingPlans)
        optionsOverride =
      computePlanRequirements gameServantMap masterAccount targetPlan
        precedingPlans optionsOverride) ∧
  (let result := computePlanRequirements Sample.catalog Sample.account
                   Sample.unitAscensionOff None None in
   qp (targetPlan result) = 11 ∧
   itemAmount KAscensions (targetPlan result) 7001 = 12 ∧
   itemAmount KTotal (group result) 7001 = 12) ∧
  (let result := computePlanRequirements Sample.catalog Sample.account
                   Sample.unitSkillsOff None None in
   targetPlan result = _instantiateEnhancementRequirements).
Proof.
  cbv zeta. split_and!; try apply merge_ascensions_first;
    try apply merge_and_axes;
    try apply walk_unit_ascensions_irrelevant; vm_compute; reflexivity.
Qed.

(** In a chain of two plans for the same instance, each plan is charged the
    costumes of its own target set that the account has not unlocked: the
    costumes charged to plan A are not taken off plan B, and the group holds
    both charges. *)
Lemma costumes_charged_per_plan gameServantMap masterAccount masterServant
    gameServant optionsOverride idA flagsA costumesA directiveA idB flagsB costumesB
    directiveB itemId :
  let planA := mkPlan idA flagsA [directiveA] costumesA in
  let planB := mkPlan idB flagsB [directiveB] costumesB in
  let options := match optionsOverride with
                 | Some o => o
                 | None => _parseComputationOptions flagsB
                 end in
  let unlocked := toReadonlySet (ma_costumes masterAccount) in
  let charged (directive : PlanServant) (targeted : list Z) :=
    axisOn (includeCostumes
              (_mergeComputationOptions options
                 (_parseComputationOptions (ps_enabled directive))))
           (costumesAmount unlocked (Some (toReadonlySet targeted))
              (gs_costumes gameServant) itemId) in
  ps_enabled_servant directiveA = true →
  ps_enabled_servant directiveB = true →
  ps_instanceId directiveB = ps_instanceId directiveA →
  mad_servants (_preProcessMasterAccount masterAccount) !! ps_instanceId directiveA
    = Some masterServant →
  gameServantMap !! ms_gameId masterServant = Some gameServant →
  itemAmount KCostumes
    (group (computePlanRequirements gameServantMap masterAccount planB
              (Some [planA]) optionsOverride)) itemId =
  charged directiveA costumesA + charged directiveB costumesB.
Proof.
  intros planA planB options unlocked charged HeA HeB Hid Hm Hg.
  destruct (two_plan_chain gameServantMap masterAccount masterServant gameServant
              optionsOverride idA flagsA costumesA directiveA idB flagsB costumesB
              directiveB HeA HeB Hid Hm Hg) as (_ & _ & Hgroup).
  subst planA planB. rewrite Hgroup.
  rewrite itemAmount_add, !servant_amount.
  cbn [default from_option id].
  change (keyWeight KSkills KCostumes) with 0.
  change (keyWeight KAppendSkills KCostumes) with 0.
  change (keyWeight KAscensions KCostumes) with 0.
  change (keyWeight KCostumes KCostumes) with 1.
  unfold charged, unlocked, options. lia.
Qed.

(** C6, at the failing input: plans A and B of one chain both target the
    costume 55, which the account has not unlocked.  The costume is charged
    to plan A and again to plan B, and the group total holds its cost
    twice. *)
Theorem costume_charged_by_each_plan :
  let once := computePlanRequirements Sample.catalog Sample.account
                Sample.costumePlanA None None in
  let result := computePlanRequirements Sample.catalog Sample.account
                  Sample.costumePlanB (Some [Sample.costumePlanA]) None in
  qp (group once) = 10000 ∧
  itemAmount KCostumes (group once) 6505 = 5 ∧
  qp <$> previousPlans result !! "A"%string = Some 10000 ∧
  qp (targetPlan result) = 10000 ∧
  qp (group result) = 20000 ∧
  itemAmount KCostumes (group result) 6505 = 10 ∧
  itemAmount KTotal (group result) 6505 = 10.
Proof. cbv zeta. split_and!; vm_compute; reflexivity. Qed.

(** ** Excluding lores *)

Section Lores.

(** With [excludeLores] set the loop over a skill table ignores the lore
    level: the table without that level gives the same result. *)
Lemma lore_level_ignored result table cur tgt ty excl :
  truthy excl = true →
  _updateResultForSkills result table cur tgt ty excl =
  _updateResultForSkills result (delete (MaxSkillLevel - 1) table) cur tgt ty excl.
Proof.
  intros He. unfold _updateResultForSkills.
  destruct (table !! (MaxSkillLevel - 1)) as [e|] eqn:Hk; [|by rewrite delete_id].
  rewrite <- (insert_delete_id table (MaxSkillLevel - 1) e) at 1 by done.
  rewrite map_fold_insert_L.
  - unfold updateForSkillLevel at 1. by rewrite He, Z.eqb_refl.
  - intros. apply updateForSkillLevel_comm.
  - apply lookup_delete_eq.
Qed.

Lemma servant_lore_level_ignored gameServant cur cc tgt tc o :
  truthy (excludeLores o) = true →
  _computeServantEnhancementRequirements gameServant cur cc tgt tc (Some o) =
  _computeServantEnhancementRequirements (withoutLoreLevel gameServant) cur cc tgt tc
    (Some o).
Proof.
  intros He. unfold _computeServantEnhancementRequirements, withoutLoreLevel.
  cbn [default from_option id skillMaterials appendSkillMaterials ascensionMaterials
       gs_costumes].
  rewrite <- !lore_level_ignored by done. reflexivity.
Qed.

End Lores.

(** C7, at the failing input: the three skills go from level 9 to level 10
    and the options override sets [excludeLores].  Passed directly to
    [computeServantEnhancementRequirements] the option removes the lore step
    (the result is that of the catalog without the lore level): nothing is
    charged.  Passed as the override of
    [computePlanRequirements] it is merged with the options parsed from the
    directive, which have no [excludeLores], and is lost: the merged
    [excludeLores] is never set, any [excludeLores] in the override gives the
    same result, and the three lore steps are charged. *)
Theorem excludeLores_lost_in_plan_merge :
  (∀ a enabled,
      truthy (excludeLores (_mergeComputationOptions a (_parseComputationOptions enabled)))
      = false) ∧
  (∀ gameServantMap masterAccount targetPlan precedingPlans options x,
      computePlanRequirements gameServantMap masterAccount targetPlan precedingPlans
        (Some (setExcludeLores x options)) =
      computePlanRequirements gameServantMap masterAccount targetPlan precedingPlans
        (Some options)) ∧
  (∀ gameServant currentEnhancements currentCostumes options,
      computeServantEnhancementRequirements gameServant currentEnhancements
        currentCostumes (Some (setExcludeLores (Some true) options)) =
      computeServantEnhancementRequirements (withoutLoreLevel gameServant)
        currentEnhancements currentCostumes
        (Some (setExcludeLores (Some true) options))) ∧
  computeServantEnhancementRequirements Sample.gameServant
    (mkEnh (Some 4) (Sample.levels 9 9 9) (Sample.levels 10 10 10)) [55]
    (Some Sample.loresExcluded) = _instantiateEnhancementRequirements ∧
  qp (computeServantEnhancementRequirements Sample.gameServant
        (mkEnh (Some 4) (Sample.levels 9 9 9) (Sample.levels 10 10 10)) [55]
        None) = 3000000 ∧
  (let result := computePlanRequirements Sample.catalog Sample.account
                   Sample.lorePlan None (Some Sample.loresExcluded) in
   result = computePlanRequirements Sample.catalog Sample.account
              Sample.lorePlan None (Some Sample.loresIncluded) ∧
   qp (targetPlan result) = 3000000 ∧
   itemAmount KSkills (targetPlan result) 6999 = 3).
Proof.
  cbv zeta. split_and!; try apply merge_parsed_excludeLores;
    try apply walk_override_excludeLores_irrelevant;
    try (intros; by apply servant_lore_level_ignored);
    vm_compute; reflexivity.
Qed.

(** ** The store: what a call leaves untouched *)

Section StoreInvariant.

Import Store.

Implicit Types (h : heap) (l r : loc) (c : cell).

Lemma keeps_refl h : keeps h h.
Proof.
  split; [by intros l c|]. intros l c r Hl Hnone. congruence.
Qed.

Lemma alloc_fresh h c : h !! (alloc h c).2 = None.
Proof. unfold alloc. cbn [snd]. apply not_elem_of_dom, is_fresh. Qed.

Lemma preserved_fresh (h0 : heap) h l : preserved h0 h → h !! l = None → h0 !! l = None.
Proof.
  intros Hp Hl. destruct (h0 !! l) as [c|] eqn:H0; [|done].
  apply Hp in H0. congruence.
Qed.

Lemma keeps_write (h0 : heap) h l c :
  keeps h0 h → h0 !! l = None → (∀ r, refersTo c r → h0 !! r = None) →
  keeps h0 (<[l := c]> h).
Proof.
  intros [Hp Hc] Hl Hrefs. split.
  - intros l' c' H0. rewrite lookup_insert_ne by congruence. by apply Hp.
  - intros l' c' r Hl' Hnew Hr. destruct (decide (l = l')) as [->|Hne].
    + rewrite lookup_insert_eq in Hl'. simplify_eq. by apply Hrefs.
    + rewrite lookup_insert_ne in Hl' by done. by eapply Hc.
Qed.

Lemma keeps_alloc (h0 : heap) h c :
  keeps h0 h → (∀ r, refersTo c r → h0 !! r = None) →
  keeps h0 (alloc h c).1 ∧ h0 !! (alloc h c).2 = None.
Proof.
  intros Hk Hrefs.
  assert (Hnew : h0 !! (alloc h c).2 = None).
  { eapply preserved_fresh; [apply Hk|apply alloc_fresh]. }
  split; [|done]. by apply keeps_write.
Qed.

Lemma keeps_alloc_leaf (h0 : heap) h c :
  keeps h0 h → (∀ r, ¬ refersTo c r) →
  keeps h0 (alloc h c).1 ∧ h0 !! (alloc h c).2 = None.
Proof. intros Hk Hleaf. apply keeps_alloc; [done|]. intros r Hr. by apply Hleaf in Hr. Qed.

Lemma keeps_instantiateRequirements (h0 : heap) h :
  keeps h0 h →
  keeps h0 (instantiateRequirements h).1 ∧ h0 !! (instantiateRequirements h).2 = None.
Proof.
  intros Hk. unfold instantiateRequirements.
  destruct (keeps_alloc_leaf h0 h (CEmbers (mkEmbers 0 0 0 0 0)) Hk) as [Hk1 He];
    [intros ? []|].
  destruct (alloc h _) as [h1 e]. cbn [fst snd] in *.
  destruct (keeps_alloc h0 h1 (CItemTable ∅) Hk1) as [Hk2 Hi].
  { intros r [itemId Hr]. by rewrite lookup_empty in Hr. }
  destruct (alloc h1 _) as [h2 i]. cbn [fst snd] in *.
  apply keeps_alloc; [done|]. by intros r [->| ->].
Qed.

Lemma keeps_addItemEntryAt (h0 : heap) h targetItems itemId value :
  keeps h0 h → h0 !! targetItems = None →
  keeps h0 (addItemEntryAt targetItems itemId value h).
Proof.
  intros Hk Hti. unfold addItemEntryAt.
  destruct (h !! targetItems) as [[]|] eqn:Ht; try done.
  destruct (h !! value) as [[]|] eqn:Hv; try done.
  assert (Hentries : ∀ k r, entries !! k = Some r → h0 !! r = None).
  { intros k r' Hr. eapply (proj2 Hk); [exact Ht|done|]. by exists k. }
  destruct (entries !! itemId) as [entry|] eqn:He.
  - destruct (h !! entry) as [[]|] eqn:Hen; try done.
    apply keeps_write; [done|by eapply Hentries|intros ? []].
  - destruct (keeps_alloc_leaf h0 h (CItemReq r) Hk) as [Hk1 Hcopy]; [intros ? []|].
    destruct (alloc h _) as [h1 copy]. cbn [fst snd] in *.
    apply keeps_write; [done|done|].
    intros r' [k Hr]. destruct (decide (itemId = k)) as [->|Hne].
    + rewrite lookup_insert_eq in Hr. by simplify_eq.
    + rewrite lookup_insert_ne in Hr by done. by eapply Hentries.
Qed.

Lemma keeps_addEnhancementRequirementsAt (h0 : heap) h tgt source :
  keeps h0 h → h0 !! tgt = None →
  keeps h0 (addEnhancementRequirementsAt h tgt source).
Proof.
  intros Hk Ht. unfold addEnhancementRequirementsAt.
  destruct (h !! tgt) as [[]|] eqn:Htgt; try done.
  destruct (h !! source) as [[]|] eqn:Hsrc; try done.
  assert (He : h0 !! embersRef = None).
  { eapply (proj2 Hk); [exact Htgt|done|]. by left. }
  assert (Hi : h0 !! itemsRef = None).
  { eapply (proj2 Hk); [exact Htgt|done|]. by right. }
  destruct (h !! embersRef) as [[]|] eqn:Hte; try done.
  destruct (h !! embersRef0) as [[]|] eqn:Hse; try done.
  destruct (h !! itemsRef0) as [[]|] eqn:Hsi; try done.
  cbv zeta.
  assert (Hloop : keeps h0 (map_fold (addItemEntryAt itemsRef)
            (<[embersRef := CEmbers (addEmbers e e0)]> h) entries)).
  { apply (map_fold_weak_ind (λ hcur _, keeps h0 hcur)).
    - apply keeps_write; [done|done|intros ? []].
    - intros k v m hcur _ IH. by apply keeps_addItemEntryAt. }
  set (h' := map_fold _ _ _) in *.
  destruct (h' !! tgt) as [[]|] eqn:Htgt'; try done.
  destruct (h' !! source) as [[]|] eqn:Hsrc'; try done.
  apply keeps_write; [done|done|].
  intros r' Hr. eapply (proj2 Hloop); [exact Htgt'|done|exact Hr].
Qed.

Lemma keeps_allocRequirements (h0 : heap) h v :
  keeps h0 h →
  keeps h0 (allocRequirements h v).1 ∧ h0 !! (allocRequirements h v).2 = None.
Proof.
  intros Hk. unfold allocRequirements.
  destruct (keeps_alloc_leaf h0 h (CEmbers (embers v)) Hk) as [Hk1 He]; [intros ? []|].
  destruct (alloc h _) as [h1 e]. cbn [fst snd] in *.
  assert (Hloop : keeps h0 (map_fold allocItem (h1, ∅) (items v)).1 ∧
                  ∀ k r, (map_fold allocItem (h1, ∅) (items v)).2 !! k = Some r →
                         h0 !! r = None).
  { apply (map_fold_weak_ind (λ acc _, keeps h0 acc.1 ∧
             ∀ k r, acc.2 !! k = Some r → h0 !! r = None)).
    - cbn [fst snd]. split; [done|]. intros k r Hr. by rewrite lookup_empty in Hr.
    - intros k x m [hcur tab] _ [IH1 IH2]. unfold allocItem. cbn [fst snd] in *.
      destruct (keeps_alloc_leaf h0 hcur (CItemReq x) IH1) as [Hk2 Hl]; [intros ? []|].
      destruct (alloc hcur _) as [h2 l]. cbn [fst snd] in *.
      split; [done|]. intros k' r Hr. destruct (decide (k = k')) as [->|Hne].
      + rewrite lookup_insert_eq in Hr. by simplify_eq.
      + rewrite lookup_insert_ne in Hr by done. by eapply IH2. }
  destruct (map_fold allocItem _ _) as [h2 entries]. cbn [fst snd] in *.
  destruct Hloop as [Hk2 Hentries].
  destruct (keeps_alloc h0 h2 (CItemTable entries) Hk2) as [Hk3 Hi].
  { intros r [k Hr]. by eapply Hentries. }
  destruct (alloc h2 _) as [h3 i]. cbn [fst snd] in *.
  apply keeps_alloc; [done|]. by intros r [->| ->].
Qed.

Lemma keeps_updateEnhancementsAt (h0 : heap) h tgt source :
  keeps h0 h → h0 !! tgt = None → keeps h0 (updateEnhancementsAt h tgt source).
Proof.
  intros Hk Ht. unfold updateEnhancementsAt.
  destruct (h !! tgt) as [[]|]; try done.
  destruct (readEnhancements h source); [|done].
  apply keeps_write; [done|done|intros ? []].
Qed.

Lemma keeps_cloneEnhancementsAt (h0 : heap) h source :
  keeps h0 h →
  keeps h0 (cloneEnhancementsAt h source).1 ∧ h0 !! (cloneEnhancementsAt h source).2 = None.
Proof.
  intros Hk. unfold cloneEnhancementsAt.
  destruct (keeps_alloc_leaf h0 h (CEnhancements instantiateEnhancements) Hk)
    as [Hk1 Hl]; [intros ? []|].
  destruct (alloc h _) as [h1 l]. cbn [fst snd] in *.
  split; [|done]. by apply keeps_updateEnhancementsAt.
Qed.

End StoreInvariant.

Section StoreWalk.

Import Store.

Implicit Types (h : heap) (result : PlanRequirementsRef).

Lemma keeps_instantiatePlanServantRequirementsAt (h0 : heap) h instanceId planServant
    masterServant :
  keeps h0 h →
  let out := instantiatePlanServantRequirementsAt h instanceId planServant masterServant in
  keeps h0 out.1 ∧ h0 !! psrr_current out.2 = None ∧
  h0 !! psrr_target out.2 = None ∧ h0 !! psrr_requirements out.2 = None.
Proof.
  intros Hk. unfold instantiatePlanServantRequirementsAt.
  destruct (keeps_alloc_leaf h0 h (CEnhancements instantiateEnhancements) Hk)
    as [Hk1 Hc]; [intros ? []|].
  destruct (alloc h _) as [h1 cur]. cbn [fst snd] in *.
  assert (Hk2 := keeps_updateEnhancementsAt h0 h1 cur masterServant Hk1 Hc).
  destruct (keeps_cloneEnhancementsAt h0 _ planServant Hk2) as [Hk3 Ht].
  destruct (cloneEnhancementsAt _ _) as [h3 tgt]. cbn [fst snd] in *.
  destruct (keeps_instantiateRequirements h0 h3 Hk3) as [Hk4 Hr].
  destruct (instantiateRequirements h3) as [h4 req]. cbn [fst snd] in *.
  done.
Qed.

Lemma resultNew_insert_servant (h0 : heap) result instanceId psr :
  resultNew h0 result →
  h0 !! psrr_current psr = None → h0 !! psrr_target psr = None →
  h0 !! psrr_requirements psr = None →
  resultNew h0 (mkPlanReqRef (<[instanceId := psr]> (prr_servants result))
                  (prr_targetPlan result) (prr_previousPlans result)
                  (prr_group result)).
Proof.
  intros (Htp & Hg & Hprev & Hs) Hc Ht Hr. split_and!; try done.
  intros id psr' Hl. cbn [prr_servants] in Hl.
  destruct (decide (instanceId = id)) as [->|Hne].
  - rewrite lookup_insert_eq in Hl. by simplify_eq.
  - rewrite lookup_insert_ne in Hl by done. by eapply Hs.
Qed.

Lemma keeps_computePlanServantRequirementsAt (h0 : heap) h result gameServant
    masterServant planServant instanceId currentCostumes targetCostumes options :
  keeps h0 h → resultNew h0 result →
  let out := computePlanServantRequirementsAt h result gameServant masterServant
               planServant instanceId currentCostumes targetCostumes options in
  keeps h0 out.1.1 ∧ resultNew h0 out.1.2 ∧
  h0 !! psrr_requirements out.2.1 = None.
Proof.
  intros Hk Hnew. unfold computePlanServantRequirementsAt.
  assert (Hentry :
    let entry :=
      match prr_servants result !! instanceId with
      | Some psr =>
          (updateEnhancementsAt
             (updateEnhancementsAt h (psrr_current psr) (psrr_target psr))
             (psrr_target psr) planServant, psr)
      | None =>
          instantiatePlanServantRequirementsAt h instanceId planServant masterServant
      end in
    keeps h0 entry.1 ∧ h0 !! psrr_current entry.2 = None ∧
    h0 !! psrr_target entry.2 = None ∧ h0 !! psrr_requirements entry.2 = None).
  { destruct (prr_servants result !! instanceId) as [psr|] eqn:Hs.
    - destruct Hnew as (_ & _ & _ & Hservants).
      destruct (Hservants _ _ Hs) as (Hc & Ht & Hr). cbn [fst snd].
      split_and!; try done.
      apply keeps_updateEnhancementsAt; [|done].
      by apply keeps_updateEnhancementsAt.
    - by apply keeps_instantiatePlanServantRequirementsAt. }
  cbv zeta in Hentry.
  destruct (match prr_servants result !! instanceId with
            | Some _ => _ | None => _ end) as [h1 psr].
  cbn [fst snd] in Hentry. destruct Hentry as (Hk1 & Hc & Ht & Hr).
  cbv zeta.
  match goal with |- context [allocRequirements h1 ?v] =>
    destruct (keeps_allocRequirements h0 h1 v Hk1) as [Hk2 _];
    destruct (allocRequirements h1 v) as [h2 src]
  end.
  cbn [fst snd] in *. split_and!; [done| |done].
  by apply resultNew_insert_servant.
Qed.

Lemma keeps_bookDirectiveAt (h0 : heap) h result gameServant masterServant planServant
    ps currentCostumes targetCostumes planId options isTargetPlan :
  keeps h0 h → resultNew h0 result →
  let out := bookDirectiveAt h result gameServant masterServant planServant ps
               currentCostumes targetCostumes planId options isTargetPlan in
  keeps h0 out.1 ∧ resultNew h0 out.2.
Proof.
  intros Hk Hnew. unfold bookDirectiveAt. cbv zeta.
  match goal with |- context [computePlanServantRequirementsAt ?a ?b ?c ?d ?e ?f ?g ?i ?j] =>
    destruct (keeps_computePlanServantRequirementsAt h0 a b c d e f g i j Hk Hnew)
      as (Hk1 & Hnew1 & Hreq);
    destruct (computePlanServantRequirementsAt a b c d e f g i j)
      as [[h1 result1] [psr src]]
  end.
  cbn [fst snd] in *.
  destruct isTargetPlan.
  - destruct Hnew1 as (Htp & Hg & Hrest). cbn [fst snd].
    split; [|done].
    repeat apply keeps_addEnhancementRequirementsAt; done.
  - destruct (prr_previousPlans result1 !! planId) as [bucket|] eqn:Hb.
    + destruct Hnew1 as (Htp & Hg & Hprev & Hs). cbn [fst snd].
      split; [|done].
      repeat apply keeps_addEnhancementRequirementsAt; try done. by eapply Hprev.
    + destruct (keeps_instantiateRequirements h0 h1 Hk1) as [Hk2 Hbucket].
      destruct (instantiateRequirements h1) as [h2 bucket]. cbn [fst snd] in *.
      destruct Hnew1 as (Htp & Hg & Hprev & Hs).
      split.
      * repeat apply keeps_addEnhancementRequirementsAt; done.
      * split_and!; try done. intros pid l Hl. cbn [prr_previousPlans] in Hl.
        destruct (decide (planId = pid)) as [->|Hne].
        -- rewrite lookup_insert_eq in Hl. by simplify_eq.
        -- rewrite lookup_insert_ne in Hl by done. by eapply Hprev.
Qed.

Lemma keeps_computePlanServantStepAt (h0 : heap) catalog masterAccountData planId
    targetCostumes options isTargetPlan (state : heap * PlanRequirementsRef) planServant :
  keeps h0 state.1 → resultNew h0 state.2 →
  let out := computePlanServantStepAt catalog masterAccountData planId targetCostumes
               options isTargetPlan state planServant in
  keeps h0 out.1 ∧ resultNew h0 out.2.
Proof.
  destruct state as [h result]. cbn [fst snd]. intros Hk Hnew.
  unfold computePlanServantStepAt. cbv zeta.
  repeat match goal with
  | |- context [match ?x with _ => _ end] =>
      lazymatch x with
      | bookDirectiveAt _ _ _ _ _ _ _ _ _ _ _ => fail
      | _ => destruct x eqn:?
      end
  end; cbn [fst snd]; try done.
  by apply keeps_bookDirectiveAt.
Qed.

Lemma keeps_computePlanRequirementsOf (h0 : heap) (state : heap * PlanRequirementsRef)
    catalog masterAccountData plan options isTargetPlan :
  keeps h0 state.1 → resultNew h0 state.2 →
  let out := computePlanRequirementsOf state catalog masterAccountData plan options
               isTargetPlan in
  keeps h0 out.1 ∧ resultNew h0 out.2.
Proof.
  unfold computePlanRequirementsOf. cbv zeta.
  generalize (match state.1 !! pr_costumes plan with
              | Some (CIdArray ids) => toReadonlySet ids
              | _ => ∅
              end).
  intros tc. revert state.
  induction (pr_servants plan) as [|ps l IH]; intros state Hk Hnew; [done|].
  cbn [foldl]. apply IH; by apply keeps_computePlanServantStepAt.
Qed.

Lemma keeps_preProcessMasterAccountAt (h0 : heap) h masterAccount :
  keeps h0 h → keeps h0 (preProcessMasterAccountAt h masterAccount).1.
Proof.
  intros Hk. unfold preProcessMasterAccountAt. cbv zeta.
  match goal with |- context [alloc h ?c] =>
    destruct (keeps_alloc_leaf h0 h c Hk) as [Hk1 _]; [intros ? []|];
    destruct (alloc h c) as [h1 servants]
  end.
  cbn [fst snd] in *.
  match goal with |- context [alloc h1 ?c] =>
    destruct (keeps_alloc_leaf h0 h1 c Hk1) as [Hk2 _]; [intros ? []|];
    destruct (alloc h1 c) as [h2 costumes]
  end.
  done.
Qed.

Lemma keeps_computePlanRequirementsAt h catalog masterAccount targetPlan
    previousPlans optionsOverride :
  keeps h (computePlanRequirementsAt h catalog masterAccount targetPlan previousPlans
             optionsOverride).1.
Proof.
  unfold computePlanRequirementsAt, instantiatePlanRequirementsAt.
  destruct (keeps_instantiateRequirements h h (keeps_refl h)) as [Hk1 Htp].
  destruct (instantiateRequirements h) as [h1 tp]. cbn [fst snd] in *.
  destruct (keeps_instantiateRequirements h h1 Hk1) as [Hk2 Hg].
  destruct (instantiateRequirements h1) as [h2 g]. cbn [fst snd] in *.
  assert (Hk3 := keeps_preProcessMasterAccountAt h h2 masterAccount Hk2).
  destruct (preProcessMasterAccountAt h2 masterAccount) as [h3 mad]. cbn [fst snd] in *.
  cbv zeta.
  set (options := match optionsOverride with Some o => o | None => _ end).
  assert (Hnew : resultNew h (mkPlanReqRef ∅ tp ∅ g)).
  { split_and!; try done; intros k x Hx; by rewrite lookup_empty in Hx. }
  assert (Hwalk : ∀ plans (state : heap * PlanRequirementsRef),
            keeps h state.1 → resultNew h state.2 →
            let out := foldl (λ state plan,
                         computePlanRequirementsOf state catalog mad plan options false)
                         state plans in
            keeps h out.1 ∧ resultNew h out.2).
  { induction plans as [|p l IH]; intros state Hk Hn; [done|].
    cbn [foldl]. apply IH; by apply keeps_computePlanRequirementsOf. }
  destruct (Hwalk (default [] previousPlans) (h3, mkPlanReqRef ∅ tp ∅ g)) as [Hk4 Hn4];
    [done|done|].
  by apply keeps_computePlanRequirementsOf.
Qed.

End StoreWalk.

Section StoreFrame.

Import Store.

Implicit Types (h : heap).

Lemma elem_of_footprint h tgt l :
  l ∈ footprint h tgt ↔
  l = tgt ∨
  ∃ e i q, h !! tgt = Some (CReq e i q) ∧
    (l = e ∨ l = i ∨
     ∃ entries itemId, h !! i = Some (CItemTable entries) ∧ entries !! itemId = Some l).
Proof.
  unfold footprint. rewrite elem_of_union, elem_of_singleton.
  split; (intros [Hl|Hl]; [by left|right]).
  - destruct (h !! tgt) as [[]|] eqn:Ht; try by apply not_elem_of_empty in Hl.
    exists embersRef, itemsRef, q. split; [done|].
    apply elem_of_union in Hl as [Hl|Hl].
    + apply elem_of_union in Hl as [Hl|Hl]; apply elem_of_singleton in Hl; auto.
    + right. right.
      destruct (h !! itemsRef) as [[]|] eqn:Hi; try by apply not_elem_of_empty in Hl.
      apply elem_of_map_img in Hl as [k Hk]. by exists entries, k.
  - destruct Hl as (e & i & q & Ht & Hl). rewrite Ht.
    rewrite !elem_of_union, !elem_of_singleton.
    destruct Hl as [->|[->|(entries & k & Hi & Hk)]]; [by left; left|by left; right|].
    right. rewrite Hi. apply elem_of_map_img. by exists k.
Qed.

(** One iteration of the item loop writes inside a set [P] of objects that
    holds the target's item table and its entries, or to new objects. *)
Lemma addItemEntryAt_outside (P : loc → Prop) h hcur targetItems itemId value :
  P targetItems →
  (∀ l c, h !! l = Some c → ¬ P l → hcur !! l = Some c) →
  (∀ l, is_Some (h !! l) → is_Some (hcur !! l)) →
  (∀ entries k l, hcur !! targetItems = Some (CItemTable entries) →
                  entries !! k = Some l → P l ∨ h !! l = None) →
  let h' := addItemEntryAt targetItems itemId value hcur in
  (∀ l c, h !! l = Some c → ¬ P l → h' !! l = Some c) ∧
  (∀ l, is_Some (h !! l) → is_Some (h' !! l)) ∧
  (∀ entries k l, h' !! targetItems = Some (CItemTable entries) →
                  entries !! k = Some l → P l ∨ h !! l = None).
Proof.
  intros Hti Hout Hdom Hrange. unfold addItemEntryAt. cbv zeta.
  pose proof (conj Hout (conj Hdom Hrange)) as Hsame.
  destruct (hcur !! targetItems) as [[]|] eqn:Ht in |- *; try exact Hsame.
  destruct (hcur !! value) as [[]|] eqn:Hv in |- *; try exact Hsame.
  destruct (entries !! itemId) as [entry|] eqn:He.
  - destruct (hcur !! entry) as [[]|] eqn:Hen in |- *; try exact Hsame.
    assert (Hne : entry ≠ targetItems) by congruence.
    split_and!.
    + intros l c Hl HP. rewrite lookup_insert_ne; [by apply Hout|].
      intros <-. destruct (Hrange _ _ _ Ht He); [done|congruence].
    + intros l Hl. destruct (decide (entry = l)) as [->|];
        [by rewrite lookup_insert_eq|rewrite lookup_insert_ne by done; by apply Hdom].
    + intros entries' k l. rewrite lookup_insert_ne by done. apply Hrange.
  - assert (Hfresh : hcur !! (alloc hcur (CItemReq r)).2 = None) by apply alloc_fresh.
    unfold alloc in *. cbn [fst snd] in *. set (copy := fresh (dom hcur)) in *.
    assert (Hnew : h !! copy = None).
    { destruct (h !! copy) eqn:Hc; [|done].
      destruct (Hdom copy) as [x Hx]; [by eexists|congruence]. }
    split_and!.
    + intros l c Hl HP. rewrite !lookup_insert_ne; [by apply Hout| |]; congruence.
    + intros l Hl. destruct (decide (targetItems = l)) as [->|];
        [by rewrite lookup_insert_eq|rewrite lookup_insert_ne by done].
      destruct (decide (copy = l)) as [->|];
        [by rewrite lookup_insert_eq|rewrite lookup_insert_ne by done; by apply Hdom].
    + intros entries' k l. rewrite lookup_insert_eq. intros [= <-] Hl.
      destruct (decide (itemId = k)) as [->|Hne].
      * rewrite lookup_insert_eq in Hl. simplify_eq. by right.
      * rewrite lookup_insert_ne in Hl by done. by eapply Hrange.
Qed.

(** [addEnhancementRequirements] leaves every object outside the footprint
    of its target as it was. *)
Lemma addEnhancementRequirementsAt_frame h tgt source l c :
  h !! l = Some c → l ∉ footprint h tgt →
  addEnhancementRequirementsAt h tgt source !! l = Some c.
Proof.
  intros Hl Hfp. unfold addEnhancementRequirementsAt.
  destruct (h !! tgt) as [[]|] eqn:Htgt; try exact Hl.
  destruct (h !! source) as [[]|] eqn:Hsrc; try exact Hl.
  destruct (h !! embersRef) as [[]|] eqn:Hte; try exact Hl.
  destruct (h !! embersRef0) as [[]|] eqn:Hse; try exact Hl.
  destruct (h !! itemsRef0) as [[]|] eqn:Hsi; try exact Hl.
  cbv zeta.
  assert (Hloop :
    let hcur := map_fold (addItemEntryAt itemsRef)
                  (<[embersRef := CEmbers (addEmbers e e0)]> h) entries in
    (∀ l c, h !! l = Some c → l ∉ footprint h tgt → hcur !! l = Some c) ∧
    (∀ l, is_Some (h !! l) → is_Some (hcur !! l)) ∧
    (∀ entries k l, hcur !! itemsRef = Some (CItemTable entries) →
                    entries !! k = Some l → l ∈ footprint h tgt ∨ h !! l = None)).
  { apply (map_fold_weak_ind (λ hcur _,
      (∀ l c, h !! l = Some c → l ∉ footprint h tgt → hcur !! l = Some c) ∧
      (∀ l, is_Some (h !! l) → is_Some (hcur !! l)) ∧
      (∀ entries k l, hcur !! itemsRef = Some (CItemTable entries) →
                      entries !! k = Some l → l ∈ footprint h tgt ∨ h !! l = None))).
    - split_and!.
      + intros l' c' Hl' HP. rewrite lookup_insert_ne; [done|].
        intros <-. apply HP, elem_of_footprint. right.
        exists embersRef, itemsRef, q. split; [done|by left].
      + intros l' Hl'. destruct (decide (embersRef = l')) as [->|];
          [by rewrite lookup_insert_eq|by rewrite lookup_insert_ne].
      + intros entries' k l' Ht Hk. left. apply elem_of_footprint. right.
        exists embersRef, itemsRef, q. split; [done|]. right. right.
        exists entries', k. split; [|done].
        destruct (decide (embersRef = itemsRef)) as [Heq|Hne].
        * rewrite Heq, lookup_insert_eq in Ht. done.
        * by rewrite lookup_insert_ne in Ht.
    - intros k v m hcur _ (IH1 & IH2 & IH3).
      apply (addItemEntryAt_outside (λ l, l ∈ footprint h tgt)); try done.
      apply elem_of_footprint. right.
      exists embersRef, itemsRef, q. split; [done|]. right. by left. }
  cbv zeta in Hloop. set (h' := map_fold _ _ _) in *.
  destruct Hloop as (Hout & _ & _).
  destruct (h' !! tgt) as [[]|]; try (by apply Hout).
  destruct (h' !! source) as [[]|]; try (by apply Hout).
  rewrite lookup_insert_ne; [by apply Hout|].
  intros <-. apply Hfp, elem_of_footprint. by left.
Qed.

Lemma preserved_allocRequirements h v : preserved h (allocRequirements h v).1.
Proof. apply (keeps_allocRequirements h h v (keeps_refl h)). Qed.

(** What [_preProcessMasterAccount] returns: the inventory reference of the
    account itself, the currency by value, and two new objects, the servant
    index and the costume set. *)
Lemma preProcessMasterAccountAt_spec h masterAccount :
  let out := preProcessMasterAccountAt h masterAccount in
  preserved h out.1 ∧
  madr_items out.2 = mar_items masterAccount ∧
  madr_qp out.2 = mar_qp masterAccount ∧
  independentOf h (madr_costumes out.2) ∧
  independentOf h (madr_servants out.2) ∧
  madr_servants out.2 ≠ madr_costumes out.2 ∧
  ∀ ids, h !! mar_costumes masterAccount = Some (CIdArray ids) →
         out.1 !! madr_costumes out.2 = Some (CIdSet (list_to_set ids)).
Proof.
  cbv zeta.
  assert (Hk := keeps_preProcessMasterAccountAt h h masterAccount (keeps_refl h)).
  revert Hk. unfold preProcessMasterAccountAt, independentOf. cbv zeta.
  match goal with |- context [alloc h ?c] =>
    pose proof (alloc_fresh h c) as Hs;
    assert (Hl : (alloc h c).1 !! (alloc h c).2 = Some c) by apply lookup_insert_eq;
    assert (Hold : ∀ l x, h !! l = Some x → (alloc h c).1 !! l = Some x)
      by (intros l x Hx; unfold alloc; cbn [fst snd];
          rewrite lookup_insert_ne; [done|intros <-; unfold alloc in Hs; cbn in Hs; congruence]);
    destruct (alloc h c) as [h1 servants]
  end.
  cbn [fst snd] in *.
  match goal with |- context [alloc h1 ?c] =>
    pose proof (alloc_fresh h1 c) as Hc;
    assert (Hl2 : (alloc h1 c).1 !! (alloc h1 c).2 = Some c) by apply lookup_insert_eq;
    destruct (alloc h1 c) as [h2 costumes]
  end.
  cbn [fst snd madr_items madr_servants madr_costumes madr_qp] in *.
  intros [Hp _]. split_and!; try done.
  - destruct (h !! costumes) eqn:Hx; [|done]. apply Hold in Hx. congruence.
  - congruence.
  - intros ids Hids. rewrite Hl2. by rewrite (Hold _ _ Hids).
Qed.

End StoreFrame.


(** ** [addEnhancementRequirements] on objects and on values *)

Section StoreRefinement.

Import Store.

Implicit Types (h : heap).

Lemma readRequirements_items h l v k :
  readRequirements h l = Some v →
  ∃ e i q entries, h !! l = Some (CReq e i q) ∧ h !! i = Some (CItemTable entries) ∧
                   items v !! k = itemValue h entries k.
Proof.
  unfold readRequirements. intros Hr.
  destruct (h !! l) as [[]|] eqn:Hl; try done.
  destruct (h !! embersRef) as [[]|] eqn:He; try done.
  destruct (h !! itemsRef) as [[]|] eqn:Hi; try done.
  simplify_eq. exists embersRef, itemsRef, q, entries. split_and!; try done.
  cbn [items]. by rewrite lookup_omap.
Qed.

(** One iteration of the item loop, on a table whose entries are item
    objects: the table then holds the merge with the entry of the source. *)
Lemma addItemEntryAt_merge h hcur targetItems (tm m : gmap Z loc) tmc k value v :
  m !! k = None →
  hcur !! value = Some (CItemReq v) → h !! value = Some (CItemReq v) →
  hcur !! targetItems = Some (CItemTable tmc) →
  entriesOk hcur tmc →
  (∀ j, itemValue hcur tmc j =
        union_with mergeItem (itemValue h tm j) (itemValue h m j)) →
  ∃ tmc', addItemEntryAt targetItems k value hcur !! targetItems =
            Some (CItemTable tmc') ∧
          entriesOk (addItemEntryAt targetItems k value hcur) tmc' ∧
          ∀ j, itemValue (addItemEntryAt targetItems k value hcur) tmc' j =
               union_with mergeItem (itemValue h tm j) (itemValue h (<[k := value]> m) j).
Proof.
  intros Hk Hv Hv0 Ht [Hkind Hinj] Hval. unfold addItemEntryAt. rewrite Ht, Hv.
  assert (Hsrc : ∀ j, itemValue h (<[k := value]> m) j =
                      if decide (j = k) then Some v else itemValue h m j).
  { intros j. unfold itemValue. case_decide as Hj.
    - subst. rewrite lookup_insert_eq. cbn. unfold readItemReq. by rewrite Hv0.
    - by rewrite lookup_insert_ne. }
  assert (Hmk : itemValue h m k = None) by (unfold itemValue; by rewrite Hk).
  destruct (tmc !! k) as [entry|] eqn:He.
  - destruct (Hkind _ _ He) as [tv Hentry]. rewrite Hentry.
    assert (Hne : entry ≠ targetItems) by congruence.
    exists tmc. split_and!.
    + by rewrite lookup_insert_ne.
    + split; [|done]. intros j r Hj. destruct (decide (entry = r)) as [->|Hr].
      * rewrite lookup_insert_eq. eauto.
      * rewrite lookup_insert_ne by done. by eapply Hkind.
    + intros j. rewrite Hsrc. specialize (Hval j). case_decide as Hj.
      * subst. rewrite Hmk in Hval. unfold itemValue in *. rewrite He in *.
        cbn in *. unfold readItemReq in *. rewrite lookup_insert_eq.
        rewrite Hentry in Hval.
        destruct (tm !! k ≫= _) as [x|]; cbn in *; by simplify_eq.
      * rewrite <- Hval. unfold itemValue.
        destruct (tmc !! j) as [r|] eqn:Hr; [|done]. cbn. unfold readItemReq.
        rewrite lookup_insert_ne; [done|]. intros <-. apply Hj. by eapply Hinj.
  - unfold alloc. cbn [fst snd]. set (copy := fresh (dom hcur)).
    assert (Hfresh : hcur !! copy = None) by apply not_elem_of_dom, is_fresh.
    assert (Hct : copy ≠ targetItems) by congruence.
    exists (<[k := copy]> tmc). split_and!.
    + by rewrite lookup_insert_eq.
    + split.
      * intros j r Hj. destruct (decide (j = k)) as [->|Hjk].
        -- rewrite lookup_insert_eq in Hj. simplify_eq.
           exists v. rewrite lookup_insert_ne by done. by rewrite lookup_insert_eq.
        -- rewrite lookup_insert_ne in Hj by done.
           destruct (Hkind _ _ Hj) as [x Hx]. exists x.
           rewrite !lookup_insert_ne; [done|congruence|congruence].
      * intros j1 j2 r H1 H2.
        destruct (decide (j1 = k)) as [->|Hj1], (decide (j2 = k)) as [->|Hj2];
          try done.
        -- rewrite lookup_insert_eq in H1. rewrite lookup_insert_ne in H2 by congruence.
           simplify_eq. destruct (Hkind _ _ H2); congruence.
        -- rewrite lookup_insert_eq in H2. rewrite lookup_insert_ne in H1 by congruence.
           simplify_eq. destruct (Hkind _ _ H1); congruence.
        -- rewrite lookup_insert_ne in H1 by congruence.
           rewrite lookup_insert_ne in H2 by congruence. by eapply Hinj.
    + intros j. rewrite Hsrc. specialize (Hval j). case_decide as Hj.
      * subst. rewrite Hmk in Hval. unfold itemValue in *.
        rewrite He in Hval. rewrite lookup_insert_eq. cbn in *.
        unfold readItemReq. rewrite lookup_insert_ne by done.
        rewrite lookup_insert_eq.
        destruct (tm !! k ≫= _) as [x|]; cbn in *; by simplify_eq.
      * rewrite <- Hval. unfold itemValue. rewrite lookup_insert_ne by done.
        destruct (tmc !! j) as [r|] eqn:Hr; [|done]. cbn. unfold readItemReq.
        destruct (Hkind _ _ Hr) as [x Hx].
        rewrite !lookup_insert_ne; [done|congruence|congruence].
Qed.

(** The item loop writes item tables, item objects and new objects only. *)
Lemma addItemEntryAt_other hcur targetItems k value l c :
  hcur !! l = Some c →
  (∀ v, c ≠ CItemReq v) → (∀ entries, c ≠ CItemTable entries) →
  addItemEntryAt targetItems k value hcur !! l = Some c.
Proof.
  intros Hl Hreq Htab. unfold addItemEntryAt.
  destruct (hcur !! targetItems) as [[]|] eqn:Ht; try done.
  destruct (hcur !! value) as [[]|] eqn:Hv; try done.
  destruct (entries !! k) as [entry|] eqn:He.
  - destruct (hcur !! entry) as [[]|] eqn:Hen; try done.
    rewrite lookup_insert_ne; [done|]. intros <-. simplify_eq. by eapply Hreq.
  - unfold alloc. cbn [fst snd].
    assert (Hfresh : hcur !! fresh (dom hcur) = None) by apply not_elem_of_dom, is_fresh.
    rewrite !lookup_insert_ne; [done|congruence|].
    intros <-. simplify_eq. by eapply Htab.
Qed.

(** On two well-formed records that share no object,
    [addEnhancementRequirements] on the objects computes
    [addEnhancementRequirements] on their values and leaves the value of the
    source as it was. *)
Lemma addEnhancementRequirementsAt_refines h tgt source tv sv :
  wellFormed h tgt → wellFormed h source →
  footprint h source ## footprint h tgt →
  readRequirements h tgt = Some tv → readRequirements h source = Some sv →
  readRequirements (addEnhancementRequirementsAt h tgt source) tgt =
    Some (addEnhancementRequirements tv sv) ∧
  readRequirements (addEnhancementRequirementsAt h tgt source) source = Some sv.
Proof.
  intros (te & ti & tq & tev & tm & Ht & Hte & Hti & Htok)
         (se & si & sq & sev & sm & Hs & Hse & Hsi & Hsok) Hsep Hrt Hrs.
  assert (Htv : tv = mkReq tev (omap (readItemReq h) tm) tq).
  { unfold readRequirements in Hrt. rewrite Ht, Hte, Hti in Hrt. by simplify_eq. }
  assert (Hsv : sv = mkReq sev (omap (readItemReq h) sm) sq).
  { unfold readRequirements in Hrs. rewrite Hs, Hse, Hsi in Hrs. by simplify_eq. }
  assert (Hin_s : ∀ l, l = source ∨ l = se ∨ l = si ∨ (∃ k, sm !! k = Some l) →
                       l ∉ footprint h tgt).
  { intros l Hl Hfp. apply (Hsep l); [|done]. apply elem_of_footprint.
    destruct Hl as [->|Hl]; [by left|right].
    exists se, si, sq. split; [done|].
    destruct Hl as [->|[->|[k Hk]]]; [by left|by right; left|].
    right. right. by exists sm, k. }
  assert (Hin_t : ∀ l, l = tgt ∨ l = te ∨ l = ti → l ∈ footprint h tgt).
  { intros l Hl. apply elem_of_footprint. destruct Hl as [->|Hl]; [by left|right].
    exists te, ti, tq. split; [done|]. destruct Hl as [->| ->]; [by left|by right; left]. }
  unfold addEnhancementRequirementsAt. rewrite Ht, Hs, Hte, Hse, Hsi. cbv zeta.
  set (h1 := <[te := CEmbers (addEmbers tev sev)]> h).
  assert (Hloop : sm ⊆ sm →
    let hf := map_fold (addItemEntryAt ti) h1 sm in
    (∀ l c, h !! l = Some c → l ∉ footprint h tgt → hf !! l = Some c) ∧
    (∀ l, is_Some (h !! l) → is_Some (hf !! l)) ∧
    (∀ entries k l, hf !! ti = Some (CItemTable entries) →
                    entries !! k = Some l → l ∈ footprint h tgt ∨ h !! l = None) ∧
    hf !! tgt = Some (CReq te ti tq) ∧
    hf !! te = Some (CEmbers (addEmbers tev sev)) ∧
    ∃ tmc, hf !! ti = Some (CItemTable tmc) ∧ entriesOk hf tmc ∧
           ∀ j, itemValue hf tmc j =
                union_with mergeItem (itemValue h tm j) (itemValue h sm j)).
  { apply (map_fold_weak_ind (λ hf m, m ⊆ sm →
      (∀ l c, h !! l = Some c → l ∉ footprint h tgt → hf !! l = Some c) ∧
      (∀ l, is_Some (h !! l) → is_Some (hf !! l)) ∧
      (∀ entries k l, hf !! ti = Some (CItemTable entries) →
                      entries !! k = Some l → l ∈ footprint h tgt ∨ h !! l = None) ∧
      hf !! tgt = Some (CReq te ti tq) ∧
      hf !! te = Some (CEmbers (addEmbers tev sev)) ∧
      ∃ tmc, hf !! ti = Some (CItemTable tmc) ∧ entriesOk hf tmc ∧
             ∀ j, itemValue hf tmc j =
                  union_with mergeItem (itemValue h tm j) (itemValue h m j))).
    - intros _. unfold h1.
      assert (Hne1 : te ≠ tgt) by congruence.
      assert (Hne2 : te ≠ ti) by congruence.
      split_and!.
      + intros l c Hl Hfp. rewrite lookup_insert_ne; [done|].
        intros <-. apply Hfp, Hin_t. auto.
      + intros l Hl. destruct (decide (te = l)) as [->|];
          [by rewrite lookup_insert_eq|by rewrite lookup_insert_ne].
      + intros entries k l. rewrite lookup_insert_ne by done. intros Hx Hk.
        left. apply elem_of_footprint. right. exists te, ti, tq. split; [done|].
        right. right. by exists entries, k.
      + by rewrite lookup_insert_ne.
      + by rewrite lookup_insert_eq.
      + exists tm. split_and!.
        * by rewrite lookup_insert_ne.
        * destruct Htok as [Hkind Hinj]. split; [|done]. intros k r Hk.
          destruct (Hkind _ _ Hk) as [v Hv]. exists v.
          rewrite lookup_insert_ne; [done|congruence].
        * intros j. unfold itemValue at 3. rewrite lookup_empty. cbn.
          assert (Hsame : itemValue (<[te:=CEmbers (addEmbers tev sev)]> h) tm j =
                          itemValue h tm j).
          { unfold itemValue. destruct (tm !! j) as [r|] eqn:Hr; [|done]. cbn.
            unfold readItemReq. destruct (proj1 Htok _ _ Hr) as [v Hv].
            rewrite lookup_insert_ne; [done|congruence]. }
          rewrite Hsame. by destruct (itemValue h tm j).
    - intros k value m hcur Hk IH Hsub.
      assert (Hm : m ⊆ sm).
      { etrans; [|exact Hsub]. by apply insert_subseteq. }
      destruct (IH Hm) as (I1 & I2 & I3 & I4 & I5 & tmc & I6 & I7 & I8).
      assert (Hsmk : sm !! k = Some value).
      { eapply lookup_weaken; [|exact Hsub]. apply lookup_insert_eq. }
      destruct (proj1 Hsok _ _ Hsmk) as [v Hv].
      assert (Hvcur : hcur !! value = Some (CItemReq v)).
      { apply I1; [done|]. apply Hin_s. right. right. right. by exists k. }
      destruct (addItemEntryAt_outside (λ l, l ∈ footprint h tgt) h hcur ti k value)
        as (J1 & J2 & J3); [apply Hin_t; auto|done|done|done|].
      destruct (addItemEntryAt_merge h hcur ti tm m tmc k value v)
        as (tmc' & J6 & J7 & J8); try done.
      split_and!; try done.
      + by apply addItemEntryAt_other.
      + by apply addItemEntryAt_other.
      + by exists tmc'. }
  specialize (Hloop (reflexivity sm)). cbv zeta in Hloop.
  set (hf := map_fold (addItemEntryAt ti) h1 sm) in *.
  destruct Hloop as (I1 & I2 & I3 & I4 & I5 & tmc & I6 & [Hkind Hinj] & I8).
  assert (Hsf : hf !! source = Some (CReq se si sq)).
  { apply I1; [done|]. apply Hin_s. by left. }
  rewrite I4, Hsf.
  assert (Hst : source ≠ tgt).
  { intros ->. eapply Hin_s; [by left|]. apply Hin_t. by left. }
  unfold readRequirements. split.
  - rewrite lookup_insert_eq.
    rewrite !lookup_insert_ne by congruence. rewrite I5, I6.
    subst tv sv. unfold addEnhancementRequirements. cbn [embers items qp].
    f_equal. f_equal. apply map_eq; intros j.
    rewrite addItems_lookup, !lookup_omap.
    change (tm !! j ≫= readItemReq h) with (itemValue h tm j).
    change (sm !! j ≫= readItemReq h) with (itemValue h sm j).
    rewrite <- I8. unfold itemValue.
    destruct (tmc !! j) as [r|] eqn:Hr; [|done]. cbn. unfold readItemReq.
    destruct (Hkind _ _ Hr) as [v Hv]. rewrite lookup_insert_ne; [done|congruence].
  - rewrite lookup_insert_ne by done. rewrite Hsf.
    assert (Hsef : hf !! se = Some (CEmbers sev)).
    { apply I1; [done|]. apply Hin_s. auto. }
    assert (Hsif : hf !! si = Some (CItemTable sm)).
    { apply I1; [done|]. apply Hin_s. auto. }
    rewrite !lookup_insert_ne by congruence. rewrite Hsef, Hsif.
    subst sv. f_equal. f_equal. apply map_eq; intros j. rewrite !lookup_omap.
    destruct (sm !! j) as [r|] eqn:Hr; [|done]. cbn. unfold readItemReq.
    destruct (proj1 Hsok _ _ Hr) as [v Hv].
    assert (Hrf : hf !! r = Some (CItemReq v)).
    { apply I1; [done|]. apply Hin_s. right. right. right. by exists j. }
    rewrite lookup_insert_ne by congruence. by rewrite Hrf, Hv.
Qed.

End StoreRefinement.

(** On the sample objects the walk on the store computes the result of the
    walk on values. *)
Lemma store_walk_sample :
  let run target preceding override :=
    let out := Store.computePlanRequirementsAt Store.Sample.objects 1
                 Store.Sample.account target preceding override in
    Store.readPlanRequirements out.1 out.2 in
  run Store.Sample.planB (Some [Store.Sample.planA]) None =
    Some (computePlanRequirements Sample.catalog Sample.account Sample.planB
            (Some [Sample.planA]) None) ∧
  run Store.Sample.costumePlanB (Some [Store.Sample.costumePlanA]) None =
    Some (computePlanRequirements Sample.catalog Sample.account Sample.costumePlanB
            (Some [Sample.costumePlanA]) None) ∧
  run Store.Sample.lorePlan None (Some Sample.loresExcluded) =
    Some (computePlanRequirements Sample.catalog Sample.account Sample.lorePlan
            None (Some Sample.loresExcluded)) ∧
  run Store.Sample.mixedPlan
      (Some [Store.Sample.planA; Store.Sample.mixedPlan; Store.Sample.planA]) None =
    Some (computePlanRequirements Sample.catalog Sample.account Sample.mixedPlan
            (Some [Sample.planA; Sample.mixedPlan; Sample.planA]) None).
Proof. cbv zeta. split_and!; vm_compute; reflexivity. Qed.

(** C9, as stated, fails on the inventory: the pre-processed account holds
    the reference of the caller's own inventory object, not a copy. *)
Lemma inventory_shared_with_caller :
  ¬ Store.independentOf Store.Sample.objects
      (Store.madr_items
         (Store.preProcessMasterAccountAt Store.Sample.objects Store.Sample.account).2).
Proof. unfold Store.independentOf. vm_compute. discriminate. Qed.

(** C9, amended: every object that exists before a call of
    [computePlanRequirements] or [computeServantEnhancementRequirements]
    holds the same content after it; the pre-processing step leaves the
    caller's objects as they are, copies the currency by value and allocates
    a new costume set (holding the ids of the costume array) and a new
    servant index, while the inventory it returns is the caller's own
    inventory object; [addEnhancementRequirements] leaves every object
    outside the footprint of its target as it was, and on two well-formed
    records that share no object it gives the target the sum of the two
    values and leaves the value of the source as it was. *)
Theorem engine_keeps_caller_objects :
  (∀ h catalog masterAccount targetPlan previousPlans optionsOverride,
      Store.preserved h
        (Store.computePlanRequirementsAt h catalog masterAccount targetPlan
           previousPlans optionsOverride).1) ∧
  (∀ h gameServant currentEnhancements currentCostumes options,
      Store.preserved h
        (Store.computeServantEnhancementRequirementsAt h gameServant
           currentEnhancements currentCostumes options).1) ∧
  (∀ h masterAccount,
      let out := Store.preProcessMasterAccountAt h masterAccount in
      Store.preserved h out.1 ∧
      Store.madr_items out.2 = Store.mar_items masterAccount ∧
      Store.madr_qp out.2 = Store.mar_qp masterAccount ∧
      Store.independentOf h (Store.madr_costumes out.2) ∧
      Store.independentOf h (Store.madr_servants out.2) ∧
      Store.madr_servants out.2 ≠ Store.madr_costumes out.2 ∧
      ∀ ids, h !! Store.mar_costumes masterAccount = Some (Store.CIdArray ids) →
             out.1 !! Store.madr_costumes out.2 =
             Some (Store.CIdSet (list_to_set ids))) ∧
  (∀ h tgt source l c,
      h !! l = Some c → l ∉ Store.footprint h tgt →
      Store.addEnhancementRequirementsAt h tgt source !! l = Some c) ∧
  (∀ h tgt source targetValue sourceValue,
      Store.wellFormed h tgt → Store.wellFormed h source →
      Store.footprint h source ## Store.footprint h tgt →
      Store.readRequirements h tgt = Some targetValue →
      Store.readRequirements h source = Some sourceValue →
      Store.readRequirements (Store.addEnhancementRequirementsAt h tgt source) tgt =
        Some (addEnhancementRequirements targetValue sourceValue) ∧
      Store.readRequirements (Store.addEnhancementRequirementsAt h tgt source) source =
        Some sourceValue).
Proof.
  split_and!.
  - intros. apply keeps_computePlanRequirementsAt.
  - intros. apply preserved_allocRequirements.
  - apply preProcessMasterAccountAt_spec.
  - apply addEnhancementRequirementsAt_frame.
  - apply addEnhancementRequirementsAt_refines.
Qed.

Lemma sample_records_wellFormed :
  Store.wellFormed Store.Sample.records 20 ∧ Store.wellFormed Store.Sample.records 30.
Proof.
  split.
  - exists 21%positive, 22%positive, 11, (mkEmbers 0 0 0 0 0), {[ 7001 := 23%positive ]}.
    split_and!; try reflexivity. split.
    + intros k r [<- <-]%lookup_singleton_Some. by eexists.
    + by intros k1 k2 r [<- <-]%lookup_singleton_Some [<- _]%lookup_singleton_Some.
  - exists 31%positive, 32%positive, 10000, (mkEmbers 0 0 0 0 0), {[ 6505 := 33%positive ]}.
    split_and!; try reflexivity. split.
    + intros k r [<- <-]%lookup_singleton_Some. by eexists.
    + by intros k1 k2 r [<- <-]%lookup_singleton_Some [<- _]%lookup_singleton_Some.
Defined.

Lemma engine_keeps_caller_objects_witness :
  let h := Store.Sample.records in
  let h' := Store.addEnhancementRequirementsAt h 20 30 in
  (* the caller's inventory and the source record *)
  h' !! 2%positive = Some (Store.CInventory {[ 7001 := 3 ]}) ∧
  h' !! 30%positive = Some (Store.CReq 31 32 10000) ∧
  Store.readRequirements h' 30 = Some Store.Sample.sourceValue ∧
  Store.readRequirements h' 20 =
    Some (addEnhancementRequirements Store.Sample.targetValue Store.Sample.sourceValue) ∧
  let out := Store.preProcessMasterAccountAt Store.Sample.objects Store.Sample.account in
  out.1 !! Store.madr_costumes out.2 = Some (Store.CIdSet (list_to_set [])).
Proof.
  cbv zeta.
  destruct engine_keeps_caller_objects as (_ & _ & Hpre & Hframe & Hrefine).
  destruct (Hrefine Store.Sample.records 20%positive 30%positive
              Store.Sample.targetValue Store.Sample.sourceValue
              (proj1 sample_records_wellFormed) (proj2 sample_records_wellFormed))
    as [Htgt Hsrc].
  { eapply bool_decide_unpack. vm_compute. exact I. }
  { reflexivity. }
  { reflexivity. }
  split_and!.
  - apply Hframe; [reflexivity|]. eapply bool_decide_unpack. vm_compute. exact I.
  - apply Hframe; [reflexivity|]. eapply bool_decide_unpack. vm_compute. exact I.
  - exact Hsrc.
  - exact Htgt.
  - apply (proj2 (proj2 (proj2 (proj2 (proj2 (proj2
             (Hpre Store.Sample.objects Store.Sample.account))))))).
    reflexivity.
Defined.

(** ** Sums of requirement records *)

Section Sums.

Implicit Types (A B c : EnhancementRequirements).
Implicit Types (l : list EnhancementRequirements).

Lemma sum_cons A l :
  sumEnhancementRequirements (A :: l) =
  addEnhancementRequirements A (sumEnhancementRequirements l).
Proof.
  change (A :: l) with ([A] ++ l). rewrite sum_app.
  unfold sumEnhancementRequirements at 1. simpl. by rewrite add_zero_l.
Qed.

Lemma sum_permutation l1 l2 :
  l1 ≡ₚ l2 → sumEnhancementRequirements l1 = sumEnhancementRequirements l2.
Proof.
  induction 1 as [|x l1 l2 _ IH|x y l|l1 l2 l3 _ IH1 _ IH2].
  - done.
  - by rewrite !sum_cons, IH.
  - rewrite !sum_cons, <- !add_assoc. f_equal. apply add_comm.
  - by rewrite IH1.
Qed.

(** Storing [add (old or zero) c] under a key adds [c] to the sum of the
    projected values of the object. *)
Lemma sum_values_insert `{Countable K} {V} (f : V → EnhancementRequirements)
    (obj : gmap K V) (key : K) (v : V) c :
  f v = addEnhancementRequirements
          (default _instantiateEnhancementRequirements (f <$> obj !! key)) c →
  sumEnhancementRequirements (f <$> values (<[key := v]> obj)) =
  addEnhancementRequirements (sumEnhancementRequirements (f <$> values obj)) c.
Proof.
  intros Hv. unfold values.
  destruct (obj !! key) as [old|] eqn:Hk; cbn in Hv.
  - rewrite <- (insert_delete_id obj key old) at 2 by done.
    rewrite <- (insert_delete_eq obj).
    rewrite !(sum_permutation (f <$> (map_to_list (<[key := _]> (delete key obj))).*2)
                (f <$> ((key, _) :: map_to_list (delete key obj)).*2))
      by (do 2 apply fmap_Permutation; apply map_to_list_insert, lookup_delete_eq).
    rewrite !fmap_cons, !sum_cons. cbn [snd]. rewrite Hv.
    rewrite !add_assoc. f_equal. apply add_comm.
  - rewrite (sum_permutation (f <$> (map_to_list (<[key := v]> obj)).*2)
               (f <$> ((key, v) :: map_to_list obj).*2))
      by (do 2 apply fmap_Permutation; by apply map_to_list_insert).
    rewrite !fmap_cons, sum_cons. cbn [snd]. rewrite Hv, add_zero_l. apply add_comm.
Qed.

End Sums.

(** ** Results of the walk *)

Section WalkInvariants.

Variables (gameServantMap : gmap Z GameServant) (masterAccountData : MasterAccountData).

(** A directive either leaves the result as it is or passes the three tests
    and is booked. *)
Lemma step_skipped planId targetCostumes options isTargetPlan result planServant :
  resolved gameServantMap masterAccountData planServant = false →
  computePlanServantStep gameServantMap masterAccountData planId targetCostumes
    options isTargetPlan result planServant = result.
Proof.
  unfold resolved. intros Hr.
  destruct (ps_enabled_servant planServant) eqn:He; [|by apply step_disabled].
  destruct (mad_servants masterAccountData !! ps_instanceId planServant)
    as [ms|] eqn:Hm; [|by apply step_no_master].
  destruct (gameServantMap !! ms_gameId ms) as [gs|] eqn:Hg;
    [|by eapply step_no_game].
  cbn in Hr. discriminate Hr.
Qed.

Lemma resolved_inv planServant :
  resolved gameServantMap masterAccountData planServant = true →
  ∃ masterServant gameServant,
    ps_enabled_servant planServant = true ∧
    mad_servants masterAccountData !! ps_instanceId planServant = Some masterServant ∧
    gameServantMap !! ms_gameId masterServant = Some gameServant.
Proof.
  unfold resolved. intros Hr.
  destruct (ps_enabled_servant planServant); [|done].
  destruct (mad_servants masterAccountData !! ps_instanceId planServant)
    as [ms|]; [|done].
  cbn in Hr. apply bool_decide_eq_true in Hr as [gs Hg]. by exists ms, gs.
Qed.

(** A property that the empty result has and that every iteration of the
    loop over the directives keeps holds of the result of a plan, and of the
    result of the walk over the preceding plans and the target plan. *)
Lemma plan_invariant (P : PlanRequirements → Prop) result plan options isTargetPlan :
  (∀ planId tc o t r ps,
      P r → P (computePlanServantStep gameServantMap masterAccountData planId tc o t r ps)) →
  P result →
  P (_computePlanRequirements result gameServantMap masterAccountData plan options
       isTargetPlan).
Proof.
  intros Hstep. unfold _computePlanRequirements. cbv zeta.
  generalize (plan_servants plan). intros l. revert result.
  induction l as [|ps l IH]; intros result Hr; [done|].
  simpl. apply IH, Hstep, Hr.
Qed.

End WalkInvariants.

Lemma walk_invariant (P : PlanRequirements → Prop) gameServantMap masterAccount
    targetPlan previousPlans optionsOverride :
  P _instantiatePlanRequirements →
  (∀ planId tc o t r ps,
      P r → P (computePlanServantStep gameServantMap
                 (_preProcessMasterAccount masterAccount) planId tc o t r ps)) →
  P (computePlanRequirements gameServantMap masterAccount targetPlan previousPlans
       optionsOverride).
Proof.
  intros H0 Hstep. unfold computePlanRequirements. cbv zeta.
  apply plan_invariant; [done|].
  generalize (default [] previousPlans). intros plans.
  generalize dependent _instantiatePlanRequirements.
  induction plans as [|p plans IH]; intros r Hr; [done|].
  simpl. apply IH. by apply plan_invariant.
Qed.

(** Case analysis on an iteration of the loop over the directives: the
    skipped case is closed by [tac_skip], the booked case is left with the
    equation of [step_resolved] rewritten in the goal. *)
Ltac step_cases g mad planId tc o t r ps :=
  let Hr := fresh "Hres" in
  destruct (resolved g mad ps) eqn:Hr;
  [ let Hi := fresh "Hinv" in
    pose proof Hr as Hi;
    apply resolved_inv in Hi as (?ms & ?gs & ?He & ?Hm & ?Hg);
    let Hs := fresh "Hs" in
    pose proof (step_resolved g mad planId tc o t r ps _ _ He Hm Hg) as Hs;
    cbv zeta in Hs; rewrite Hs; clear Hs
  | rewrite (step_skipped g mad planId tc o t r ps Hr) ].

(** X1: in the result of [computePlanRequirements] the group record is the
    sum of the target plan's record and of the records of the preceding
    plans. *)
Theorem group_is_sum_of_plans gameServantMap masterAccount plan precedingPlans
    optionsOverride :
  let result := computePlanRequirements gameServantMap masterAccount plan
                  precedingPlans optionsOverride in
  group result =
  addEnhancementRequirements (targetPlan result)
    (sumEnhancementRequirements (values (previousPlans result))).
Proof.
  cbv zeta.
  apply (walk_invariant (λ result, group result =
    addEnhancementRequirements (targetPlan result)
      (sumEnhancementRequirements (values (previousPlans result))))).
  - reflexivity.
  - intros planId tc o t r ps IH.
    step_cases gameServantMap (_preProcessMasterAccount masterAccount) planId tc o t r ps;
      [|exact IH].
    cbn [group targetPlan previousPlans]. rewrite IH. destruct t.
    + rewrite !add_assoc. f_equal. apply add_comm.
    + rewrite <- (list_fmap_id (values (<[planId := _]> (previousPlans r)))).
      rewrite (sum_values_insert id _ _ _
                 (stepCost (_preProcessMasterAccount masterAccount) tc o r ps ms gs)).
      * rewrite list_fmap_id. by rewrite add_assoc.
      * by rewrite option_fmap_id.
Qed.

(** X2: the target plan's record is the sum of the records kept per servant. *)
Theorem targetPlan_is_sum_of_servants gameServantMap masterAccount plan
    precedingPlans optionsOverride :
  let result := computePlanRequirements gameServantMap masterAccount plan
                  precedingPlans optionsOverride in
  targetPlan result =
  sumEnhancementRequirements (requirements <$> values (servants result)).
Proof.
  cbv zeta.
  apply (walk_invariant (λ result, targetPlan result =
    sumEnhancementRequirements (requirements <$> values (servants result)))).
  - reflexivity.
  - intros planId tc o t r ps IH.
    step_cases gameServantMap (_preProcessMasterAccount masterAccount) planId tc o t r ps;
      [|exact IH].
    cbn [targetPlan servants]. destruct t.
    + rewrite (sum_values_insert requirements _ _ _
                 (stepCost (_preProcessMasterAccount masterAccount) tc o r ps ms gs)).
      * by rewrite IH.
      * cbn [requirements]. by destruct (servants r !! ps_instanceId ps).
    + rewrite (sum_values_insert requirements _ _ _ _instantiateEnhancementRequirements).
      * by rewrite add_zero_r.
      * cbn [requirements]. rewrite add_zero_r.
        by destruct (servants r !! ps_instanceId ps).
Qed.

Section Records.

Implicit Types (r A B : EnhancementRequirements).

Lemma itemAmount_entry K r i e :
  items r !! i = Some e → itemAmount K r i = itemField K e.
Proof. intros He. unfold itemAmount. by rewrite He. Qed.

Lemma itemAmount_missing K r i : items r !! i = None → itemAmount K r i = 0.
Proof. intros He. unfold itemAmount. rewrite He. by destruct K. Qed.

Lemma totalsConsistent_amounts r :
  totalsConsistent r ↔
  ∀ i, itemAmount KTotal r i =
       itemAmount KAscensions r i + itemAmount KSkills r i +
       itemAmount KAppendSkills r i + itemAmount KCostumes r i.
Proof.
  split.
  - intros Hc i. destruct (items r !! i) as [e|] eqn:He.
    + rewrite !(itemAmount_entry _ r i e He). cbn. by apply (Hc i).
    + by rewrite !itemAmount_missing.
  - intros Ha i e He. specialize (Ha i).
    by rewrite !(itemAmount_entry _ r i e He) in Ha.
Qed.

Lemma requirementsNonNeg_amounts r :
  requirementsNonNeg r ↔ 0 ≤ qp r ∧ ∀ K i, 0 ≤ itemAmount K r i.
Proof.
  unfold requirementsNonNeg. split; intros [Hq Hi]; (split; [exact Hq|]).
  - intros K i. destruct (items r !! i) as [e|] eqn:He.
    + rewrite (itemAmount_entry _ r i e He). by eapply Hi.
    + by rewrite itemAmount_missing.
  - intros i e K He. rewrite <- (itemAmount_entry K r i e He). apply Hi.
Qed.

Lemma totalsConsistent_add A B :
  totalsConsistent A → totalsConsistent B →
  totalsConsistent (addEnhancementRequirements A B).
Proof.
  rewrite !totalsConsistent_amounts. intros HA HB i.
  rewrite !itemAmount_add, HA, HB. lia.
Qed.

Lemma requirementsNonNeg_add A B :
  requirementsNonNeg A → requirementsNonNeg B →
  requirementsNonNeg (addEnhancementRequirements A B).
Proof.
  rewrite !requirementsNonNeg_amounts. intros [HqA HA] [HqB HB]. split.
  - cbn. lia.
  - intros K i. rewrite itemAmount_add. specialize (HA K i). specialize (HB K i). lia.
Qed.

Lemma embers_add A B :
  embers (addEnhancementRequirements A B) = addEmbers (embers A) (embers B).
Proof. reflexivity. Qed.

Lemma keyWeight_nonneg k K : 0 ≤ keyWeight k K.
Proof. unfold keyWeight. repeat case_decide; lia. Qed.

Lemma axisOn_nonneg flag x : 0 ≤ x → 0 ≤ axisOn flag x.
Proof. unfold axisOn. destruct (truthy flag); lia. Qed.

Lemma sumOver_nonneg {V} (w : Z → V → Z) (m : gmap Z V) :
  (∀ k v, m !! k = Some v → 0 ≤ w k v) → 0 ≤ sumOver w m.
Proof.
  unfold sumOver.
  apply (map_fold_weak_ind
           (λ acc m', (∀ k v, m' !! k = Some v → 0 ≤ w k v) → 0 ≤ acc)).
  - done.
  - intros i x m' acc Hi IH Hw.
    assert (0 ≤ acc).
    { apply IH. intros k v Hk. apply Hw. rewrite lookup_insert_ne; [done|].
      intros ->. congruence. }
    assert (0 ≤ w i x) by (apply Hw; by rewrite lookup_insert_eq).
    lia.
Qed.

Lemma slotsNeeding_nonneg cur tgt L : 0 ≤ slotsNeeding cur tgt L.
Proof. unfold slotsNeeding. lia. Qed.

Lemma chargedSteps_nonneg excl cur tgt L : 0 ≤ chargedSteps excl cur tgt L.
Proof.
  unfold chargedSteps. destruct (loreSkipped excl L); [lia|apply slotsNeeding_nonneg].
Qed.

Lemma quantityOf_nonneg e i : enhancementNonNeg e → 0 ≤ quantityOf e i.
Proof.
  intros [_ Hm]. unfold quantityOf. destruct (materials e !! i) as [q|] eqn:Hq; [|done].
  by apply (Hm i q).
Qed.

End Records.

Section ServantRecords.

Variables (gameServant : GameServant) (cur tgt : ServantEnhancements).
Variables (currentCostumes : gset Z) (targetCostumes : option (gset Z)).
Variable options : option ComputationOptions.

Lemma servant_totalsConsistent :
  totalsConsistent (_computeServantEnhancementRequirements gameServant cur
                      currentCostumes tgt targetCostumes options).
Proof.
  apply totalsConsistent_amounts. intros i. rewrite !servant_amount.
  repeat match goal with
  | |- context [keyWeight ?k ?K] =>
      let w := eval vm_compute in (keyWeight k K) in change (keyWeight k K) with w
  end.
  lia.
Qed.

Lemma skillsQp_nonneg excl c t table :
  tableNonNeg table → 0 ≤ skillsQp excl c t table.
Proof.
  intros Ht. apply sumOver_nonneg. intros L e He.
  apply Z.mul_nonneg_nonneg; [apply chargedSteps_nonneg|apply (Ht L e He)].
Qed.

Lemma skillsAmount_nonneg excl c t table i :
  tableNonNeg table → 0 ≤ skillsAmount excl c t table i.
Proof.
  intros Ht. apply sumOver_nonneg. intros L e He.
  apply Z.mul_nonneg_nonneg; [apply chargedSteps_nonneg|].
  apply quantityOf_nonneg, (Ht L e He).
Qed.

Lemma ascensionQp_nonneg c t table :
  tableNonNeg (default ∅ table) → 0 ≤ ascensionQp c t table.
Proof.
  intros Ht. unfold ascensionQp.
  destruct (ascension t) as [ta|]; [|done]. destruct table as [tb|]; [|done].
  apply sumOver_nonneg. intros L e He.
  destruct (ascensionCharged c ta L); [apply (Ht L e He)|done].
Qed.

Lemma ascensionAmount_nonneg c t table i :
  tableNonNeg (default ∅ table) → 0 ≤ ascensionAmount c t table i.
Proof.
  intros Ht. unfold ascensionAmount.
  destruct (ascension t) as [ta|]; [|done]. destruct table as [tb|]; [|done].
  apply sumOver_nonneg. intros L e He.
  destruct (ascensionCharged c ta L); [|done].
  apply quantityOf_nonneg, (Ht L e He).
Qed.

Lemma costumesQp_nonneg cc tc (table : gmap Z GameServantCostume) :
  map_Forall (λ _ c, enhancementNonNeg (costume_materials c)) table →
  0 ≤ costumesQp cc tc table.
Proof.
  intros Ht. apply sumOver_nonneg. intros L e He.
  case_decide; [apply (Ht L e He)|done].
Qed.

Lemma costumesAmount_nonneg cc tc (table : gmap Z GameServantCostume) i :
  map_Forall (λ _ c, enhancementNonNeg (costume_materials c)) table →
  0 ≤ costumesAmount cc tc table i.
Proof.
  intros Ht. apply sumOver_nonneg. intros L e He.
  case_decide; [|done]. apply quantityOf_nonneg, (Ht L e He).
Qed.

Lemma servant_nonneg :
  gameServantNonNeg gameServant →
  requirementsNonNeg (_computeServantEnhancementRequirements gameServant cur
                        currentCostumes tgt targetCostumes options).
Proof.
  intros (Hs & Ha & Hasc & Hc). apply requirementsNonNeg_amounts. split.
  - rewrite servant_qp.
    repeat apply Z.add_nonneg_nonneg; apply axisOn_nonneg;
      auto using skillsQp_nonneg, ascensionQp_nonneg, costumesQp_nonneg.
  - intros K i. rewrite servant_amount.
    repeat apply Z.add_nonneg_nonneg;
      (apply Z.mul_nonneg_nonneg; [apply keyWeight_nonneg|apply axisOn_nonneg]);
      auto using skillsAmount_nonneg, ascensionAmount_nonneg, costumesAmount_nonneg.
Qed.

End ServantRecords.

(** A property of requirement records that the all-zero record has, that
    [addEnhancementRequirements] keeps and that the requirements of every
    servant of the catalog have holds of every record of the result. *)
Lemma walk_everyRecord (P : EnhancementRequirements → Prop) gameServantMap masterAccount
    plan precedingPlans optionsOverride :
  P _instantiateEnhancementRequirements →
  (∀ A B, P A → P B → P (addEnhancementRequirements A B)) →
  (∀ gameId gameServant cur cc tgt tc o,
      gameServantMap !! gameId = Some gameServant →
      P (_computeServantEnhancementRequirements gameServant cur cc tgt tc o)) →
  everyRecord P (computePlanRequirements gameServantMap masterAccount plan
                   precedingPlans optionsOverride).
Proof.
  intros H0 Hadd Hcost. apply walk_invariant.
  - split_and!; try done; intros k v Hk; by rewrite lookup_empty in Hk.
  - intros planId tc o t r ps (HT & HG & HP & HS).
    step_cases gameServantMap (_preProcessMasterAccount masterAccount) planId tc o t r ps;
      [|by split_and!].
    assert (P (stepCost (_preProcessMasterAccount masterAccount) tc o r ps ms gs)) as Hc
      by (eapply Hcost, Hg).
    split_and!; cbn [targetPlan group previousPlans servants].
    + destruct t; auto.
    + auto.
    + intros k v. destruct t; [apply HP|].
      destruct (decide (k = planId)) as [->|Hne].
      * rewrite lookup_insert_eq. intros [= <-]. apply Hadd; [|done].
        destruct (previousPlans r !! planId) eqn:Hp; [by eapply HP|done].
      * rewrite lookup_insert_ne by done. apply HP.
    + intros k v. destruct (decide (k = ps_instanceId ps)) as [->|Hne].
      * rewrite lookup_insert_eq. intros [= <-]. cbn [requirements].
        assert (P match servants r !! ps_instanceId ps with
                  | Some psr => requirements psr
                  | None => _instantiateEnhancementRequirements
                  end) as Hprev.
        { destruct (servants r !! ps_instanceId ps) eqn:Hp; [by eapply HS|done]. }
        destruct t; auto.
      * rewrite lookup_insert_ne by done. apply HS.
Qed.

(** X3: embers and the item debt are never computed: every record of the
    result asks for zero embers of every rarity, and the item debt table is
    empty; the record of [computeServantEnhancementRequirements] asks for
    zero embers as well. *)
Theorem embers_and_itemDebt_never_computed :
  (∀ gameServantMap masterAccount plan precedingPlans optionsOverride,
     let result := computePlanRequirements gameServantMap masterAccount plan
                     precedingPlans optionsOverride in
     itemDebt result = ∅ ∧
     everyRecord (λ r, embers r = mkEmbers 0 0 0 0 0) result) ∧
  (∀ gameServant currentEnhancements currentCostumes options,
     embers (computeServantEnhancementRequirements gameServant currentEnhancements
               currentCostumes options) = mkEmbers 0 0 0 0 0).
Proof.
  split.
  - intros g ma plan pps oo. cbv zeta. split.
    + apply (walk_invariant (λ r, itemDebt r = ∅)); [done|].
      intros planId tc o t r ps IH.
      step_cases g (_preProcessMasterAccount ma) planId tc o t r ps; done.
    + apply walk_everyRecord.
      * reflexivity.
      * intros A B HA HB. by rewrite embers_add, HA, HB.
      * intros. apply servant_embers.
  - intros. apply servant_embers.
Qed.

(** X4: in every record the engine returns, the total of each item entry is
    the sum of its ascension, skill, append skill and costume amounts. *)
Theorem totals_are_sums_of_categories :
  (∀ gameServantMap masterAccount plan precedingPlans optionsOverride,
     everyRecord totalsConsistent
       (computePlanRequirements gameServantMap masterAccount plan precedingPlans
          optionsOverride)) ∧
  (∀ gameServant currentEnhancements currentCostumes options,
     totalsConsistent
       (computeServantEnhancementRequirements gameServant currentEnhancements
          currentCostumes options)) ∧
  (∀ A B, totalsConsistent A → totalsConsistent B →
          totalsConsistent (addEnhancementRequirements A B)).
Proof.
  split_and!.
  - intros. apply walk_everyRecord.
    + intros i e He. exfalso. exact (lookup_empty_Some (M := gmap Z) i e He).
    + apply totalsConsistent_add.
    + intros. apply servant_totalsConsistent.
  - intros. apply servant_totalsConsistent.
  - apply totalsConsistent_add.
Qed.

(** X5: with a catalog whose quantities and qp costs are not negative, no
    counter of any record of the result is negative. *)
Theorem nonnegative_catalog_nonnegative_result gameServantMap masterAccount plan
    precedingPlans optionsOverride :
  catalogNonNeg gameServantMap →
  everyRecord requirementsNonNeg
    (computePlanRequirements gameServantMap masterAccount plan precedingPlans
       optionsOverride).
Proof.
  intros Hcat. apply walk_everyRecord.
  - split; [done|]. intros i e K He. exfalso. exact (lookup_empty_Some (M := gmap Z) i e He).
  - apply requirementsNonNeg_add.
  - intros k gs cur cc tgt tc o Hk. apply servant_nonneg, (Hcat k gs Hk).
Qed.

(** ** The entries of a result *)

Section Entries.

Variables (gameServantMap : gmap Z GameServant) (masterAccountData : MasterAccountData).

Let booked (ps : PlanServant) : Prop :=
  resolved gameServantMap masterAccountData ps = true.

Lemma step_servants_dom planId tc o t r ps k :
  is_Some (servants (computePlanServantStep gameServantMap masterAccountData planId
                       tc o t r ps) !! k) ↔
  is_Some (servants r !! k) ∨ (booked ps ∧ ps_instanceId ps = k).
Proof.
  unfold booked.
  step_cases gameServantMap masterAccountData planId tc o t r ps.
  - cbn [servants]. destruct (decide (ps_instanceId ps = k)) as [<-|Hne].
    + rewrite lookup_insert_eq. split; [by right|by eexists].
    + rewrite lookup_insert_ne by done.
      split; [by left|]. intros [?|[_ ?]]; [done|congruence].
  - split; [by left|]. intros [?|[? _]]; [done|congruence].
Qed.

Lemma step_servants_keys planId tc o t r ps :
  (∀ k psr, servants r !! k = Some psr → psr_instanceId psr = k) →
  ∀ k psr,
    servants (computePlanServantStep gameServantMap masterAccountData planId
                tc o t r ps) !! k = Some psr →
    psr_instanceId psr = k.
Proof.
  intros IH k psr.
  step_cases gameServantMap masterAccountData planId tc o t r ps; [|apply IH].
  cbn [servants]. destruct (decide (ps_instanceId ps = k)) as [<-|Hne].
  - rewrite lookup_insert_eq. intros [= <-]. cbn [psr_instanceId].
    destruct (servants r !! ps_instanceId ps) as [old|] eqn:Ho; [|done].
    by apply IH.
  - rewrite lookup_insert_ne by done. apply IH.
Qed.

Lemma step_previousPlans_dom planId tc o t r ps k :
  is_Some (previousPlans (computePlanServantStep gameServantMap masterAccountData
                            planId tc o t r ps) !! k) ↔
  is_Some (previousPlans r !! k) ∨ (t = false ∧ booked ps ∧ planId = k).
Proof.
  unfold booked.
  step_cases gameServantMap masterAccountData planId tc o t r ps.
  - cbn [previousPlans]. destruct t.
    { split; [by left|]. intros [?|[? _]]; [done|congruence]. }
    destruct (decide (planId = k)) as [<-|Hne].
    + rewrite lookup_insert_eq. split; [by right|by eexists].
    + rewrite lookup_insert_ne by done.
      split; [by left|]. intros [?|(_ & _ & ?)]; [done|congruence].
  - split; [by left|]. intros [?|(_ & ? & _)]; [done|congruence].
Qed.

Lemma plan_servants_dom r plan o t k :
  is_Some (servants (_computePlanRequirements r gameServantMap masterAccountData
                       plan o t) !! k) ↔
  is_Some (servants r !! k) ∨
  ∃ ps, ps ∈ plan_servants plan ∧ booked ps ∧ ps_instanceId ps = k.
Proof.
  unfold _computePlanRequirements. cbv zeta.
  generalize (plan_servants plan). intros l. revert r.
  induction l as [|ps l IH]; intros r; simpl.
  - split; [by left|]. intros [?|(ps & Hin & _)]; [done|by apply elem_of_nil in Hin].
  - rewrite IH, step_servants_dom. setoid_rewrite elem_of_cons. split.
    + intros [[?|[? ?]]|(ps' & ? & ? & ?)]; [by left|right..].
      * exists ps. by split_and!; [left|..].
      * exists ps'. by split_and!; [right|..].
    + intros [?|(ps' & [->|?] & ? & ?)]; [by left; left|by left; right|right].
      by exists ps'.
Qed.

Lemma plan_previousPlans_dom r plan o t k :
  is_Some (previousPlans (_computePlanRequirements r gameServantMap masterAccountData
                            plan o t) !! k) ↔
  is_Some (previousPlans r !! k) ∨
  (t = false ∧ plan_id plan = k ∧ ∃ ps, ps ∈ plan_servants plan ∧ booked ps).
Proof.
  unfold _computePlanRequirements. cbv zeta.
  generalize (plan_servants plan). intros l. revert r.
  induction l as [|ps l IH]; intros r; simpl.
  - split; [by left|]. intros [?|(_ & _ & ps & Hin & _)]; [done|by apply elem_of_nil in Hin].
  - rewrite IH, step_previousPlans_dom. setoid_rewrite elem_of_cons. split.
    + intros [[?|(? & ? & ?)]|(? & ? & ps' & ? & ?)]; [by left|right..].
      * split_and!; [done..|]. exists ps. by split; [left|].
      * split_and!; [done..|]. exists ps'. by split; [right|].
    + intros [?|(? & ? & ps' & [->|?] & ?)]; [by left; left|by left; right|right].
      split_and!; [done..|]. by exists ps'.
Qed.

Lemma plans_servants_dom r (plans : list Plan) o t k :
  is_Some (servants (foldl (λ r plan, _computePlanRequirements r gameServantMap
                                         masterAccountData plan o t) r plans) !! k) ↔
  is_Some (servants r !! k) ∨
  ∃ p ps, p ∈ plans ∧ ps ∈ plan_servants p ∧ booked ps ∧ ps_instanceId ps = k.
Proof.
  revert r. induction plans as [|p plans IH]; intros r; simpl.
  - split; [by left|]. intros [?|(p & ps & Hin & _)]; [done|by apply elem_of_nil in Hin].
  - rewrite IH, plan_servants_dom. setoid_rewrite elem_of_cons. split.
    + intros [[?|(ps & ? & ? & ?)]|(p' & ps & ? & ? & ? & ?)]; [by left|right..].
      * exists p, ps. by split_and!; [left|..].
      * exists p', ps. by split_and!; [right|..].
    + intros [?|(p' & ps & [->|?] & ? & ? & ?)]; [by left; left|left; right|right].
      * by exists ps.
      * by exists p', ps.
Qed.

Lemma plans_previousPlans_dom r (plans : list Plan) o k :
  is_Some (previousPlans (foldl (λ r plan, _computePlanRequirements r gameServantMap
                                   masterAccountData plan o false) r plans) !! k) ↔
  is_Some (previousPlans r !! k) ∨
  ∃ p ps, p ∈ plans ∧ plan_id p = k ∧ ps ∈ plan_servants p ∧ booked ps.
Proof.
  revert r. induction plans as [|p plans IH]; intros r; simpl.
  - split; [by left|]. intros [?|(p & ps & Hin & _)]; [done|by apply elem_of_nil in Hin].
  - rewrite IH, plan_previousPlans_dom. setoid_rewrite elem_of_cons. split.
    + intros [[?|(_ & ? & ps & ? & ?)]|(p' & ps & ? & ? & ? & ?)]; [by left|right..].
      * exists p, ps. by split_and!; [left|..].
      * exists p', ps. by split_and!; [right|..].
    + intros [?|(p' & ps & [->|?] & ? & ? & ?)]; [by left; left|left; right|right].
      * split_and!; [done..|]. by exists ps.
      * by exists p', ps.
Qed.

End Entries.

(** X6: the result has an entry for an instance id exactly when some plan of
    the walk, preceding or target, has an enabled directive for that id that
    the roster and the catalog resolve; every entry is stored under its own
    instance id. *)
Theorem servant_entries_are_resolved_directives gameServantMap masterAccount plan
    precedingPlans optionsOverride :
  let masterAccountData := _preProcessMasterAccount masterAccount in
  let result := computePlanRequirements gameServantMap masterAccount plan
                  precedingPlans optionsOverride in
  (∀ instanceId,
     is_Some (servants result !! instanceId) ↔
     ∃ p ps, p ∈ default [] precedingPlans ++ [plan] ∧ ps ∈ plan_servants p ∧
             resolved gameServantMap masterAccountData ps = true ∧
             ps_instanceId ps = instanceId) ∧
  (∀ instanceId psr,
     servants result !! instanceId = Some psr → psr_instanceId psr = instanceId).
Proof.
  cbv zeta. split.
  - intros k. unfold computePlanRequirements. cbv zeta.
    rewrite plan_servants_dom, plans_servants_dom.
    cbn [servants _instantiatePlanRequirements]. rewrite lookup_empty.
    setoid_rewrite elem_of_app. setoid_rewrite list_elem_of_singleton.
    split.
    + intros [[[? Hn]|(p & ps & ? & ? & ? & ?)]|(ps & ? & ? & ?)];
        [done|exists p, ps|exists plan, ps].
      * by split_and!; [left|..].
      * by split_and!; [right|..].
    + intros (p & ps & [Hin| ->] & ? & ? & ?);
        [left; right; by exists p, ps|right; by exists ps].
  - apply (walk_invariant
             (λ r, ∀ k psr, servants r !! k = Some psr → psr_instanceId psr = k)).
    + intros k psr Hk. exfalso. exact (lookup_empty_Some (M := gmap Z) k psr Hk).
    + intros. by eapply step_servants_keys.
Qed.

(** X7: the result has a record for a plan id exactly when a preceding plan
    with that id has at least one directive that is booked; a preceding plan
    whose directives are all skipped gets no record, and the target plan
    never creates one. *)
Theorem previousPlans_entries_are_booked_plans gameServantMap masterAccount plan
    precedingPlans optionsOverride planId :
  let masterAccountData := _preProcessMasterAccount masterAccount in
  let result := computePlanRequirements gameServantMap masterAccount plan
                  precedingPlans optionsOverride in
  is_Some (previousPlans result !! planId) ↔
  ∃ p ps, p ∈ default [] precedingPlans ∧ plan_id p = planId ∧
          ps ∈ plan_servants p ∧
          resolved gameServantMap masterAccountData ps = true.
Proof.
  cbv zeta. unfold computePlanRequirements. cbv zeta.
  rewrite plan_previousPlans_dom, plans_previousPlans_dom.
  cbn [previousPlans _instantiatePlanRequirements]. rewrite lookup_empty.
  split.
  - intros [[[? Hn]|?]|(? & _)]; done.
  - intros ?. left. by right.
Qed.

(** ** Reaching a target by stages *)

Section Stages.

Lemma sumOver_ext {V} (f g : Z → V → Z) (m : gmap Z V) :
  (∀ k v, m !! k = Some v → f k v = g k v) → sumOver f m = sumOver g m.
Proof.
  induction m as [|i x m Hi IH] using map_ind; intros Hfg.
  - by rewrite !sumOver_empty.
  - rewrite !sumOver_insert by done. rewrite IH, (Hfg i x).
    + done.
    + by rewrite lookup_insert_eq.
    + intros k v Hk. apply Hfg. rewrite lookup_insert_ne; [done|]. congruence.
Qed.

Lemma sumOver_add {V} (f g : Z → V → Z) (m : gmap Z V) :
  sumOver (λ k v, f k v + g k v) m = sumOver f m + sumOver g m.
Proof.
  induction m as [|i x m Hi IH] using map_ind.
  - by rewrite !sumOver_empty.
  - rewrite !sumOver_insert by done. rewrite IH. lia.
Qed.

Lemma slot_split c m t L :
  c ≤ m → m ≤ t →
  (if (c >? L) || (L >=? t) then 0 else 1) =
  (if (c >? L) || (L >=? m) then 0 else 1) + (if (m >? L) || (L >=? t) then 0 else 1).
Proof.
  intros Hcm Hmt.
  destruct (Z.gtb_spec c L), (Z.geb_spec L t), (Z.geb_spec L m), (Z.gtb_spec m L);
    simpl; lia.
Qed.

Lemma slotsNeeding_split cur mid tgt L :
  skillsLe cur mid → skillsLe mid tgt →
  slotsNeeding cur tgt L = slotsNeeding cur mid L + slotsNeeding mid tgt L.
Proof.
  intros (H1 & H2 & H3) (G1 & G2 & G3).
  rewrite <- !skillUpgradeCount_slots. unfold skillUpgradeCount.
  rewrite (slot_split _ _ _ L H1 G1), (slot_split _ _ _ L H2 G2),
    (slot_split _ _ _ L H3 G3).
  lia.
Qed.

Lemma chargedSteps_split excl cur mid tgt L :
  skillsLe cur mid → skillsLe mid tgt →
  chargedSteps excl cur tgt L = chargedSteps excl cur mid L + chargedSteps excl mid tgt L.
Proof.
  intros Hc Hm. unfold chargedSteps. destruct (loreSkipped excl L); [done|].
  by apply slotsNeeding_split.
Qed.

Lemma skillsQp_split excl cur mid tgt table :
  skillsLe cur mid → skillsLe mid tgt →
  skillsQp excl cur tgt table = skillsQp excl cur mid table + skillsQp excl mid tgt table.
Proof.
  intros Hc Hm. unfold skillsQp. rewrite <- sumOver_add. apply sumOver_ext.
  intros L e _. rewrite (chargedSteps_split excl cur mid tgt L Hc Hm). lia.
Qed.

Lemma skillsAmount_split excl cur mid tgt table i :
  skillsLe cur mid → skillsLe mid tgt →
  skillsAmount excl cur tgt table i =
  skillsAmount excl cur mid table i + skillsAmount excl mid tgt table i.
Proof.
  intros Hc Hm. unfold skillsAmount. rewrite <- sumOver_add. apply sumOver_ext.
  intros L e _. rewrite (chargedSteps_split excl cur mid tgt L Hc Hm). lia.
Qed.

Lemma ascensionCharged_split (cur mid : ServantEnhancements) m t L :
  ascension mid = Some m → orZero (ascension cur) ≤ m → m ≤ t →
  ascensionCharged cur t L = ascensionCharged cur m L || ascensionCharged mid t L ∧
  ascensionCharged cur m L && ascensionCharged mid t L = false.
Proof.
  intros Hm Hc Ht. unfold ascensionCharged. rewrite Hm. cbn [orZero default from_option id].
  destruct (Z.ltb_spec (orZero (ascension cur)) L), (Z.leb_spec L t),
    (Z.leb_spec L m), (Z.ltb_spec m L); simpl; split; try reflexivity; lia.
Qed.

Lemma ascensionQp_split (cur mid tgt : ServantEnhancements) table :
  enhancementsLe cur mid → enhancementsLe mid tgt →
  is_Some (ascension mid) → is_Some (ascension tgt) →
  ascensionQp cur tgt table = ascensionQp cur mid table + ascensionQp mid tgt table.
Proof.
  intros (Hc & _) (Hm & _) [m Hmid] [t Htgt]. unfold ascensionQp.
  rewrite Hmid, Htgt in *. cbn in Hc, Hm. destruct table as [tb|]; [|done].
  rewrite <- sumOver_add. apply sumOver_ext. intros L e _.
  destruct (ascensionCharged_split cur mid m t L Hmid Hc Hm) as [-> Hx].
  destruct (ascensionCharged cur m L), (ascensionCharged mid t L); simpl in *;
    first [discriminate|lia].
Qed.

Lemma ascensionAmount_split (cur mid tgt : ServantEnhancements) table i :
  enhancementsLe cur mid → enhancementsLe mid tgt →
  is_Some (ascension mid) → is_Some (ascension tgt) →
  ascensionAmount cur tgt table i =
  ascensionAmount cur mid table i + ascensionAmount mid tgt table i.
Proof.
  intros (Hc & _) (Hm & _) [m Hmid] [t Htgt]. unfold ascensionAmount.
  rewrite Hmid, Htgt in *. cbn in Hc, Hm. destruct table as [tb|]; [|done].
  rewrite <- sumOver_add. apply sumOver_ext. intros L e _.
  destruct (ascensionCharged_split cur mid m t L Hmid Hc Hm) as [-> Hx].
  destruct (ascensionCharged cur m L), (ascensionCharged mid t L); simpl in *;
    first [discriminate|lia].
Qed.

End Stages.

(** X8: reaching a target in two stages, first an intermediate target
    between the current state and the final target, then the final target
    from there, costs what reaching the final target directly costs, plus
    the costumes once more: every stage charges the costumes against the
    same unlocked set.  This holds of the qp and of every amount of every
    material. *)
Theorem two_stages_cost_the_direct_cost gameServant cur mid tgt currentCostumes
    targetCostumes options :
  enhancementsLe cur mid → enhancementsLe mid tgt →
  is_Some (ascension mid) → is_Some (ascension tgt) →
  let requirementsOf from to :=
    _computeServantEnhancementRequirements gameServant from currentCostumes to
      targetCostumes (Some options) in
  let costumes :=
    axisOn (includeCostumes options)
      (costumesQp currentCostumes targetCostumes (gs_costumes gameServant)) in
  let costumeItems itemId :=
    axisOn (includeCostumes options)
      (costumesAmount currentCostumes targetCostumes (gs_costumes gameServant) itemId) in
  qp (requirementsOf cur mid) + qp (requirementsOf mid tgt) =
    qp (requirementsOf cur tgt) + costumes ∧
  ∀ K itemId,
    itemAmount K (requirementsOf cur mid) itemId +
    itemAmount K (requirementsOf mid tgt) itemId =
    itemAmount K (requirementsOf cur tgt) itemId +
    keyWeight KCostumes K * costumeItems itemId.
Proof.
  intros Hcm Hmt Hmid Htgt. cbv zeta.
  pose proof Hcm as (_ & Hs1 & Ha1). pose proof Hmt as (_ & Hs2 & Ha2). split.
  - rewrite !servant_qp. cbn [default from_option id].
    rewrite (skillsQp_split _ (skills cur) (skills mid) (skills tgt)) by done.
    rewrite (skillsQp_split _ (appendSkills cur) (appendSkills mid) (appendSkills tgt))
      by done.
    rewrite (ascensionQp_split cur mid tgt) by done.
    unfold axisOn. repeat destruct (truthy _); lia.
  - intros K i. rewrite !servant_amount. cbn [default from_option id].
    rewrite (skillsAmount_split _ (skills cur) (skills mid) (skills tgt)) by done.
    rewrite (skillsAmount_split _ (appendSkills cur) (appendSkills mid)
               (appendSkills tgt)) by done.
    rewrite (ascensionAmount_split cur mid tgt) by done.
    unfold axisOn. repeat destruct (truthy _); lia.
Qed.

(** ** Nothing to pay, and paying more for more *)

Section Bounds.

Lemma if_both {T} (b : bool) (x : T) : (if b then x else x) = x.
Proof. by destruct b. Qed.

Lemma map_fold_skip {V S} (step : Z → V → S → S) (m : gmap Z V) (s : S) :
  (∀ k v s', m !! k = Some v → step k v s' = s') → map_fold step s m = s.
Proof.
  apply (map_fold_weak_ind
           (λ r m', (∀ k v s', m' !! k = Some v → step k v s' = s') → r = s)).
  - done.
  - intros i x m' r Hi IH Hskip.
    rewrite Hskip by (by rewrite lookup_insert_eq).
    apply IH. intros k v s' Hk. apply Hskip.
    rewrite lookup_insert_ne; [done|]. congruence.
Qed.

Lemma sumOver_mono {V} (f g : Z → V → Z) (m : gmap Z V) :
  (∀ k v, m !! k = Some v → f k v ≤ g k v) → sumOver f m ≤ sumOver g m.
Proof.
  induction m as [|i x m Hi IH] using map_ind; intros Hfg.
  - by rewrite !sumOver_empty.
  - rewrite !sumOver_insert by done.
    assert (f i x ≤ g i x) by (apply Hfg; by rewrite lookup_insert_eq).
    assert (sumOver f m ≤ sumOver g m).
    { apply IH. intros k v Hk. apply Hfg. rewrite lookup_insert_ne; [done|]. congruence. }
    lia.
Qed.

Lemma slot_done c t L : t ≤ c → (if (c >? L) || (L >=? t) then 0 else 1) = 0.
Proof. intros Htc. destruct (Z.gtb_spec c L), (Z.geb_spec L t); simpl; lia. Qed.

Lemma updateForSkillLevel_done cur tgt ty excl L e result :
  skillsLe tgt cur → updateForSkillLevel cur tgt ty excl L e result = result.
Proof.
  intros (H1 & H2 & H3). unfold updateForSkillLevel. cbv zeta.
  destruct (truthy excl && (L =? MaxSkillLevel - 1)); [done|].
  unfold skillUpgradeCount. by rewrite !slot_done.
Qed.

Lemma updateForAscension_done (cur : ServantEnhancements) ta L e result :
  ta ≤ orZero (ascension cur) → updateForAscension cur ta L e result = result.
Proof.
  intros Hle. unfold updateForAscension. cbv zeta.
  destruct (Z.geb_spec (orZero (ascension cur)) L), (Z.gtb_spec L ta); simpl;
    first [done|lia].
Qed.

Lemma updateForCostume_unlocked cc tc id c result :
  id ∈ cc → updateForCostume cc tc id c result = result.
Proof.
  intros Hin. unfold updateForCostume, costumeSkipped.
  by rewrite (bool_decide_eq_true_2 _ Hin).
Qed.

Lemma slot_mono c m t L :
  m ≤ t →
  (if (c >? L) || (L >=? m) then 0 else 1) ≤ (if (c >? L) || (L >=? t) then 0 else 1).
Proof.
  intros Hmt. destruct (Z.gtb_spec c L), (Z.geb_spec L m), (Z.geb_spec L t); simpl; lia.
Qed.

Lemma chargedSteps_mono excl cur mid tgt L :
  skillsLe mid tgt → chargedSteps excl cur mid L ≤ chargedSteps excl cur tgt L.
Proof.
  intros (H1 & H2 & H3). unfold chargedSteps. destruct (loreSkipped excl L); [done|].
  rewrite <- !skillUpgradeCount_slots. unfold skillUpgradeCount.
  pose proof (slot_mono (orZero (skill1 cur)) _ _ L H1).
  pose proof (slot_mono (orZero (skill2 cur)) _ _ L H2).
  pose proof (slot_mono (orZero (skill3 cur)) _ _ L H3).
  lia.
Qed.

Lemma skillsQp_mono excl cur mid tgt table :
  tableNonNeg table → skillsLe mid tgt →
  skillsQp excl cur mid table ≤ skillsQp excl cur tgt table.
Proof.
  intros Ht Hle. apply sumOver_mono. intros L e He.
  apply Z.mul_le_mono_nonneg_r; [apply (Ht L e He)|by apply chargedSteps_mono].
Qed.

Lemma skillsAmount_mono excl cur mid tgt table i :
  tableNonNeg table → skillsLe mid tgt →
  skillsAmount excl cur mid table i ≤ skillsAmount excl cur tgt table i.
Proof.
  intros Ht Hle. apply sumOver_mono. intros L e He.
  apply Z.mul_le_mono_nonneg_r; [|by apply chargedSteps_mono].
  apply quantityOf_nonneg, (Ht L e He).
Qed.

Lemma ascensionCharged_mono (cur : ServantEnhancements) m t L :
  m ≤ t → ascensionCharged cur m L = true → ascensionCharged cur t L = true.
Proof.
  unfold ascensionCharged. intros Hmt.
  rewrite !andb_true_iff, !Z.ltb_lt, !Z.leb_le. lia.
Qed.

Lemma ascensionQp_mono (cur mid tgt : ServantEnhancements) table :
  tableNonNeg (default ∅ table) → is_Some (ascension tgt) →
  orZero (ascension mid) ≤ orZero (ascension tgt) →
  ascensionQp cur mid table ≤ ascensionQp cur tgt table.
Proof.
  intros Ht [t Htgt] Hle.
  destruct (ascension mid) as [m|] eqn:Hmid;
    [|unfold ascensionQp at 1; rewrite Hmid; by apply ascensionQp_nonneg].
  unfold ascensionQp. rewrite Hmid, Htgt. rewrite Htgt in Hle. cbn in Hle.
  destruct table as [tb|]; [|done].
  apply sumOver_mono. intros L e He.
  destruct (ascensionCharged cur m L) eqn:Hc.
  - by rewrite (ascensionCharged_mono cur m t L Hle Hc).
  - destruct (ascensionCharged cur t L); [apply (Ht L e He)|done].
Qed.

Lemma ascensionAmount_mono (cur mid tgt : ServantEnhancements) table i :
  tableNonNeg (default ∅ table) → is_Some (ascension tgt) →
  orZero (ascension mid) ≤ orZero (ascension tgt) →
  ascensionAmount cur mid table i ≤ ascensionAmount cur tgt table i.
Proof.
  intros Ht [t Htgt] Hle.
  destruct (ascension mid) as [m|] eqn:Hmid;
    [|unfold ascensionAmount at 1; rewrite Hmid; by apply ascensionAmount_nonneg].
  unfold ascensionAmount. rewrite Hmid, Htgt. rewrite Htgt in Hle. cbn in Hle.
  destruct table as [tb|]; [|done].
  apply sumOver_mono. intros L e He.
  destruct (ascensionCharged cur m L) eqn:Hc.
  - by rewrite (ascensionCharged_mono cur m t L Hle Hc).
  - destruct (ascensionCharged cur t L); [|done].
    apply quantityOf_nonneg, (Ht L e He).
Qed.

Lemma axisOn_mono flag x y : x ≤ y → axisOn flag x ≤ axisOn flag y.
Proof. unfold axisOn. destruct (truthy flag); lia. Qed.

End Bounds.

(** X9: a servant whose levels are all at or above the target levels, and
    whose costumes of the catalog are all unlocked, needs nothing: the
    result is the freshly instantiated record, with no item entry at all. *)
Theorem nothing_to_pay_at_or_above_target gameServant cur tgt currentCostumes
    targetCostumes options :
  enhancementsLe tgt cur →
  (∀ costumeId, is_Some (gs_costumes gameServant !! costumeId) →
                costumeId ∈ currentCostumes) →
  _computeServantEnhancementRequirements gameServant cur currentCostumes tgt
    targetCostumes options = _instantiateEnhancementRequirements.
Proof.
  intros (Hasc & Hs & Ha) Hc. unfold _computeServantEnhancementRequirements.
  cbv zeta. unfold _updateResultForSkills.
  rewrite (map_fold_skip (updateForCostume _ _))
    by (intros; apply updateForCostume_unlocked, Hc; by eexists).
  rewrite if_both.
  assert (∀ r : EnhancementRequirements,
    match truthy (includeAscensions (default _defaultOptions options)),
          ascension tgt with
    | true, Some targetAscension =>
        match ascensionMaterials gameServant with
        | Some ascensions =>
            map_fold (updateForAscension cur targetAscension) r ascensions
        | None => r
        end
    | _, _ => r
    end = r) as ->.
  { intros r. destruct (truthy _); [|done].
    destruct (ascension tgt) as [ta|]; [|done].
    destruct (ascensionMaterials gameServant); [|done].
    apply map_fold_skip. intros. by apply updateForAscension_done. }
  rewrite !(map_fold_skip (updateForSkillLevel _ _ _ _))
    by (intros; by apply updateForSkillLevel_done).
  by rewrite !if_both.
Qed.

(** X10: with a catalog entry without negative quantities and costs, a
    higher target is never cheaper: from the same current state, no qp and
    no amount of any material goes down when target levels go up. *)
Theorem higher_target_never_cheaper gameServant cur mid tgt currentCostumes
    targetCostumes options :
  gameServantNonNeg gameServant →
  enhancementsLe mid tgt → is_Some (ascension tgt) →
  let requirementsOf to :=
    _computeServantEnhancementRequirements gameServant cur currentCostumes to
      targetCostumes options in
  qp (requirementsOf mid) ≤ qp (requirementsOf tgt) ∧
  ∀ K itemId,
    itemAmount K (requirementsOf mid) itemId ≤ itemAmount K (requirementsOf tgt) itemId.
Proof.
  intros (Hts & Hta & Htasc & Htc) (Hasc & Hs & Ha) Htgt. cbv zeta. split.
  - rewrite !servant_qp.
    repeat apply Z.add_le_mono; try apply axisOn_mono;
      auto using skillsQp_mono, ascensionQp_mono, Z.le_refl.
  - intros K i. rewrite !servant_amount.
    repeat apply Z.add_le_mono;
      try (apply Z.mul_le_mono_nonneg_l; [apply keyWeight_nonneg|apply axisOn_mono]);
      auto using skillsAmount_mono, ascensionAmount_mono, Z.le_refl.
Qed.

(** ** Sums of lists of records *)

(** X11: the sum of a list of records splits along the list: the sum of a
    concatenation is the sum of the two sums, the qp of a sum is the sum of
    the qp, and the amount of a material in a sum is the sum of its
    amounts. *)
Theorem sum_splits_along_the_list :
  (∀ l1 l2,
     sumEnhancementRequirements (l1 ++ l2) =
     addEnhancementRequirements (sumEnhancementRequirements l1)
                                (sumEnhancementRequirements l2)) ∧
  (∀ l, qp (sumEnhancementRequirements l) = foldr (λ r acc, qp r + acc) 0 l) ∧
  (∀ K itemId l,
     itemAmount K (sumEnhancementRequirements l) itemId =
     foldr (λ r acc, itemAmount K r itemId + acc) 0 l).
Proof.
  split_and!.
  - apply sum_app.
  - induction l as [|r l IH]; [done|]. rewrite sum_cons. cbn. by rewrite IH.
  - intros K i. induction l as [|r l IH]; [by destruct K|].
    rewrite sum_cons, itemAmount_add. cbn. by rewrite IH.
Qed.

(** X12: the sum of a list of records does not depend on the order of the
    list. *)
Theorem sum_order_irrelevant (l1 l2 : list EnhancementRequirements) :
  l1 ≡ₚ l2 → sumEnhancementRequirements l1 = sumEnhancementRequirements l2.
Proof. apply sum_permutation. Qed.


(** ** The footer of the requirements table *)

(** X15: the deficit cell of an item is empty exactly when the inventory
    holds at least the total the group requires; otherwise it shows the
    positive shortfall, which added to the inventory gives the required
    total.  The required cell is empty exactly when the group has no entry
    for the item, and each row has one cell per displayed item. *)
Theorem footer_deficit_is_the_shortfall masterItems planRequirements :
  (∀ itemId,
     let quantity := orZero (masterItems !! itemId) in
     let required := itemAmount KTotal (group planRequirements) itemId in
     (PlanRequirementsTableFooter.renderDeficitItemCell masterItems planRequirements
        itemId = None ↔ required ≤ quantity) ∧
     (∀ deficit,
        PlanRequirementsTableFooter.renderDeficitItemCell masterItems planRequirements
          itemId = Some deficit →
        0 < deficit ∧ quantity + deficit = required)) ∧
  (∀ itemId,
     PlanRequirementsTableFooter.renderRequiredItemCell planRequirements itemId = None ↔
     items (group planRequirements) !! itemId = None) ∧
  (∀ displayedItems,
     length (PlanRequirementsTableFooter.deficitRow masterItems planRequirements
               displayedItems) = length displayedItems).
Proof.
  split_and!.
  - intros i. cbv zeta.
    unfold PlanRequirementsTableFooter.renderDeficitItemCell, itemAmount. cbv zeta.
    assert (orZero (ir_total <$> items (group planRequirements) !! i) =
            itemField KTotal (default _instantiateEnhancementItemRequirements
                                (items (group planRequirements) !! i))) as ->
      by (by destruct (items (group planRequirements) !! i)).
    generalize (itemField KTotal (default _instantiateEnhancementItemRequirements
                                    (items (group planRequirements) !! i))).
    generalize (orZero (masterItems !! i)). intros q r.
    destruct (Z.eqb_spec (Z.max (r - q) 0) 0) as [Hz|Hnz]; split.
    + split; [lia|done].
    + intros d [=].
    + split; [done|lia].
    + intros d [= <-]. lia.
  - intros i. unfold PlanRequirementsTableFooter.renderRequiredItemCell. cbv zeta.
    apply fmap_None.
  - intros l. unfold PlanRequirementsTableFooter.deficitRow. apply length_fmap.
Qed.

(** ** Axes and stages *)

(** X16: the four axes are charged independently of each other: the qp and
    every amount of the result are the sums of those of the four runs that
    keep one axis of the options and switch the others off. *)
Theorem axes_are_charged_independently gameServant cur tgt currentCostumes
    targetCostumes options :
  let requirementsWith o :=
    _computeServantEnhancementRequirements gameServant cur currentCostumes tgt
      targetCostumes (Some o) in
  qp (requirementsWith options) =
    qp (requirementsWith (onlySkills options)) +
    qp (requirementsWith (onlyAppendSkills options)) +
    qp (requirementsWith (onlyAscensions options)) +
    qp (requirementsWith (onlyCostumes options)) ∧
  ∀ K itemId,
    itemAmount K (requirementsWith options) itemId =
      itemAmount K (requirementsWith (onlySkills options)) itemId +
      itemAmount K (requirementsWith (onlyAppendSkills options)) itemId +
      itemAmount K (requirementsWith (onlyAscensions options)) itemId +
      itemAmount K (requirementsWith (onlyCostumes options)) itemId.
Proof.
  cbv zeta. split.
  - rewrite !servant_qp.
    cbn [default from_option id onlySkills onlyAppendSkills onlyAscensions onlyCostumes
         includeSkills includeAppendSkills includeAscensions includeCostumes
         excludeLores].
    change (axisOn (Some false) ?x) with 0. lia.
  - intros K i. rewrite !servant_amount.
    cbn [default from_option id onlySkills onlyAppendSkills onlyAscensions onlyCostumes
         includeSkills includeAppendSkills includeAscensions includeCostumes
         excludeLores].
    change (axisOn (Some false) ?x) with 0. lia.
Qed.

Section StagedPlans.

Variables (gameServantMap : gmap Z GameServant) (masterAccount : MasterAccount).
Variables (masterServant : MasterServant) (gameServant : GameServant).
Variable optionsOverride : option ComputationOptions.

(** The walk over a single plan of one directive: the plan is charged from
    the live state to its target. *)
Lemma one_plan idB flagsB costumesB directiveB :
  let planB := mkPlan idB flagsB [directiveB] costumesB in
  let options := match optionsOverride with
                 | Some o => o
                 | None => _parseComputationOptions flagsB
                 end in
  let costB :=
    _computeServantEnhancementRequirements gameServant
      (ms_enhancements masterServant) (toReadonlySet (ma_costumes masterAccount))
      (ps_enhancements directiveB) (Some (toReadonlySet costumesB))
      (Some (_mergeComputationOptions options
               (_parseComputationOptions (ps_enabled directiveB)))) in
  ps_enabled_servant directiveB = true →
  mad_servants (_preProcessMasterAccount masterAccount) !! ps_instanceId directiveB
    = Some masterServant →
  gameServantMap !! ms_gameId masterServant = Some gameServant →
  let result := computePlanRequirements gameServantMap masterAccount planB None
                  optionsOverride in
  targetPlan result = costB ∧ group result = costB.
Proof.
  intros planB options costB He Hm Hg. subst planB options costB.
  unfold computePlanRequirements. cbv zeta.
  cbn [default from_option id foldl]. unfold _computePlanRequirements.
  cbn [plan_servants plan_id plan_costumes plan_enabled foldl].
  set (options := match optionsOverride with Some o => o | None => _ end).
  rewrite (step_resolved gameServantMap _ idB _ options true _ directiveB
             masterServant gameServant He Hm Hg).
  cbn [targetPlan group]. unfold stepCost, baselineOf, _instantiatePlanRequirements.
  cbn [servants targetPlan group]. rewrite lookup_empty.
  rewrite !add_zero_l. split; reflexivity.
Qed.

End StagedPlans.

(** X17: an intermediate plan put before a plan changes the group total by
    the costumes it charges and by nothing else.  For a servant with one
    directive in each plan, with the same flags, the intermediate target
    between the live state and the final target: the group of the two-plan
    walk holds the qp and the amounts of the one-plan walk, plus the
    costumes the intermediate plan charges. *)
Theorem intermediate_plan_adds_only_its_costumes gameServantMap masterAccount
    masterServant gameServant optionsOverride
    idA flagsA costumesA directiveA idB flagsB costumesB directiveB :
  let planA := mkPlan idA flagsA [directiveA] costumesA in
  let planB := mkPlan idB flagsB [directiveB] costumesB in
  let options := _mergeComputationOptions
                   (match optionsOverride with
                    | Some o => o
                    | None => _parseComputationOptions flagsB
                    end)
                   (_parseComputationOptions (ps_enabled directiveA)) in
  let unlocked : gset Z := list_to_set (ma_costumes masterAccount) in
  ps_enabled_servant directiveA = true →
  ps_enabled_servant directiveB = true →
  ps_instanceId directiveB = ps_instanceId directiveA →
  ps_enabled directiveB = ps_enabled directiveA →
  mad_servants (_preProcessMasterAccount masterAccount) !! ps_instanceId directiveA
    = Some masterServant →
  gameServantMap !! ms_gameId masterServant = Some gameServant →
  enhancementsLe (ms_enhancements masterServant) (ps_enhancements directiveA) →
  enhancementsLe (ps_enhancements directiveA) (ps_enhancements directiveB) →
  is_Some (ascension (ps_enhancements directiveA)) →
  is_Some (ascension (ps_enhancements directiveB)) →
  let staged := computePlanRequirements gameServantMap masterAccount planB
                  (Some [planA]) optionsOverride in
  let direct := computePlanRequirements gameServantMap masterAccount planB None
                  optionsOverride in
  qp (group staged) =
    qp (group direct) +
    axisOn (includeCostumes options)
      (costumesQp unlocked (Some (list_to_set costumesA)) (gs_costumes gameServant)) ∧
  ∀ K itemId,
    itemAmount K (group staged) itemId =
      itemAmount K (group direct) itemId +
      keyWeight KCostumes K *
        axisOn (includeCostumes options)
          (costumesAmount unlocked (Some (list_to_set costumesA))
             (gs_costumes gameServant) itemId).
Proof.
  intros planA planB options unlocked HeA HeB Hid Hflags Hm Hg Hlive Hab HsA HsB
    staged direct.
  destruct (two_plan_chain gameServantMap masterAccount masterServant gameServant
              optionsOverride idA flagsA costumesA directiveA idB flagsB costumesB
              directiveB HeA HeB Hid Hm Hg) as (_ & _ & Hstaged).
  assert (mad_servants (_preProcessMasterAccount masterAccount) !!
            ps_instanceId directiveB = Some masterServant) as HmB by (by rewrite Hid).
  destruct (one_plan gameServantMap masterAccount masterServant gameServant
              optionsOverride idB flagsB costumesB directiveB HeB HmB Hg)
    as (_ & Hdirect).
  subst staged direct planA planB. rewrite Hstaged, Hdirect. clear Hstaged Hdirect.
  pose proof Hlive as (_ & Hs1 & Ha1). pose proof Hab as (_ & Hs2 & Ha2).
  rewrite Hflags. fold options. unfold toReadonlySet. fold unlocked. split.
  - change (qp (addEnhancementRequirements ?A ?B)) with (qp A + qp B).
    rewrite !servant_qp. cbn [default from_option id].
    rewrite (skillsQp_split _ (skills (ms_enhancements masterServant))
               (skills (ps_enhancements directiveA))
               (skills (ps_enhancements directiveB))) by done.
    rewrite (skillsQp_split _ (appendSkills (ms_enhancements masterServant))
               (appendSkills (ps_enhancements directiveA))
               (appendSkills (ps_enhancements directiveB))) by done.
    rewrite (ascensionQp_split (ms_enhancements masterServant)
               (ps_enhancements directiveA) (ps_enhancements directiveB)) by done.
    unfold axisOn. repeat destruct (truthy _); lia.
  - intros K i. rewrite itemAmount_add, !servant_amount. cbn [default from_option id].
    rewrite (skillsAmount_split _ (skills (ms_enhancements masterServant))
               (skills (ps_enhancements directiveA))
               (skills (ps_enhancements directiveB))) by done.
    rewrite (skillsAmount_split _ (appendSkills (ms_enhancements masterServant))
               (appendSkills (ps_enhancements directiveA))
               (appendSkills (ps_enhancements directiveB))) by done.
    rewrite (ascensionAmount_split (ms_enhancements masterServant)
               (ps_enhancements directiveA) (ps_enhancements directiveB)) by done.
    unfold axisOn. repeat destruct (truthy _); lia.
Qed.

(** ** The record kept per servant *)

Section PerServant.

Variables (gameServantMap : gmap Z GameServant) (masterAccountData : MasterAccountData).

Let unbooked (r : PlanRequirements) : Prop :=
  ∀ k psr, servants r !! k = Some psr →
           requirements psr = _instantiateEnhancementRequirements.

Lemma step_preceding_unbooked planId tc o r ps :
  unbooked r →
  unbooked (computePlanServantStep gameServantMap masterAccountData planId tc o false
              r ps).
Proof.
  intros IH k psr.
  step_cases gameServantMap masterAccountData planId tc o false r ps; [|apply IH].
  cbn [servants]. destruct (decide (k = ps_instanceId ps)) as [->|Hne].
  - rewrite lookup_insert_eq. intros [= <-]. cbn [requirements].
    destruct (servants r !! ps_instanceId ps) as [old|] eqn:Ho; [|done].
    by eapply IH.
  - rewrite lookup_insert_ne by done. apply IH.
Qed.

Lemma preceding_unbooked r (plans : list Plan) o :
  unbooked r →
  unbooked (foldl (λ r plan, _computePlanRequirements r gameServantMap
                               masterAccountData plan o false) r plans).
Proof.
  revert r. induction plans as [|p plans IH]; intros r Hr; [done|].
  simpl. apply IH. unfold _computePlanRequirements. cbv zeta.
  generalize (plan_servants p). intros l. revert r Hr.
  induction l as [|ps l IHl]; intros r Hr; [done|].
  simpl. by apply IHl, step_preceding_unbooked.
Qed.

Lemma plan_other_servant r plan o t k :
  (∀ ps, ps ∈ plan_servants plan →
         resolved gameServantMap masterAccountData ps = true →
         ps_instanceId ps ≠ k) →
  servants (_computePlanRequirements r gameServantMap masterAccountData plan o t) !! k =
  servants r !! k.
Proof.
  unfold _computePlanRequirements. cbv zeta.
  generalize (plan_servants plan). intros l. revert r.
  induction l as [|ps l IH]; intros r Hother; [done|].
  simpl. rewrite IH by (intros ps' Hin; apply Hother; by right).
  step_cases gameServantMap masterAccountData (plan_id plan)
    (toReadonlySet (plan_costumes plan)) o t r ps; [|done].
  cbn [servants]. apply lookup_insert_ne. apply Hother; [by left|done].
Qed.

End PerServant.

(** X18: the record kept per servant holds the requirements of the target
    plan only: a servant that the preceding plans book and the target plan
    does not keeps the freshly instantiated record, with qp 0 and no item
    entry. *)
Theorem servant_record_holds_target_plan_only gameServantMap masterAccount plan
    precedingPlans optionsOverride instanceId psr :
  let masterAccountData := _preProcessMasterAccount masterAccount in
  let result := computePlanRequirements gameServantMap masterAccount plan
                  precedingPlans optionsOverride in
  (∀ ps, ps ∈ plan_servants plan →
         resolved gameServantMap masterAccountData ps = true →
         ps_instanceId ps ≠ instanceId) →
  servants result !! instanceId = Some psr →
  requirements psr = _instantiateEnhancementRequirements.
Proof.
  cbv zeta. intros Hother. unfold computePlanRequirements. cbv zeta.
  rewrite plan_other_servant by done.
  apply preceding_unbooked. intros k v Hk.
  exfalso. exact (lookup_empty_Some (M := gmap Z) k v Hk).
Qed.

(** ** The order of the directives *)

Section DirectiveOrder.

Variables (gameServantMap : gmap Z GameServant) (masterAccountData : MasterAccountData).
Variables (planId : string) (targetCostumes : gset Z).
Variables (options : ComputationOptions) (isTargetPlan : bool).

Let step := computePlanServantStep gameServantMap masterAccountData planId
              targetCostumes options isTargetPlan.

(** The cost of a directive depends on the result only through the entry of
    its own servant. *)
Lemma stepCost_other_entry result ps ms gs k entry :
  k ≠ ps_instanceId ps →
  stepCost masterAccountData targetCostumes options
    (mkPlanReq (<[k := entry]> (servants result)) (targetPlan result)
               (previousPlans result) (group result) (itemDebt result)) ps ms gs =
  stepCost masterAccountData targetCostumes options result ps ms gs.
Proof.
  intros Hne. unfold stepCost, baselineOf. cbn [servants].
  by rewrite lookup_insert_ne.
Qed.

(** Two directives for different servants can be booked in either order. *)
Lemma step_comm result ps1 ps2 :
  ps_instanceId ps1 ≠ ps_instanceId ps2 →
  step (step result ps1) ps2 = step (step result ps2) ps1.
Proof.
  intros Hne. unfold step.
  destruct (resolved gameServantMap masterAccountData ps1) eqn:H1; cycle 1.
  { by rewrite !(step_skipped _ _ _ _ _ _ _ ps1 H1). }
  destruct (resolved gameServantMap masterAccountData ps2) eqn:H2; cycle 1.
  { by rewrite !(step_skipped _ _ _ _ _ _ _ ps2 H2). }
  apply resolved_inv in H1 as (ms1 & gs1 & He1 & Hm1 & Hg1).
  apply resolved_inv in H2 as (ms2 & gs2 & He2 & Hm2 & Hg2).
  pose proof (step_resolved gameServantMap masterAccountData planId targetCostumes
                options isTargetPlan) as Hs. cbv zeta in Hs.
  rewrite (Hs result ps1 ms1 gs1 He1 Hm1 Hg1), (Hs result ps2 ms2 gs2 He2 Hm2 Hg2).
  rewrite (Hs _ ps2 ms2 gs2 He2 Hm2 Hg2), (Hs _ ps1 ms1 gs1 He1 Hm1 Hg1).
  cbn [servants targetPlan previousPlans group itemDebt].
  unfold stepCost, baselineOf. cbn [servants].
  rewrite !lookup_insert_ne by congruence.
  set (c1 := _computeServantEnhancementRequirements gs1 _ _ _ _ _).
  set (c2 := _computeServantEnhancementRequirements gs2 _ _ _ _ _).
  f_equal.
  - apply insert_insert_ne. congruence.
  - destruct isTargetPlan; [|done].
    rewrite !add_assoc. f_equal. apply add_comm.
  - destruct isTargetPlan; [done|].
    rewrite !lookup_insert_eq, !insert_insert_eq. cbn [default from_option id].
    f_equal. rewrite !add_assoc. f_equal. apply add_comm.
  - rewrite !add_assoc. f_equal. apply add_comm.
Qed.

Lemma directives_any_order result (l1 l2 : list PlanServant) :
  l1 ≡ₚ l2 → NoDup (ps_instanceId <$> l1) →
  foldl step result l1 = foldl step result l2.
Proof.
  intros Hperm. revert result.
  induction Hperm as [|x l1 l2 _ IH|x y l|l1 l2 l3 H12 IH1 _ IH2]; intros result Hnd.
  - done.
  - simpl. apply IH. rewrite fmap_cons in Hnd. by apply NoDup_cons_1_2 in Hnd.
  - simpl. f_equal. apply step_comm.
    rewrite !fmap_cons in Hnd. apply NoDup_cons_1_1 in Hnd.
    intros Heq. apply Hnd. rewrite Heq. by left.
  - rewrite IH1 by done. apply IH2.
    by rewrite <- (fmap_Permutation ps_instanceId _ _ H12).
Qed.

End DirectiveOrder.

(** X19: the order of the directives of a plan does not matter as long as
    no two of them name the same servant: a plan with its directives
    permuted gives the same result. *)
Theorem directive_order_irrelevant_for_distinct_servants result gameServantMap
    masterAccountData plan options isTargetPlan (directives : list PlanServant) :
  directives ≡ₚ plan_servants plan →
  NoDup (ps_instanceId <$> plan_servants plan) →
  _computePlanRequirements result gameServantMap masterAccountData
    (mkPlan (plan_id plan) (plan_enabled plan) directives (plan_costumes plan))
    options isTargetPlan =
  _computePlanRequirements result gameServantMap masterAccountData plan options
    isTargetPlan.
Proof.
  intros Hperm Hnd. unfold _computePlanRequirements.
  cbn [plan_servants plan_id plan_costumes]. cbv zeta.
  symmetry. apply directives_any_order; [by symmetry|done].
Qed.

(** ** The two entry points *)

Section EntryPoints.

Lemma map_fold_agree {V S} (f g : Z → V → S → S) (m : gmap Z V) (s : S) :
  (∀ k v s', m !! k = Some v → f k v s' = g k v s') →
  map_fold f s m = map_fold g s m.
Proof.
  induction m as [|i x m Hi Hfirst IH] using map_first_key_ind; intros Hfg.
  - by rewrite !map_fold_empty.
  - rewrite !map_fold_insert_first_key by done.
    rewrite IH.
    + apply Hfg. by rewrite lookup_insert_eq.
    + intros k v s' Hk. apply Hfg. rewrite lookup_insert_ne; [done|]. congruence.
Qed.

(** A target set that holds every costume of the catalog entry targets what
    an undefined target set targets. *)
Lemma all_costumes_targeted gameServant cur cc tgt (tc : gset Z) options :
  (∀ costumeId, is_Some (gs_costumes gameServant !! costumeId) → costumeId ∈ tc) →
  _computeServantEnhancementRequirements gameServant cur cc tgt (Some tc) options =
  _computeServantEnhancementRequirements gameServant cur cc tgt None options.
Proof.
  intros Hall. unfold _computeServantEnhancementRequirements. cbv zeta.
  destruct (truthy (includeCostumes (default _defaultOptions options))); [|done].
  apply map_fold_agree. intros k c r Hk.
  unfold updateForCostume, costumeSkipped.
  rewrite (bool_decide_eq_true_2 (k ∈ tc)) by (apply Hall; by eexists).
  done.
Qed.

End EntryPoints.

(** X20: with an options override no plan-level flag is read at all: the
    flags of the target plan and of the preceding plans can be replaced by
    any others without changing the result. *)
Theorem override_replaces_every_plan_flag gameServantMap masterAccount plan
    precedingPlans (override : ComputationOptions) (flags : Plan → EnabledAxes) :
  computePlanRequirements gameServantMap masterAccount (setPlanEnabled flags plan)
    (map (setPlanEnabled flags) <$> precedingPlans) (Some override) =
  computePlanRequirements gameServantMap masterAccount plan precedingPlans
    (Some override).
Proof.
  unfold computePlanRequirements. cbv zeta.
  rewrite computePlanRequirements_setPlanEnabled. f_equal.
  destruct precedingPlans as [prev|]; [|reflexivity].
  cbn [fmap option_fmap option_map default from_option id].
  generalize _instantiatePlanRequirements.
  induction prev as [|p l IH]; intros r; [reflexivity|].
  cbn [map foldl]. rewrite computePlanRequirements_setPlanEnabled. apply IH.
Qed.

(** X21: the two entry points agree.  For a servant of the roster and of
    the catalog, the walk over a single plan with every flag set, whose one
    directive targets the maximum levels and whose costume list holds every
    costume of the servant, charges the target plan what
    [computeServantEnhancementRequirements] returns for the live state of
    the servant and the costumes of the account. *)
Theorem plan_to_the_maximum_is_the_servant_requirements gameServantMap masterAccount
    masterServant gameServant planId costumes instanceId :
  let allOn := mkEnabled true true true true in
  let directive := mkPlanServant instanceId true allOn _defaultTargetEnhancements in
  let plan := mkPlan planId allOn [directive] costumes in
  mad_servants (_preProcessMasterAccount masterAccount) !! instanceId
    = Some masterServant →
  gameServantMap !! ms_gameId masterServant = Some gameServant →
  (∀ costumeId, is_Some (gs_costumes gameServant !! costumeId) → costumeId ∈ costumes) →
  targetPlan (computePlanRequirements gameServantMap masterAccount plan None None) =
  computeServantEnhancementRequirements gameServant (ms_enhancements masterServant)
    (ma_costumes masterAccount) None.
Proof.
  intros allOn directive plan Hm Hg Hall.
  destruct (one_plan gameServantMap masterAccount masterServant gameServant None
              planId allOn costumes directive eq_refl Hm Hg) as [Htarget _].
  subst plan. rewrite Htarget. clear Htarget.
  unfold computeServantEnhancementRequirements. cbv zeta.
  rewrite all_costumes_targeted
    by (intros c Hc; apply elem_of_list_to_set; by apply Hall).
  reflexivity.
Qed.

Lemma plan_to_the_maximum_is_the_servant_requirements_witness :
  targetPlan
    (computePlanRequirements Sample.catalog Sample.account
       (mkPlan "max" (mkEnabled true true true true)
          [mkPlanServant 1 true (mkEnabled true true true true)
             _defaultTargetEnhancements] [55]) None None) =
  computeServantEnhancementRequirements Sample.gameServant Sample.live
    (ma_costumes Sample.account) None.
Proof.
  assert (∀ costumeId, is_Some (gs_costumes Sample.gameServant !! costumeId) →
                       costumeId ∈ [55]) as Hall.
  { intros costumeId [c Hc]. apply list_elem_of_singleton.
    destruct (decide (costumeId = 55)) as [->|Hne]; [reflexivity|].
    exfalso. unfold Sample.gameServant in Hc. cbn in Hc.
    rewrite lookup_insert_ne in Hc by done.
    exact (lookup_empty_Some (M := gmap Z) _ _ Hc). }
  exact (plan_to_the_maximum_is_the_servant_requirements Sample.catalog Sample.account
           Sample.masterServant Sample.gameServant "max"%string [55] 1
           eq_refl eq_refl Hall).
Defined.

(** ** Baseline promotion along a whole walk *)

Section Promotion.

Variables (gameServantMap : gmap Z GameServant) (masterAccountData : MasterAccountData).

(** What the result records for the instance ids once the directives [ds]
    have been visited: no entry for an id without a booked directive;
    otherwise the target of the last booked directive, and as current
    state the target of the booked directive before it, or the live state
    of the master servant when there is none. *)
Let promoted (r : PlanRequirements) (ds : list PlanServant) : Prop :=
  ∀ k,
    (bookedFor gameServantMap masterAccountData k ds = [] → servants r !! k = None) ∧
    (∀ earlier d masterServant,
        bookedFor gameServantMap masterAccountData k ds = earlier ++ [d] →
        mad_servants masterAccountData !! k = Some masterServant →
        ∃ psr, servants r !! k = Some psr ∧
               target psr = ps_enhancements d ∧
               current psr = default (ms_enhancements masterServant)
                                     (ps_enhancements <$> last earlier)).

Lemma bookedFor_snoc k ds ps :
  bookedFor gameServantMap masterAccountData k (ds ++ [ps]) =
  bookedFor gameServantMap masterAccountData k ds ++
  (if decide (resolved gameServantMap masterAccountData ps = true ∧
              ps_instanceId ps = k) then [ps] else []).
Proof. unfold bookedFor. by rewrite filter_app, filter_cons, filter_nil. Qed.

Lemma step_promoted planId tc o t r ds ps :
  promoted r ds →
  promoted (computePlanServantStep gameServantMap masterAccountData planId tc o t r ps)
           (ds ++ [ps]).
Proof.
  intros IH k. rewrite bookedFor_snoc.
  step_cases gameServantMap masterAccountData planId tc o t r ps; cycle 1.
  { rewrite decide_False by (intros [? _]; congruence). rewrite app_nil_r. apply IH. }
  cbn [servants]. destruct (decide (ps_instanceId ps = k)) as [<-|Hne]; cycle 1.
  { rewrite decide_False by (intros [_ ?]; congruence). rewrite app_nil_r.
    rewrite lookup_insert_ne by done. apply IH. }
  rewrite decide_True by done. rewrite lookup_insert_eq. split.
  - intros Hnil. by apply app_nil in Hnil as [_ [=]].
  - intros earlier d masterServant Heq Hms.
    apply app_inj_tail in Heq as [<- <-].
    rewrite Hm in Hms. injection Hms as <-.
    eexists. split; [reflexivity|]. cbn [target current]. split; [done|].
    unfold baselineOf. destruct (IH (ps_instanceId ps)) as [Hnone Hsome].
    destruct (bookedFor gameServantMap masterAccountData (ps_instanceId ps) ds)
      as [|d0 l] eqn:Hb using rev_ind.
    + by rewrite Hnone.
    + destruct (Hsome l d0 ms eq_refl Hm) as (psr & -> & Ht & _).
      by rewrite last_snoc.
Qed.

Lemma plan_promoted r ds plan o t :
  promoted r ds →
  promoted (_computePlanRequirements r gameServantMap masterAccountData plan o t)
           (ds ++ plan_servants plan).
Proof.
  unfold _computePlanRequirements. cbv zeta.
  generalize (plan_servants plan). intros l. revert r ds.
  induction l as [|ps l IH]; intros r ds Hr; simpl.
  - by rewrite app_nil_r.
  - replace (ds ++ ps :: l) with ((ds ++ [ps]) ++ l) by (by rewrite <- app_assoc).
    apply IH. by apply step_promoted.
Qed.

Lemma plans_promoted r ds (plans : list Plan) o t :
  promoted r ds →
  promoted (foldl (λ r plan, _computePlanRequirements r gameServantMap
                               masterAccountData plan o t) r plans)
           (ds ++ concat (plan_servants <$> plans)).
Proof.
  revert r ds. induction plans as [|p plans IH]; intros r ds Hr; simpl.
  - by rewrite app_nil_r.
  - rewrite app_assoc. apply IH. by apply plan_promoted.
Qed.

End Promotion.

(** X22: chain baseline promotion along any walk.  For an instance id of
    the roster, the entry of the result has as target the target of the
    last directive booked for the id in the whole walk, and as current state
    the target of the booked directive before that one, or the live state
    of the master servant when only one directive is booked for the id. *)
Theorem baseline_promotion_along_any_walk gameServantMap masterAccount plan
    precedingPlans optionsOverride instanceId masterServant earlier directive :
  let masterAccountData := _preProcessMasterAccount masterAccount in
  let result := computePlanRequirements gameServantMap masterAccount plan
                  precedingPlans optionsOverride in
  mad_servants masterAccountData !! instanceId = Some masterServant →
  bookedFor gameServantMap masterAccountData instanceId
    (directivesOfWalk plan precedingPlans) = earlier ++ [directive] →
  ∃ psr, servants result !! instanceId = Some psr ∧
         target psr = ps_enhancements directive ∧
         current psr = default (ms_enhancements masterServant)
                               (ps_enhancements <$> last earlier).
Proof.
  cbv zeta. intros Hms Hbooked.
  unfold computePlanRequirements. cbv zeta.
  set (mad := _preProcessMasterAccount masterAccount).
  set (options := match optionsOverride with Some o => o | None => _ end).
  pose proof (plans_promoted gameServantMap mad _instantiatePlanRequirements []
                (default [] precedingPlans) options false) as Hprev.
  cbn [app] in Hprev.
  pose proof (plan_promoted gameServantMap mad _ _ plan options true
                (Hprev ltac:(intros k; split;
                               [intros _; apply lookup_empty
                               |intros e d m Hb; by destruct e]))) as Hall.
  apply (proj2 (Hall instanceId) earlier directive masterServant); [|exact Hms].
  rewrite <- Hbooked. unfold directivesOfWalk.
  by rewrite fmap_app, concat_app, fmap_cons, fmap_nil, concat_cons, concat_nil, app_nil_r.
Qed.

Lemma baseline_promotion_along_any_walk_witness :
  ∃ psr,
    servants (computePlanRequirements Sample.catalog Sample.account Sample.planB
                (Some [Sample.costumePlanA; Sample.planA]) None) !! 1 = Some psr ∧
    target psr = ps_enhancements (Sample.directive Sample.allOn 4 9) ∧
    current psr = ps_enhancements (Sample.directive Sample.allOn 2 9).
Proof.
  exact (baseline_promotion_along_any_walk Sample.catalog Sample.account Sample.planB
           (Some [Sample.costumePlanA; Sample.planA]) None 1 Sample.masterServant
           [Sample.directive Sample.allOn 0 9; Sample.directive Sample.allOn 2 9]
           (Sample.directive Sample.allOn 4 9) eq_refl eq_refl).
Defined.

(** ** The edit hook of the master account data *)

Section EditHook.

Import MasterAccountDataEditHook.

Lemma orderChangedFrom_spec (ids : list Z) (servants : list MasterServant) (index : nat) :
  (length ids + index = length servants)%nat →
  orderChangedFrom ids servants index =
  Some (bool_decide (ids ≠ ms_instanceId <$> drop index servants)).
Proof.
  revert index. induction ids as [|id ids IH]; intros index Hlen; cbn [orderChangedFrom].
  - rewrite drop_ge by (cbn in Hlen; lia). reflexivity.
  - destruct (servants !! index) as [s|] eqn:Hs; cycle 1.
    { apply lookup_ge_None in Hs. cbn in Hlen. lia. }
    rewrite (drop_S _ _ _ Hs), fmap_cons.
    destruct (Z.eqb_spec id (ms_instanceId s)) as [->|Hne]; cbn [negb].
    + rewrite IH by (cbn in Hlen; lia). f_equal. apply bool_decide_ext.
      split; intros Hn Heq; apply Hn; congruence.
    + f_equal. symmetry. apply bool_decide_eq_true. congruence.
Qed.

Lemma isServantsOrderChanged_spec reference servants :
  isServantsOrderChanged reference servants =
  Some (bool_decide (reference.*1 ≠ ms_instanceId <$> servants)).
Proof.
  unfold isServantsOrderChanged.
  destruct (Nat.eqb_spec (length reference) (length servants)) as [Hlen|Hlen];
    cbn [negb].
  - rewrite orderChangedFrom_spec by (rewrite length_fmap; lia). by rewrite drop_0.
  - f_equal. symmetry. apply bool_decide_eq_true. intros Heq. apply Hlen.
    by rewrite <- (length_fmap fst reference), Heq, length_fmap.
Qed.

End EditHook.

(** X23: [isServantsOrderChanged] never throws, and it answers [false]
    exactly when the instance ids of the servants are, in order, the keys
    of the reference map. *)
Theorem order_changed_iff_ids_differ reference servants :
  MasterAccountDataEditHook.isServantsOrderChanged reference servants =
  Some (bool_decide (reference.*1 ≠ ms_instanceId <$> servants)).
Proof. apply isServantsOrderChanged_spec. Qed.

Section ItemEdits.

Import MasterAccountDataEditHook.

Variables (includeItems : option bool) (QpItemId : Z).
Variable referenceData : MasterAccountEditReferenceData.

Let tracked := itemsTracked referenceData.

(** The fields of the dirty record that the item functions leave alone. *)
Let othersClean (state : HookState) : Prop :=
  dirty_bondLevels (dirtyData state) = false ∧
  dirty_costumes (dirtyData state) = false ∧
  dirty_servants (dirtyData state) = ∅ ∧
  dirty_servantOrder (dirtyData state) = false ∧
  dirty_soundtracks (dirtyData state) = false.

Lemma updateQp_tracked action state :
  tracked state → tracked (updateQp includeItems referenceData action state).
Proof.
  intros [Hitems Hqp]. unfold updateQp. cbv zeta.
  destruct (negb (truthy includeItems)); [by split|].
  destruct (Z.eqb_spec (edit_qp (editData state))
              (getUpdatedValue action (edit_qp (editData state)))) as [Heq|Hne];
    [by split|].
  split; [exact Hitems|]. cbn [dirtyData editData dirty_qp edit_qp].
  rewrite negb_true_iff. split.
  - intros Hd. by apply Z.eqb_neq.
  - intros Hd. by apply Z.eqb_neq.
Qed.

Lemma mark_tracked (dirtyItems : gset Z) (itemId i quantity reference : Z)
    (current : Z → Z) (referenceOf : Z → Z) :
  (∀ j, j ∈ dirtyItems ↔ current j ≠ referenceOf j) →
  reference = referenceOf itemId →
  i ∈ (if negb (quantity =? reference) then {[itemId]} ∪ dirtyItems
       else dirtyItems ∖ {[itemId]}) ↔
  (if decide (i = itemId) then quantity else current i) ≠ referenceOf i.
Proof.
  intros Hd ->. destruct (Z.eqb_spec quantity (referenceOf itemId)) as [Hq|Hq];
    cbn [negb]; rewrite ?elem_of_union, ?elem_of_difference, elem_of_singleton, Hd;
    case_decide; subst; tauto.
Qed.

Lemma updateItem_tracked itemId action state :
  tracked state →
  tracked (updateItem includeItems QpItemId referenceData itemId action state).
Proof.
  intros Ht. unfold updateItem. cbv zeta.
  destruct (negb (truthy includeItems)); [done|].
  destruct (itemId =? QpItemId); [by apply updateQp_tracked|].
  destruct Ht as [Hitems Hqp].
  destruct (edit_items (editData state) !! itemId) as [current|] eqn:Hcur.
  - destruct (Z.eqb_spec current (getUpdatedValue action current)) as [Heq|Hne];
      [by split|].
    split; [|exact Hqp]. intros i.
    cbn [dirtyData editData dirty_items edit_items withItems].
    rewrite (mark_tracked _ itemId i _ _
               (λ j, orZero (edit_items (editData state) !! j))
               (λ j, orZero (ref_items referenceData !! j)) Hitems eq_refl).
    case_decide as Hi; [subst i; by rewrite lookup_insert_eq|].
    by rewrite lookup_insert_ne.
  - destruct (Z.eqb_spec 0 (getUpdatedValue action 0)) as [Heq|Hne].
    + split; [|exact Hqp]. intros i.
      cbn [dirtyData editData dirty_items edit_items withItems].
      destruct (decide (i = itemId)) as [->|Hi].
      * by rewrite lookup_insert_eq, Hitems, Hcur.
      * by rewrite lookup_insert_ne.
    + split; [|exact Hqp]. intros i.
      cbn [dirtyData editData dirty_items edit_items withItems].
      rewrite insert_insert_eq.
      rewrite (mark_tracked _ itemId i _ _
                 (λ j, orZero (edit_items (editData state) !! j))
                 (λ j, orZero (ref_items referenceData !! j)) Hitems eq_refl).
      case_decide as Hi; [subst i; by rewrite lookup_insert_eq|].
      by rewrite lookup_insert_ne.
Qed.

Lemma updateQp_others action state :
  othersClean state → othersClean (updateQp includeItems referenceData action state).
Proof.
  unfold updateQp. cbv zeta.
  destruct (negb (truthy includeItems)); [done|].
  by destruct (_ =? _).
Qed.

Lemma updateItem_others itemId action state :
  othersClean state →
  othersClean (updateItem includeItems QpItemId referenceData itemId action state).
Proof.
  intros Ho. unfold updateItem. cbv zeta.
  destruct (negb (truthy includeItems)); [done|].
  destruct (itemId =? QpItemId); [by apply updateQp_others|].
  destruct (edit_items (editData state) !! itemId); by destruct (_ =? _).
Qed.

Lemma item_edits_invariant (edits : list ItemEdit) state :
  tracked state → othersClean state →
  let state' := foldl (applyItemEdit includeItems QpItemId referenceData) state edits in
  tracked state' ∧ othersClean state'.
Proof.
  cbv zeta. revert state. induction edits as [|e edits IH]; intros state Ht Ho; [done|].
  simpl. apply IH; destruct e; simpl;
    auto using updateItem_tracked, updateQp_tracked, updateItem_others, updateQp_others.
Qed.

Lemma tracked_clean_iff state :
  tracked state → othersClean state →
  hasDirtyData (dirtyData state) = false ↔
  (∀ itemId, orZero (edit_items (editData state) !! itemId) =
             orZero (ref_items referenceData !! itemId)) ∧
  edit_qp (editData state) = ref_qp referenceData.
Proof.
  intros [Hitems Hqp] (H1 & H2 & H3 & H4 & H5). unfold hasDirtyData.
  rewrite H1, H2, H3, H4, H5. cbn [orb].
  rewrite (bool_decide_eq_true_2 (∅ = ∅)) by done. cbn [negb orb].
  rewrite !orb_false_r, orb_false_iff, negb_false_iff, bool_decide_eq_true.
  split.
  - intros [Hd Hq]. split.
    + intros i. destruct (decide (orZero (edit_items (editData state) !! i) =
                                   orZero (ref_items referenceData !! i))) as [|Hne];
        [done|].
      apply Hitems in Hne. rewrite Hd in Hne. by apply elem_of_empty in Hne.
    + destruct (decide (edit_qp (editData state) = ref_qp referenceData)) as [|Hne];
        [done|].
      apply Hqp in Hne. congruence.
  - intros [Hi Hq]. split.
    + apply set_eq. intros i. rewrite Hitems, Hi, elem_of_empty. tauto.
    + destruct (dirty_qp (dirtyData state)) eqn:Hd; [|done].
      exfalso. by apply Hqp.
Qed.

End ItemEdits.

(** X24: the dirty record tracks the items and the qp exactly.  From a
    state in which an item is marked dirty exactly when its quantity differs
    from the reference (a missing entry counting as 0), the qp likewise, and
    nothing else is marked, any sequence of calls of [updateItem] and
    [updateQp] leads to such a state; there [hasDirtyData] answers [false]
    exactly when every quantity and the qp are those of the reference.  So
    an edit that is taken back clears its mark. *)
Theorem item_edits_are_tracked_exactly includeItems QpItemId referenceData
    (edits : list MasterAccountDataEditHook.ItemEdit) state :
  MasterAccountDataEditHook.itemsTracked referenceData state →
  MasterAccountDataEditHook.dirty_bondLevels
    (MasterAccountDataEditHook.dirtyData state) = false →
  MasterAccountDataEditHook.dirty_costumes
    (MasterAccountDataEditHook.dirtyData state) = false →
  MasterAccountDataEditHook.dirty_servants
    (MasterAccountDataEditHook.dirtyData state) = ∅ →
  MasterAccountDataEditHook.dirty_servantOrder
    (MasterAccountDataEditHook.dirtyData state) = false →
  MasterAccountDataEditHook.dirty_soundtracks
    (MasterAccountDataEditHook.dirtyData state) = false →
  let state' :=
    foldl (MasterAccountDataEditHook.applyItemEdit includeItems QpItemId referenceData)
          state edits in
  MasterAccountDataEditHook.itemsTracked referenceData state' ∧
  (MasterAccountDataEditHook.hasDirtyData
     (MasterAccountDataEditHook.dirtyData state') = false ↔
   (∀ itemId,
      orZero (MasterAccountDataEditHook.edit_items
                (MasterAccountDataEditHook.editData state') !! itemId) =
      orZero (MasterAccountDataEditHook.ref_items referenceData !! itemId)) ∧
   MasterAccountDataEditHook.edit_qp (MasterAccountDataEditHook.editData state') =
   MasterAccountDataEditHook.ref_qp referenceData).
Proof.
  intros Ht H1 H2 H3 H4 H5. cbv zeta.
  destruct (item_edits_invariant includeItems QpItemId referenceData edits state Ht)
    as [Ht' Ho']; [by split_and!|].
  split; [exact Ht'|]. by apply tracked_clean_iff.
Qed.

Section ServantEdits.

Import MasterAccountDataEditHook.

Variable includeServants : option bool.
Variable referenceData : MasterAccountEditReferenceData.

(** The servant [findIndex] points at. *)
Let pick (currentServants : list MasterServant) (instanceId : Z) : option MasterServant :=
  snd <$> list_find (λ servant, ms_instanceId servant = instanceId) currentServants.

Lemma pushServantWithId_omap currentServants servants (instanceIds : list Z) :
  foldl (pushServantWithId currentServants) servants instanceIds =
  servants ++ omap (pick currentServants) instanceIds.
Proof.
  revert servants. induction instanceIds as [|id ids IH]; intros servants; simpl.
  - by rewrite app_nil_r.
  - rewrite IH. unfold pushServantWithId, pick.
    destruct (list_find _ currentServants) as [[i s]|]; simpl; [|done].
    by rewrite <- app_assoc.
Qed.

Lemma pick_Some currentServants instanceId servant :
  pick currentServants instanceId = Some servant →
  servant ∈ currentServants ∧ ms_instanceId servant = instanceId.
Proof.
  unfold pick. destruct (list_find _ currentServants) as [[i s]|] eqn:Hf; [|done].
  intros [= <-]. apply list_find_Some in Hf as (Hi & Hs & _).
  split; [by eapply list_elem_of_lookup_2|done].
Qed.

Lemma pick_first currentServants instanceId servant :
  pick currentServants instanceId = Some servant →
  ∃ index,
    list_find (λ s, ms_instanceId s = ms_instanceId servant) currentServants =
    Some (index, servant).
Proof.
  unfold pick. destruct (list_find _ currentServants) as [[i s]|] eqn:Hf; [|done].
  intros [= <-]. pose proof Hf as (_ & <- & _)%list_find_Some. by exists i.
Qed.

Lemma pick_is_Some currentServants instanceId :
  is_Some (pick currentServants instanceId) ↔
  instanceId ∈ ms_instanceId <$> currentServants.
Proof.
  split.
  - intros [s Hs]. apply pick_Some in Hs as [Hin <-]. by apply list_elem_of_fmap_2.
  - intros (s & -> & Hin)%list_elem_of_fmap. unfold pick.
    destruct (list_find (λ servant, ms_instanceId servant = ms_instanceId s)
                currentServants) as [[i s']|] eqn:Hf; [by eexists|].
    exfalso. eapply list_find_None in Hf. rewrite Forall_forall in Hf.
    by apply (Hf s).
Qed.

Lemma picked_ids currentServants (instanceIds : list Z) :
  ms_instanceId <$> omap (pick currentServants) instanceIds =
  filter (λ id, id ∈ ms_instanceId <$> currentServants) instanceIds.
Proof.
  induction instanceIds as [|id ids IH]; [done|].
  rewrite filter_cons. cbn [omap list_omap].
  destruct (pick currentServants id) as [s|] eqn:Hp.
  - rewrite decide_True by (apply pick_is_Some; by eexists).
    rewrite fmap_cons. f_equal; [|apply IH]. by apply pick_Some in Hp as [_ ->].
  - rewrite decide_False; [apply IH|].
    intros Hin. apply pick_is_Some in Hin as [s Hs]. congruence.
Qed.

Lemma pick_own (before after : list MasterServant) servant :
  NoDup (ms_instanceId <$> before ++ servant :: after) →
  pick (before ++ servant :: after) (ms_instanceId servant) = Some servant.
Proof.
  intros Hnd. unfold pick.
  assert (list_find (λ s, ms_instanceId s = ms_instanceId servant)
            (before ++ servant :: after) = Some (length before, servant)) as ->; [|done].
  apply list_find_Some. split_and!.
  - by rewrite list_lookup_middle.
  - done.
  - intros j y Hj Hlt Hy. rewrite lookup_app_l in Hj by done.
    rewrite fmap_app, fmap_cons in Hnd. apply NoDup_app in Hnd as (_ & Hdisj & _).
    apply (Hdisj (ms_instanceId y)).
    + apply list_elem_of_fmap_2. by eapply list_elem_of_lookup_2.
    + rewrite Hy. by left.
Qed.

Lemma pick_all (before after : list MasterServant) :
  NoDup (ms_instanceId <$> before ++ after) →
  omap (pick (before ++ after)) (ms_instanceId <$> after) = after.
Proof.
  revert before. induction after as [|s after IH]; intros before Hnd; [done|].
  rewrite fmap_cons. cbn [omap list_omap]. rewrite pick_own by done.
  f_equal. specialize (IH (before ++ [s])). rewrite <- app_assoc in IH.
  by apply IH.
Qed.

Lemma pick_roster (currentServants : list MasterServant) :
  NoDup (ms_instanceId <$> currentServants) →
  omap (pick currentServants) (ms_instanceId <$> currentServants) = currentServants.
Proof. apply (pick_all []). Qed.

Lemma lastInstanceIdAfterDelete_spec fuel (instanceIdSet : gset Z) referenceLast last :
  last - referenceLast ≤ Z.of_nat fuel →
  let last' := lastInstanceIdAfterDelete fuel instanceIdSet referenceLast last in
  last' ≤ last ∧
  (referenceLast ≤ last → referenceLast ≤ last') ∧
  (last' ≤ referenceLast ∨ last' ∉ instanceIdSet) ∧
  (∀ i, last' < i ≤ last → i ∈ instanceIdSet).
Proof.
  cbv zeta. revert last. induction fuel as [|fuel IH]; intros last Hfuel;
    cbn [lastInstanceIdAfterDelete].
  - split_and!; [lia|done|left; lia|intros; lia].
  - destruct (Z.gtb_spec last referenceLast) as [Hgt|Hle].
    + destruct (decide (last ∈ instanceIdSet)) as [Hin|Hnin].
      * rewrite (bool_decide_eq_true_2 _ Hin). cbn [negb].
        destruct (IH (last - 1)) as (H1 & H2 & H3 & H4); [lia|].
        split_and!; [lia|intros; apply H2; lia|exact H3|].
        intros i Hi. destruct (decide (i = last)) as [->|Hne]; [done|].
        apply H4. lia.
      * rewrite (bool_decide_eq_false_2 _ Hnin). cbn [negb].
        split_and!; [lia|done|by right|intros; lia].
    + split_and!; [lia|done|left; lia|intros; lia].
Qed.

Lemma markDeleted_spec (instanceIds : list Z) (dirtyServants : gset Z) (i : Z) :
  i ∈ foldl (markDeleted referenceData) dirtyServants instanceIds ↔
  if decide (i ∈ instanceIds) then i ∈ (ref_servants referenceData).*1
  else i ∈ dirtyServants.
Proof.
  revert dirtyServants. induction instanceIds as [|id ids IH] using rev_ind;
    intros dirtyServants.
  - cbn [foldl]. rewrite decide_False; [done|]. apply not_elem_of_nil.
  - rewrite foldl_app. cbn [foldl]. unfold markDeleted at 1.
    destruct (decide (i = id)) as [->|Hne].
    + rewrite decide_True by (apply elem_of_app; right; by left).
      destruct (decide (id ∈ (ref_servants referenceData).*1)) as [Hin|Hnin].
      * rewrite (bool_decide_eq_true_2 _ Hin). cbn [negb].
        rewrite elem_of_union, elem_of_singleton. tauto.
      * rewrite (bool_decide_eq_false_2 _ Hnin). cbn [negb].
        rewrite elem_of_difference, elem_of_singleton. tauto.
    + assert (i ∈ (if negb (bool_decide (id ∈ (ref_servants referenceData).*1))
                   then foldl (markDeleted referenceData) dirtyServants ids ∖ {[id]}
                   else {[id]} ∪ foldl (markDeleted referenceData) dirtyServants ids) ↔
              i ∈ foldl (markDeleted referenceData) dirtyServants ids) as ->.
      { destruct (negb _);
          rewrite ?elem_of_union, ?elem_of_difference, elem_of_singleton; tauto. }
      rewrite IH. destruct (decide (i ∈ ids)) as [Hin|Hnin].
      * rewrite decide_True; [done|]. apply elem_of_app. by left.
      * rewrite decide_False; [done|]. rewrite elem_of_app, list_elem_of_singleton.
        tauto.
Qed.

Lemma toArray_toSet (instanceIds : IdNumbers) (i : Z) :
  i ∈ toArray instanceIds ↔ i ∈ toSet instanceIds.
Proof.
  destruct instanceIds as [l|s]; cbn [toArray toSet].
  - by rewrite elem_of_list_to_set.
  - apply elem_of_elements.
Qed.

End ServantEdits.

(** X25: [updateServantOrder] never throws.  The new servant array holds,
    for each given instance id that a current servant has, in the order of
    the ids, the first current servant with that id; ids that no servant
    has are dropped, and a servant whose id is not given is removed.  The
    order is marked dirty exactly when the ids of the array are not, in
    order, the keys of the reference map.  When the current servants have
    distinct ids and the given ids are a permutation of them, the new array
    is a permutation of the current one. *)
Theorem updateServantOrder_reorders includeServants referenceData
    (instanceIds : list Z) state :
  truthy includeServants = true →
  let currentServants :=
    MasterAccountDataEditHook.edit_servants
      (MasterAccountDataEditHook.editData state) in
  ∃ state',
    MasterAccountDataEditHook.updateServantOrder includeServants referenceData
      instanceIds state = Some state' ∧
    let servants :=
      MasterAccountDataEditHook.edit_servants
        (MasterAccountDataEditHook.editData state') in
    ms_instanceId <$> servants =
      filter (λ id, id ∈ ms_instanceId <$> currentServants) instanceIds ∧
    (∀ servant, servant ∈ servants → servant ∈ currentServants) ∧
    MasterAccountDataEditHook.dirty_servantOrder
      (MasterAccountDataEditHook.dirtyData state') =
      bool_decide ((MasterAccountDataEditHook.ref_servants referenceData).*1 ≠
                   ms_instanceId <$> servants) ∧
    (NoDup (ms_instanceId <$> currentServants) →
     instanceIds ≡ₚ ms_instanceId <$> currentServants →
     servants ≡ₚ currentServants) ∧
    (∀ servant, servant ∈ servants →
       ∃ index,
         list_find (λ s, ms_instanceId s = ms_instanceId servant) currentServants =
         Some (index, servant)).
Proof.
  intros Hinc. cbv zeta. unfold MasterAccountDataEditHook.updateServantOrder.
  rewrite Hinc. cbn [negb]. cbv zeta.
  rewrite isServantsOrderChanged_spec. eexists. split; [reflexivity|].
  cbn [MasterAccountDataEditHook.editData MasterAccountDataEditHook.dirtyData
       MasterAccountDataEditHook.edit_servants
       MasterAccountDataEditHook.dirty_servantOrder
       MasterAccountDataEditHook.withServants].
  rewrite pushServantWithId_omap. cbn [app]. split_and!.
  - apply picked_ids.
  - intros s (id & _ & Hs)%list_elem_of_omap. by apply pick_Some in Hs as [Hin _].
  - reflexivity.
  - intros Hnd Hperm. rewrite Hperm.
    by rewrite (pick_roster _ Hnd).
  - intros s (id & _ & Hs)%list_elem_of_omap. exact (pick_first _ id _ Hs).
Qed.

(** X26: [deleteServants] never throws.  It keeps, in their order, the
    servants whose instance id is not given.  The last instance id never
    goes up and never goes below the reference value when it was not below
    it; it stops at the reference value or at an id that is not deleted,
    and every id it steps over is deleted.  A given id is marked dirty
    exactly when the reference map has it, the marks of the other ids are
    kept, and the order is marked dirty exactly when the remaining ids are
    not, in order, the keys of the reference map. *)
Theorem deleteServants_removes_and_steps_back includeServants referenceData
    (instanceIds : MasterAccountDataEditHook.IdNumbers) state :
  truthy includeServants = true →
  let edit := MasterAccountDataEditHook.editData state in
  let deleted := MasterAccountDataEditHook.toSet instanceIds in
  let referenceLast :=
    MasterAccountDataEditHook.ref_lastServantInstanceId referenceData in
  let last := MasterAccountDataEditHook.edit_lastServantInstanceId edit in
  ∃ state',
    MasterAccountDataEditHook.deleteServants includeServants referenceData
      instanceIds state = Some state' ∧
    let edit' := MasterAccountDataEditHook.editData state' in
    let dirty' := MasterAccountDataEditHook.dirtyData state' in
    let last' := MasterAccountDataEditHook.edit_lastServantInstanceId edit' in
    MasterAccountDataEditHook.edit_servants edit' =
      filter (λ servant, ms_instanceId servant ∉ deleted)
             (MasterAccountDataEditHook.edit_servants edit) ∧
    last' ≤ last ∧
    (referenceLast ≤ last → referenceLast ≤ last') ∧
    (last' ≤ referenceLast ∨ last' ∉ deleted) ∧
    (∀ i, last' < i ≤ last → i ∈ deleted) ∧
    (∀ i, i ∈ MasterAccountDataEditHook.dirty_servants dirty' ↔
          if decide (i ∈ deleted)
          then i ∈ (MasterAccountDataEditHook.ref_servants referenceData).*1
          else i ∈ MasterAccountDataEditHook.dirty_servants
                     (MasterAccountDataEditHook.dirtyData state)) ∧
    MasterAccountDataEditHook.dirty_servantOrder dirty' =
      bool_decide ((MasterAccountDataEditHook.ref_servants referenceData).*1 ≠
                   ms_instanceId <$> MasterAccountDataEditHook.edit_servants edit').
Proof.
  intros Hinc. cbv zeta. unfold MasterAccountDataEditHook.deleteServants.
  rewrite Hinc. cbn [negb]. cbv zeta.
  rewrite isServantsOrderChanged_spec. eexists. split; [reflexivity|].
  cbn [MasterAccountDataEditHook.editData MasterAccountDataEditHook.dirtyData
       MasterAccountDataEditHook.edit_servants
       MasterAccountDataEditHook.edit_lastServantInstanceId
       MasterAccountDataEditHook.dirty_servants
       MasterAccountDataEditHook.dirty_servantOrder
       MasterAccountDataEditHook.withServants].
  pose proof (lastInstanceIdAfterDelete_spec
                (Z.to_nat (MasterAccountDataEditHook.edit_lastServantInstanceId
                             (MasterAccountDataEditHook.editData state) -
                           MasterAccountDataEditHook.ref_lastServantInstanceId
                             referenceData))
                (MasterAccountDataEditHook.toSet instanceIds)
                (MasterAccountDataEditHook.ref_lastServantInstanceId referenceData)
                (MasterAccountDataEditHook.edit_lastServantInstanceId
                   (MasterAccountDataEditHook.editData state)))
    as Hloop.
  cbv zeta in Hloop. destruct Hloop as (H1 & H2 & H3 & H4); [lia|].
  split_and!; try done.
  intros i. rewrite markDeleted_spec.
  destruct (decide (i ∈ MasterAccountDataEditHook.toArray instanceIds)) as [Hin|Hnin].
  - rewrite decide_True; [done|]. by apply toArray_toSet.
  - rewrite decide_False; [done|]. by rewrite <- toArray_toSet.
Qed.

(** ** The properties at the sample data *)

Lemma nonnegative_catalog_nonnegative_result_witness :
  catalogNonNeg Sample.catalog ∧
  everyRecord requirementsNonNeg
    (computePlanRequirements Sample.catalog Sample.account Sample.planB
       (Some [Sample.planA]) None).
Proof.
  assert (catalogNonNeg Sample.catalog) as Hcat
    by (eapply bool_decide_unpack; vm_compute; exact I).
  split; [exact Hcat|].
  exact (nonnegative_catalog_nonnegative_result Sample.catalog Sample.account
           Sample.planB (Some [Sample.planA]) None Hcat).
Defined.

Lemma two_stages_cost_the_direct_cost_witness :
  let requirementsOf from to :=
    _computeServantEnhancementRequirements Sample.gameServant from {[55]} to None
      (Some Sample.loresIncluded) in
  let mid := ps_enhancements (Sample.directive Sample.allOn 2 9) in
  let tgt := ps_enhancements (Sample.directive Sample.allOn 4 10) in
  qp (requirementsOf Sample.live mid) + qp (requirementsOf mid tgt) =
  qp (requirementsOf Sample.live tgt) +
  axisOn (includeCostumes Sample.loresIncluded)
    (costumesQp {[55]} None (gs_costumes Sample.gameServant)).
Proof.
  cbv zeta.
  assert (enhancementsLe Sample.live
            (ps_enhancements (Sample.directive Sample.allOn 2 9))) as H1
    by (eapply bool_decide_unpack; vm_compute; exact I).
  assert (enhancementsLe (ps_enhancements (Sample.directive Sample.allOn 2 9))
            (ps_enhancements (Sample.directive Sample.allOn 4 10))) as H2
    by (eapply bool_decide_unpack; vm_compute; exact I).
  exact (proj1 (two_stages_cost_the_direct_cost Sample.gameServant Sample.live
                  (ps_enhancements (Sample.directive Sample.allOn 2 9))
                  (ps_enhancements (Sample.directive Sample.allOn 4 10))
                  {[55]} None Sample.loresIncluded H1 H2
                  (ex_intro _ 2 eq_refl) (ex_intro _ 4 eq_refl))).
Defined.

Lemma nothing_to_pay_at_or_above_target_witness :
  _computeServantEnhancementRequirements Sample.gameServant
    (ps_enhancements (Sample.directive Sample.allOn 4 10)) {[55]}
    (ps_enhancements (Sample.directive Sample.allOn 2 9)) None None =
  _instantiateEnhancementRequirements.
Proof.
  assert (enhancementsLe (ps_enhancements (Sample.directive Sample.allOn 2 9))
            (ps_enhancements (Sample.directive Sample.allOn 4 10))) as H1
    by (eapply bool_decide_unpack; vm_compute; exact I).
  assert (∀ costumeId, is_Some (gs_costumes Sample.gameServant !! costumeId) →
                       costumeId ∈ ({[55]} : gset Z)) as H2.
  { intros costumeId [c Hc]. apply elem_of_singleton.
    destruct (decide (costumeId = 55)) as [->|Hne]; [reflexivity|].
    exfalso. unfold Sample.gameServant in Hc. cbn in Hc.
    rewrite lookup_insert_ne in Hc by done.
    exact (lookup_empty_Some (M := gmap Z) _ _ Hc). }
  exact (nothing_to_pay_at_or_above_target Sample.gameServant _ _ {[55]} None None
           H1 H2).
Defined.

Lemma higher_target_never_cheaper_witness :
  let requirementsOf to :=
    _computeServantEnhancementRequirements Sample.gameServant Sample.live ∅ to None None in
  qp (requirementsOf (ps_enhancements (Sample.directive Sample.allOn 2 9))) ≤
  qp (requirementsOf (ps_enhancements (Sample.directive Sample.allOn 4 10))).
Proof.
  cbv zeta.
  assert (gameServantNonNeg Sample.gameServant) as H0
    by (eapply bool_decide_unpack; vm_compute; exact I).
  assert (enhancementsLe (ps_enhancements (Sample.directive Sample.allOn 2 9))
            (ps_enhancements (Sample.directive Sample.allOn 4 10))) as H1
    by (eapply bool_decide_unpack; vm_compute; exact I).
  exact (proj1 (higher_target_never_cheaper Sample.gameServant Sample.live
                  (ps_enhancements (Sample.directive Sample.allOn 2 9))
                  (ps_enhancements (Sample.directive Sample.allOn 4 10)) ∅ None None
                  H0 H1 (ex_intro _ 4 eq_refl))).
Defined.

Lemma sum_order_irrelevant_witness :
  let A := _computeServantEnhancementRequirements Sample.gameServant Sample.live ∅
             (ps_enhancements (Sample.directive Sample.allOn 2 9)) None None in
  let B := _computeServantEnhancementRequirements Sample.gameServant Sample.live ∅
             (ps_enhancements (Sample.directive Sample.allOn 0 10)) None None in
  sumEnhancementRequirements [A; B] = sumEnhancementRequirements [B; A].
Proof. cbv zeta. exact (sum_order_irrelevant _ _ (perm_swap _ _ [])). Defined.

Lemma intermediate_plan_adds_only_its_costumes_witness :
  let intermediate := mkPlan "A" Sample.allOn [Sample.directive Sample.allOn 2 9] [55] in
  qp (group (computePlanRequirements Sample.catalog Sample.account Sample.planB
               (Some [intermediate]) None)) =
  qp (group (computePlanRequirements Sample.catalog Sample.account Sample.planB
               None None)) +
  axisOn (includeCostumes
            (_mergeComputationOptions (_parseComputationOptions Sample.allOn)
               (_parseComputationOptions Sample.allOn)))
    (costumesQp (list_to_set (ma_costumes Sample.account)) (Some (list_to_set [55]))
       (gs_costumes Sample.gameServant)).
Proof.
  cbv zeta.
  assert (enhancementsLe (ms_enhancements Sample.masterServant)
            (ps_enhancements (Sample.directive Sample.allOn 2 9))) as H1
    by (eapply bool_decide_unpack; vm_compute; exact I).
  assert (enhancementsLe (ps_enhancements (Sample.directive Sample.allOn 2 9))
            (ps_enhancements (Sample.directive Sample.allOn 4 9))) as H2
    by (eapply bool_decide_unpack; vm_compute; exact I).
  exact (proj1 (intermediate_plan_adds_only_its_costumes Sample.catalog Sample.account
                  Sample.masterServant Sample.gameServant None
                  "A"%string Sample.allOn [55] (Sample.directive Sample.allOn 2 9)
                  "B"%string Sample.allOn [] (Sample.directive Sample.allOn 4 9)
                  eq_refl eq_refl eq_refl eq_refl eq_refl eq_refl H1 H2
                  (ex_intro _ 2 eq_refl) (ex_intro _ 4 eq_refl))).
Defined.

Lemma servant_record_holds_target_plan_only_witness :
  let waiting := mkPSR 1 Sample.live
                   (ps_enhancements (Sample.directive Sample.allOn 2 9))
                   _instantiateEnhancementRequirements in
  let absent :=
    mkPlan "T" Sample.allOn [mkPlanServant 2 true Sample.allOn Sample.live] [] in
  servants (computePlanRequirements Sample.catalog Sample.account absent
              (Some [Sample.planA]) None) !! 1 = Some waiting ∧
  requirements waiting = _instantiateEnhancementRequirements.
Proof.
  cbv zeta.
  assert (servants (computePlanRequirements Sample.catalog Sample.account
                      (mkPlan "T" Sample.allOn
                         [mkPlanServant 2 true Sample.allOn Sample.live] [])
                      (Some [Sample.planA]) None) !! 1 =
          Some (mkPSR 1 Sample.live
                  (ps_enhancements (Sample.directive Sample.allOn 2 9))
                  _instantiateEnhancementRequirements)) as Hentry
    by (vm_compute; reflexivity).
  assert (∀ ps, ps ∈ [mkPlanServant 2 true Sample.allOn Sample.live] →
                resolved Sample.catalog (_preProcessMasterAccount Sample.account) ps
                  = true →
                ps_instanceId ps ≠ 1) as Hother.
  { intros ps Hin Hr. apply list_elem_of_singleton in Hin. subst ps.
    vm_compute in Hr. discriminate Hr. }
  split; [exact Hentry|].
  exact (servant_record_holds_target_plan_only Sample.catalog Sample.account
           (mkPlan "T" Sample.allOn [mkPlanServant 2 true Sample.allOn Sample.live] [])
           (Some [Sample.planA]) None 1 _ Hother Hentry).
Defined.

Lemma directive_order_irrelevant_for_distinct_servants_witness :
  let account :=
    mkMasterAccount [Sample.masterServant; MasterAccountDataEditHook.Sample.second]
                    ∅ 0 [] in
  let first := Sample.directive Sample.allOn 4 9 in
  let second :=
    mkPlanServant 2 true Sample.allOn
      (mkEnh (Some 2) (Sample.levels 10 10 10) (Sample.levels 1 1 1)) in
  _computePlanRequirements _instantiatePlanRequirements Sample.catalog
    (_preProcessMasterAccount account)
    (mkPlan "M" Sample.allOn [second; first] [])
    (_parseComputationOptions Sample.allOn) true =
  _computePlanRequirements _instantiatePlanRequirements Sample.catalog
    (_preProcessMasterAccount account)
    (mkPlan "M" Sample.allOn [first; second] [])
    (_parseComputationOptions Sample.allOn) true.
Proof.
  cbv zeta.
  assert (NoDup (ps_instanceId <$>
                   [Sample.directive Sample.allOn 4 9;
                    mkPlanServant 2 true Sample.allOn
                      (mkEnh (Some 2) (Sample.levels 10 10 10) (Sample.levels 1 1 1))]))
    as Hnd by (eapply bool_decide_unpack; vm_compute; exact I).
  exact (directive_order_irrelevant_for_distinct_servants
           _instantiatePlanRequirements Sample.catalog _
           (mkPlan "M" Sample.allOn
              [Sample.directive Sample.allOn 4 9;
               mkPlanServant 2 true Sample.allOn
                 (mkEnh (Some 2) (Sample.levels 10 10 10) (Sample.levels 1 1 1))] [])
           _ true _ (perm_swap _ _ []) Hnd).
Defined.

Lemma item_edits_are_tracked_exactly_witness :
  let state' :=
    foldl (MasterAccountDataEditHook.applyItemEdit (Some true) 5
             MasterAccountDataEditHook.Sample.reference)
          MasterAccountDataEditHook.Sample.loaded
          [ MasterAccountDataEditHook.EditItem 7001
              (MasterAccountDataEditHook.StateValue 5);
            MasterAccountDataEditHook.EditQp
              (MasterAccountDataEditHook.StateUpdater (λ amount, amount + 1));
            MasterAccountDataEditHook.EditItem 7001
              (MasterAccountDataEditHook.StateUpdater (λ quantity, quantity - 2)) ] in
  MasterAccountDataEditHook.itemsTracked MasterAccountDataEditHook.Sample.reference
    state' ∧
  MasterAccountDataEditHook.dirty_items (MasterAccountDataEditHook.dirtyData state') = ∅ ∧
  MasterAccountDataEditHook.dirty_qp (MasterAccountDataEditHook.dirtyData state') = true.
Proof.
  cbv zeta.
  assert (MasterAccountDataEditHook.itemsTracked
            MasterAccountDataEditHook.Sample.reference
            MasterAccountDataEditHook.Sample.loaded) as Hloaded.
  { split.
    - intros itemId. split; [intros Hin; by apply elem_of_empty in Hin|].
      intros Hne. by destruct Hne.
    - split; [discriminate|]. intros Hne. by destruct Hne. }
  split_and!.
  - exact (proj1 (item_edits_are_tracked_exactly (Some true) 5
                    MasterAccountDataEditHook.Sample.reference _
                    MasterAccountDataEditHook.Sample.loaded Hloaded
                    eq_refl eq_refl eq_refl eq_refl eq_refl)).
  - vm_compute. reflexivity.
  - vm_compute. reflexivity.
Defined.

Lemma updateServantOrder_reorders_witness :
  ∃ state',
    MasterAccountDataEditHook.updateServantOrder (Some true)
      MasterAccountDataEditHook.Sample.reference [2; 7; 1]
      MasterAccountDataEditHook.Sample.loaded = Some state' ∧
    ms_instanceId <$> MasterAccountDataEditHook.edit_servants
                        (MasterAccountDataEditHook.editData state') = [2; 1] ∧
    MasterAccountDataEditHook.dirty_servantOrder
      (MasterAccountDataEditHook.dirtyData state') = true.
Proof.
  destruct (updateServantOrder_reorders (Some true)
              MasterAccountDataEditHook.Sample.reference [2; 7; 1]
              MasterAccountDataEditHook.Sample.loaded eq_refl)
    as (state' & Hcall & Hids & _ & Hdirty & _).
  exists state'. split_and!.
  - exact Hcall.
  - rewrite Hids. vm_compute. reflexivity.
  - rewrite Hdirty, Hids. vm_compute. reflexivity.
Defined.

Lemma deleteServants_removes_and_steps_back_witness :
  ∃ state',
    MasterAccountDataEditHook.deleteServants (Some true)
      MasterAccountDataEditHook.Sample.reference
      (MasterAccountDataEditHook.IdArray [3; 1])
      MasterAccountDataEditHook.Sample.withThird = Some state' ∧
    MasterAccountDataEditHook.edit_servants
      (MasterAccountDataEditHook.editData state') =
      [MasterAccountDataEditHook.Sample.second] ∧
    2 ≤ MasterAccountDataEditHook.edit_lastServantInstanceId
          (MasterAccountDataEditHook.editData state').
Proof.
  destruct (deleteServants_removes_and_steps_back (Some true)
              MasterAccountDataEditHook.Sample.reference
              (MasterAccountDataEditHook.IdArray [3; 1])
              MasterAccountDataEditHook.Sample.withThird eq_refl)
    as (state' & Hcall & Hservants & _ & Hlast & _).
  exists state'. split_and!.
  - exact Hcall.
  - rewrite Hservants. vm_compute. reflexivity.
  - apply Hlast. vm_compute. discriminate.
Defined.
